(** * Backend_deployment: the crawl frontier and content pipeline
      of [file_api.py]

    A shallow embedding of the Flask blueprint [file_api] (URL classifier,
    link extractor, content extractor, crawl engine, bulk processing and
    stats) together with the properties its specification states.

    Conventions of the embedding:
    - a Python [str] is a [string]; its characters are the code points
      below 256, so [str.lower], [str.isspace] and [re.IGNORECASE] are the
      restrictions of the Python functions to that range;
    - a MongoDB collection is the list of its documents in insertion order
      ([find_one] returns the first match, [insert_one] appends and hands
      out the next [_id]); the store itself does not fail;
    - a document is a record: the fields that the code writes on every
      insert and reads with [doc['key']] are plain, the fields it reads
      with [doc.get('key', default)] or sets later are optional;
    - the network, the HTML parser, [validators.url], [urllib.parse.urljoin],
      the builtin [int] and the iteration order of a Python [set] are
      external: they are the fields of an environment record [Env];
    - the input of [recursive_crawl] is the value that
      [request.get_json()] returns, of whatever JSON type; a request for
      which [get_json] itself raises is not an input of the embedding;
    - [datetime.now()] values are stored by the code but never read back, so
      the timestamp fields are left out of the documents, and so is the
      traceback text stored next to an error. *)

From Stdlib Require Import List String Ascii Bool Arith ZArith Lia.
Import ListNotations.
Open Scope string_scope.

Set Implicit Arguments.

(** ** Python string operations used by the source *)

Module PyStr.

Definition nl : ascii := "010"%char.

(** [str.isspace] on one character. *)
Definition isspace (c : ascii) : bool :=
  let n := nat_of_ascii c in
  (((9 <=? n) && (n <=? 13)) || ((28 <=? n) && (n <=? 32))
   || (n =? 133) || (n =? 160))%nat.

(** [str.lower] on one character. *)
Definition lower_char (c : ascii) : ascii :=
  let n := nat_of_ascii c in
  if (((65 <=? n) && (n <=? 90))
      || ((192 <=? n) && (n <=? 222) && negb (n =? 215)))%nat
  then ascii_of_nat (n + 32) else c.

Fixpoint lower (s : string) : string :=
  match s with
  | EmptyString => EmptyString
  | String c t => String (lower_char c) (lower t)
  end.

(** [s.startswith(p)] *)
Definition startswith (s p : string) : bool := String.prefix p s.

(** [needle in hay] *)
Fixpoint contains (needle hay : string) : bool :=
  String.prefix needle hay
  || match hay with
     | EmptyString => false
     | String _ t => contains needle t
     end.

Fixpoint lstrip (s : string) : string :=
  match s with
  | EmptyString => EmptyString
  | String c t => if isspace c then lstrip t else s
  end.

Fixpoint rstrip (s : string) : string :=
  match s with
  | EmptyString => EmptyString
  | String c t =>
      match rstrip t with
      | EmptyString => if isspace c then EmptyString else String c EmptyString
      | t' => String c t'
      end
  end.

(** [s.strip()] *)
Definition strip (s : string) : string := rstrip (lstrip s).

(** [s.split()]: the maximal runs of non-whitespace characters, in order.
    [cur] is the token being read, in reverse. *)
Fixpoint split_aux (cur : list ascii) (s : string) : list string :=
  match s with
  | EmptyString =>
      match cur with
      | [] => []
      | _ => [string_of_list_ascii (rev cur)]
      end
  | String c t =>
      if isspace c then
        match cur with
        | [] => split_aux [] t
        | _ => string_of_list_ascii (rev cur) :: split_aux [] t
        end
      else split_aux (c :: cur) t
  end.

Definition split (s : string) : list string := split_aux [] s.

(** [sep.join(parts)] *)
Fixpoint join (sep : string) (parts : list string) : string :=
  match parts with
  | [] => EmptyString
  | [p] => p
  | p :: ps => p ++ sep ++ join sep ps
  end.

(** Truthiness of a [str]. *)
Definition truthy (s : string) : bool :=
  match s with EmptyString => false | _ => true end.

End PyStr.

(** ** Regular expressions of the [re] module, as far as the source uses them *)

Module Regex.

Inductive regex : Type :=
| Void : regex
| Eps : regex
| Atom : (ascii -> bool) -> regex
| Cat : regex -> regex -> regex
| Alt : regex -> regex -> regex
| Star : regex -> regex.

Fixpoint nullable (r : regex) : bool :=
  match r with
  | Void => false
  | Eps => true
  | Atom _ => false
  | Cat a b => nullable a && nullable b
  | Alt a b => nullable a || nullable b
  | Star _ => true
  end.

Fixpoint deriv (c : ascii) (r : regex) : regex :=
  match r with
  | Void => Void
  | Eps => Void
  | Atom p => if p c then Eps else Void
  | Cat a b =>
      if nullable a then Alt (Cat (deriv c a) b) (deriv c b)
      else Cat (deriv c a) b
  | Alt a b => Alt (deriv c a) (deriv c b)
  | Star a => Cat (deriv c a) (Star a)
  end.

(** The whole of [s] matches [r]. *)
Fixpoint matches (r : regex) (s : string) : bool :=
  match s with
  | EmptyString => nullable r
  | String c t => matches (deriv c r) t
  end.

(** The words of a regular expression. *)
Inductive lang : regex -> string -> Prop :=
| lang_eps : lang Eps ""
| lang_atom : forall p c, p c = true -> lang (Atom p) (String c "")
| lang_cat : forall a b u v, lang a u -> lang b v -> lang (Cat a b) (u ++ v)
| lang_alt_l : forall a b u, lang a u -> lang (Alt a b) u
| lang_alt_r : forall a b u, lang b u -> lang (Alt a b) u
| lang_star_nil : forall a, lang (Star a) ""
| lang_star_app : forall a u v,
    lang a u -> lang (Star a) v -> lang (Star a) (u ++ v).

(** A pattern character; under [re.IGNORECASE] it matches both cases. *)
Definition chr (ignorecase : bool) (c : ascii) : regex :=
  Atom (fun x =>
          if ignorecase
          then Ascii.eqb (PyStr.lower_char x) (PyStr.lower_char c)
          else Ascii.eqb x c).

(** A literal word of the pattern. *)
Fixpoint lit (ignorecase : bool) (w : string) : regex :=
  match w with
  | EmptyString => Eps
  | String c t => Cat (chr ignorecase c) (lit ignorecase t)
  end.

(** [(w1|w2|...)] *)
Fixpoint alts (ignorecase : bool) (ws : list string) : regex :=
  match ws with
  | [] => Void
  | w :: rest => Alt (lit ignorecase w) (alts ignorecase rest)
  end.

(** [r?] *)
Definition opt (r : regex) : regex := Alt r Eps.

(** [$] without [re.MULTILINE]: the end of the string, or the position
    just before a newline that ends the string. *)
Definition at_dollar (rest : string) : bool :=
  match rest with
  | EmptyString => true
  | String c EmptyString => Ascii.eqb c PyStr.nl
  | _ => false
  end.

(** Some prefix of [s] matches [r] and is followed by [$]. *)
Fixpoint match_dollar (r : regex) (s : string) : bool :=
  (nullable r && at_dollar s)
  || match s with
     | EmptyString => false
     | String c t => match_dollar (deriv c r) t
     end.

(** [re.search(r + '$', s)] is not [None]. *)
Fixpoint search_dollar (r : regex) (s : string) : bool :=
  match_dollar r s
  || match s with
     | EmptyString => false
     | String _ t => search_dollar r t
     end.

(** The remainder of [s] after its longest prefix that matches [r]. *)
Fixpoint longest_match (r : regex) (s : string) : option string :=
  match s with
  | EmptyString => if nullable r then Some EmptyString else None
  | String c t =>
      match longest_match (deriv c r) t with
      | Some rest => Some rest
      | None => if nullable r then Some s else None
      end
  end.

(** [re.sub(r, repl, s)] for a pattern [r] that does not match the empty
    string and whose first match at a position is its longest one (a
    greedy star followed by a fixed character): scanning from the left,
    every match is replaced and the scan resumes after it. *)
Fixpoint sub_fuel (fuel : nat) (r : regex) (repl s : string) : string :=
  match fuel with
  | O => s
  | S fuel' =>
      match s with
      | EmptyString => EmptyString
      | String c t =>
          match longest_match r s with
          | Some rest =>
              if (String.length rest <? String.length s)%nat
              then repl ++ sub_fuel fuel' r repl rest
              else String c (sub_fuel fuel' r repl t)
          | None => String c (sub_fuel fuel' r repl t)
          end
      end
  end.

Definition sub (r : regex) (repl s : string) : string :=
  sub_fuel (String.length s) r repl s.

End Regex.

(** ** 4.1 URL classifier *)

(** [r'\.(jpg|jpeg|png|gif|svg|webp|mp4|mp3|pdf|zip|exe|js|css|xml)$'] *)
Definition blocked_extensions : list string :=
  ["jpg"; "jpeg"; "png"; "gif"; "svg"; "webp"; "mp4"; "mp3"; "pdf"; "zip";
   "exe"; "js"; "css"; "xml"].

Definition extension_re : Regex.regex :=
  Regex.Cat (Regex.chr true ".") (Regex.alts true blocked_extensions).

(** [r'/(login|logout|signin|signout|register|cart|checkout|api)/?$'] *)
Definition blocked_segments : list string :=
  ["login"; "logout"; "signin"; "signout"; "register"; "cart"; "checkout";
   "api"].

Definition segment_re : Regex.regex :=
  Regex.Cat (Regex.chr true "/")
    (Regex.Cat (Regex.alts true blocked_segments)
               (Regex.opt (Regex.chr true "/"))).

Definition is_valid_content_url (url : string) : bool :=
  if Regex.search_dollar extension_re url then false
  else if Regex.search_dollar segment_re url then false
  else true.

(** [contains_text_in_url] *)
Definition text_indicators : list string :=
  ["article"; "blog"; "post"; "news"; "story"; "content";
   "text"; "page"; "read"; "view"; "doc"; "document";
   "info"; "about"; "faq"; "help"; "guide"; "tutorial";
   "wiki"; "knowledge"; "learn"; "support"].

Definition contains_text_in_url (url : string) : bool :=
  let url_lower := PyStr.lower url in
  existsb (fun indicator => PyStr.contains indicator url_lower) text_indicators.

(** ** External collaborators *)

(** A [p], [h2] ... [h6] element of the main-content region: its tag name and
    its [get_text()]. *)
Record ContentBlock : Type := mkBlock {
  blk_name : string;
  blk_text : string
}.

(** [soup.find('div', {'id': 'mw-content-text'})], as far as the code looks
    at it: the [href]s of its anchors, and its paragraph and heading
    elements once the [.thumb, .navbox, .infobox, table] subtrees are
    removed. *)
Record ContentDiv : Type := mkContentDiv {
  cd_anchors : list string;
  cd_blocks : list ContentBlock
}.

(** A parsed response, as far as the code looks at it. *)
Record Page : Type := mkPage {
  pg_anchors : list string;       (* href of soup.find_all('a', href=True) *)
  pg_base : option string;        (* href of soup.find('base', href=True) *)
  pg_content_div : option ContentDiv;
  pg_title : option string;       (* soup.find('title').get_text() *)
  pg_text : string                (* soup.get_text(separator=' ', strip=True)
                                     once script and style are removed *)
}.

(** What [requests.get], [raise_for_status] and the parsing and walking of
    the body come to: a page, a [requests.exceptions.RequestException], or
    another exception raised before anything is written to the store, each
    with its [str(e)]. *)
Inductive FetchResult : Type :=
| Fetched (pg : Page)
| RequestException (msg : string)
| OtherException (msg : string).

(** A value of the JSON request body. *)
Inductive JsonValue : Type :=
| JNull
| JBool (b : bool)
| JInt (z : Z)
| JFloat (integral_part : option Z)
| JString (s : string)
| JArray
| JObject.

Record Env : Type := mkEnv {
  (** [validators.url(url)]: its truthiness, [None] when it raises *)
  validators_url : string -> option bool;
  (** [urljoin(base, href)], [None] when it raises *)
  urljoin : string -> string -> option string;
  (** [list(set(l))] *)
  list_set : list string -> list string;
  (** the builtin [int(v)], [None] when it raises *)
  py_int : JsonValue -> option Z;
  (** the outcome of the [n]-th request of the process, sent to a URL *)
  http_get : nat -> string -> FetchResult
}.

(** ** 3. Data model *)

(** A document of [Links_to_scrap]. *)
Record LinkEntry : Type := mkLinkEntry {
  le_id : nat;
  le_link : string;
  le_is_crawled : bool;
  le_source_url : option string;
  le_depth : option Z;
  le_error : option string
}.

(** A document of [Processed_Links]. *)
Record ContentTask : Type := mkContentTask {
  ct_id : nat;
  ct_link : string;
  ct_is_processed : bool;
  ct_source_url : option string;
  ct_has_text_in_url : bool;
  ct_depth : option Z;
  ct_error : option string
}.

(** A document of [Content_Links]. *)
Record CrawlSnapshot : Type := mkCrawlSnapshot {
  cs_id : nat;
  cs_source_url : string;
  cs_uniqueLinks : list string;
  cs_depth : Z
}.

(** A document of [scrapped_text]. *)
Record ScrapedDocument : Type := mkScrapedDocument {
  sd_id : nat;
  sd_scrapped_content : option string;
  sd_content_link : string;
  sd_link_id : nat;
  sd_source_url : string;
  sd_depth : Z;
  sd_title : string
}.

(** The database [scrapper], the next [ObjectId] and the requests sent so
    far. *)
Record World : Type := mkWorld {
  Links_to_scrap : list LinkEntry;
  Processed_Links : list ContentTask;
  Content_Links : list CrawlSnapshot;
  scrapped_text : list ScrapedDocument;
  next_id : nat;
  requested : list string
}.

Definition empty_world : World := mkWorld [] [] [] [] 0 [].

(** *** Store operations *)

Definition insert_link (w : World) (link : string) (source_url : option string)
    (depth : Z) : World :=
  mkWorld
    (Links_to_scrap w
     ++ [mkLinkEntry (next_id w) link false source_url (Some depth) None])
    (Processed_Links w) (Content_Links w) (scrapped_text w)
    (S (next_id w)) (requested w).

Definition insert_task (w : World) (link : string) (source_url : option string)
    (has_text_in_url : bool) (depth : Z) : World :=
  mkWorld (Links_to_scrap w)
    (Processed_Links w
     ++ [mkContentTask (next_id w) link false source_url has_text_in_url
           (Some depth) None])
    (Content_Links w) (scrapped_text w) (S (next_id w)) (requested w).

Definition insert_snapshot (w : World) (source_url : string)
    (uniqueLinks : list string) (depth : Z) : World :=
  mkWorld (Links_to_scrap w) (Processed_Links w)
    (Content_Links w
     ++ [mkCrawlSnapshot (next_id w) source_url uniqueLinks depth])
    (scrapped_text w) (S (next_id w)) (requested w).

Definition insert_content (w : World) (content link : string) (link_id : nat)
    (source_url : string) (depth : Z) (title : string) : World :=
  mkWorld (Links_to_scrap w) (Processed_Links w) (Content_Links w)
    (scrapped_text w
     ++ [mkScrapedDocument (next_id w) (Some content) link link_id source_url
           depth title])
    (S (next_id w)) (requested w).

(** [update_one]: the first document the filter selects is changed. *)
Fixpoint update_one {A : Type} (filter : A -> bool) (set : A -> A)
    (coll : list A) : list A :=
  match coll with
  | [] => []
  | d :: rest =>
      if filter d then set d :: rest else d :: update_one filter set rest
  end.

Definition set_crawled (error : option string) (e : LinkEntry) : LinkEntry :=
  mkLinkEntry (le_id e) (le_link e) true (le_source_url e) (le_depth e)
    (match error with Some m => Some m | None => le_error e end).

Definition set_processed (error : option string) (t : ContentTask)
    : ContentTask :=
  mkContentTask (ct_id t) (ct_link t) true (ct_source_url t)
    (ct_has_text_in_url t) (ct_depth t)
    (match error with Some m => Some m | None => ct_error t end).

Definition update_link (w : World) (id : nat) (error : option string)
    : World :=
  mkWorld
    (update_one (fun e => Nat.eqb (le_id e) id) (set_crawled error)
       (Links_to_scrap w))
    (Processed_Links w) (Content_Links w) (scrapped_text w) (next_id w)
    (requested w).

Definition update_task (w : World) (id : nat) (error : option string)
    : World :=
  mkWorld (Links_to_scrap w)
    (update_one (fun t => Nat.eqb (ct_id t) id) (set_processed error)
       (Processed_Links w))
    (Content_Links w) (scrapped_text w) (next_id w) (requested w).

(** [requests.get(url, ...)]: the request is sent and logged. *)
Definition send_request (w : World) (url : string) : World :=
  mkWorld (Links_to_scrap w) (Processed_Links w) (Content_Links w)
    (scrapped_text w) (next_id w) (requested w ++ [url]).

Definition find_link (link : string) (w : World) : option LinkEntry :=
  find (fun e => String.eqb (le_link e) link) (Links_to_scrap w).

Definition find_task (link : string) (w : World) : option ContentTask :=
  find (fun t => String.eqb (ct_link t) link) (Processed_Links w).

(** The filter [{'is_crawled': {'$ne': True}}]. *)
Definition uncrawled (e : LinkEntry) : bool := negb (le_is_crawled e).

(** The filter [{'is_processed': False}]. *)
Definition unprocessed (t : ContentTask) : bool := negb (ct_is_processed t).

Definition count_documents {A : Type} (filter : A -> bool) (coll : list A)
    : nat :=
  List.length (List.filter filter coll).

(** ** 4.2 - 4.5 The operations *)

Definition NL : string := String PyStr.nl EmptyString.

(** [r'\n\s*\n'] *)
Definition blank_lines_re : Regex.regex :=
  Regex.Cat (Regex.chr false PyStr.nl)
    (Regex.Cat (Regex.Star (Regex.Atom PyStr.isspace))
               (Regex.chr false PyStr.nl)).

Definition is_wiki_url (link : string) : bool :=
  PyStr.contains "wikipedia.org" link
  || PyStr.contains "wiki" (PyStr.lower link).

(** The markers of the special pages that wiki mode skips. *)
Definition wiki_special_markers : list string :=
  ["/wiki/Special:"; "/wiki/Talk:"; "/wiki/Category:";
   "/wiki/Help:"; "/wiki/Portal:"; "/wiki/Wikipedia:";
   "/wiki/Template:"; "/wiki/File:"; "/wiki/MediaWiki:";
   "action=edit"; "oldid="; "diff="; "printable=yes"].

Definition skipped_href (href : string) : bool :=
  negb (PyStr.truthy href)
  || existsb (PyStr.startswith href) ["javascript:"; "mailto:"; "tel:"; "#"].

(** Responses of [/recursive-crawl]. *)
Record CrawlStats : Type := mkCrawlStats {
  links_to_crawl : nat;
  links_crawled : nat;
  links_to_scrape : nat;
  links_scraped : nat
}.

Inductive CrawlResponse : Type :=
| CrawlInvalidUrl (url : JsonValue)    (* 400, 'Invalid URL format: {url}' *)
| CrawlUrlRequired                     (* 400, 'URL is required ...' *)
| CrawlNoMoreLinks (current_depth : Z) (* 200, 'No more links to crawl ...' *)
| CrawlCompleted (process_depth : Z) (stats : CrawlStats)   (* 200 *)
| CrawlFailed.                         (* 500, the outer handler *)

Definition crawl_status (r : CrawlResponse) : string * nat :=
  match r with
  | CrawlInvalidUrl _ => ("error", 400)
  | CrawlUrlRequired => ("error", 400)
  | CrawlNoMoreLinks _ => ("info", 200)
  | CrawlCompleted _ _ => ("success", 200)
  | CrawlFailed => ("error", 500)
  end.

(** What [request.get_json()] returns for the body of a request that it
    can parse: [None], a [bool], an [int], a [float], a [str], a [list]
    or a [dict].  A [dict] is the list of its items. *)
Inductive JsonBody : Type :=
| BodyNull
| BodyBool (b : bool)
| BodyInt (z : Z)
| BodyFloat (is_zero : bool)
| BodyString (s : string)
| BodyArray (items : list JsonValue)
| BodyObject (items : list (string * JsonValue)).

(** Truthiness of the body, as [if data] tests it. *)
Definition py_truthy (data : JsonBody) : bool :=
  match data with
  | BodyNull => false
  | BodyBool b => b
  | BodyInt z => negb (Z.eqb z 0)
  | BodyFloat is_zero => negb is_zero
  | BodyString s => PyStr.truthy s
  | BodyArray items => match items with [] => false | _ => true end
  | BodyObject items => match items with [] => false | _ => true end
  end.

(** The value of a key of a [dict]. *)
Definition dict_get (key : string) (items : list (string * JsonValue))
    : option JsonValue :=
  match find (fun item => String.eqb (fst item) key) items with
  | Some item => Some (snd item)
  | None => None
  end.

(** [key in data] for a [str] key: a key of a [dict], an item of a [list],
    a substring of a [str]; [None] when it raises [TypeError]. *)
Definition py_contains (key : string) (data : JsonBody) : option bool :=
  match data with
  | BodyObject items =>
      Some (match dict_get key items with Some _ => true | None => false end)
  | BodyArray items =>
      Some (existsb (fun v => match v with
                              | JString s => String.eqb s key
                              | _ => false
                              end) items)
  | BodyString s => Some (PyStr.contains key s)
  | BodyNull | BodyBool _ | BodyInt _ | BodyFloat _ => None
  end.

(** [data[key]] for a [str] key; [None] when it raises. *)
Definition py_getitem (key : string) (data : JsonBody) : option JsonValue :=
  match data with
  | BodyObject items => dict_get key items
  | _ => None
  end.

(** Responses of [/process-all-links]. *)
Inductive Detail : Type :=
| DetailSuccess (link : string) (content_length : nat) (title : string)
    (content_id : nat)
| DetailError (link : string) (error : string).

Record Results : Type := mkResults {
  total_unprocessed : nat;
  processed : nat;
  success : nat;
  failed : nat;
  details : list Detail
}.

Inductive ProcessMessage : Type :=
| NoUnprocessedLinksFound
| ProcessedLinks (n_processed n_success n_failed : nat).

Record ProcessResponse : Type := mkProcessResponse {
  pr_status : string;
  pr_message : ProcessMessage;
  pr_results : option Results
}.

(** The result of [scrape_single_link]. *)
Inductive ScrapeResult : Type :=
| ScrapeSuccess (link : string) (content_length : nat) (title : string)
    (content_id : nat)
| ScrapeError (link : string) (error : string).

(** The [data] of the response of [/realtime-stats]. *)
Record RealtimeStats : Type := mkRealtimeStats {
  Links : list string;
  Total_Number_of_Links : nat;
  Scrapped_Links : nat;
  Pending_Links : nat;
  Total_Words_Scrapped : nat
}.

Section Operations.

Variable E : Env.

Definition is_valid_url (url : string) : bool :=
  match validators_url E url with
  | Some ok => ok
  | None => false
  end.

(** *** Link extraction (the body of the anchor loop of [recursive_crawl]) *)

(** What one anchor adds to [valid_urls]. *)
Definition anchor_urls (is_wiki : bool) (base_url raw_href : string)
    : list string :=
  let href := PyStr.strip raw_href in
  if skipped_href href then []
  else
    match urljoin E base_url href with
    | None => []
    | Some full_url =>
        if is_wiki then
          if PyStr.contains "wikipedia.org/wiki/" full_url then
            if existsb (fun special => PyStr.contains special full_url)
                 wiki_special_markers
            then []
            else [full_url]
          else []
        else
          if negb (is_valid_url full_url)
             || negb (is_valid_content_url full_url)
          then []
          else [full_url]
    end.

Definition valid_urls_of (is_wiki : bool) (url_to_crawl : string)
    (pg : Page) : list string :=
  let base_url :=
    match pg_base pg with
    | Some href => href
    | None => url_to_crawl
    end in
  let all_links :=
    if is_wiki then
      match pg_content_div pg with
      | Some content_div => cd_anchors content_div
      | None => pg_anchors pg
      end
    else pg_anchors pg in
  flat_map (anchor_urls is_wiki base_url) all_links.

Definition unique_links_of (is_wiki : bool) (url_to_crawl : string)
    (pg : Page) : list string :=
  list_set E (valid_urls_of is_wiki url_to_crawl pg).

(** *** Content extraction (the [try] body of [scrape_single_link]) *)

Definition title_text_of (pg : Page) : string :=
  match pg_title pg with
  | Some t => PyStr.strip t
  | None => "Unknown Title"
  end.

Definition wiki_text_parts (content_div : ContentDiv) : list string :=
  flat_map
    (fun p =>
       let text := PyStr.strip (blk_text p) in
       if PyStr.truthy text then
         if PyStr.startswith (blk_name p) "h"
         then [NL ++ "## " ++ text ++ NL]
         else [text]
       else [])
    (cd_blocks content_div).

Definition extract_text (is_wiki : bool) (pg : Page) : string :=
  let title_text := title_text_of pg in
  let text :=
    if is_wiki then
      match pg_content_div pg with
      | Some content_div =>
          "# " ++ title_text ++ NL ++ NL
          ++ PyStr.join (NL ++ NL) (wiki_text_parts content_div)
      | None => pg_text pg
      end
    else "# " ++ title_text ++ NL ++ NL ++ pg_text pg in
  Regex.sub blank_lines_re (NL ++ NL) text.

(** *** The crawl engine *)

(** The body of [for link in unique_links]. *)
Definition add_discovered (is_wiki : bool) (url_to_crawl : string)
    (current_depth : Z) (w : World) (link : string) : World :=
  let should_process := is_wiki || contains_text_in_url link in
  let w1 :=
    match find_link link w with
    | None => insert_link w link (Some url_to_crawl) (current_depth + 1)
    | Some _ => w
    end in
  if should_process then
    match find_task link w1 with
    | None =>
        insert_task w1 link (Some url_to_crawl)
          (if is_wiki then true else contains_text_in_url link)
          (current_depth + 1)
    | Some _ => w1
    end
  else w1.

(** The [try] body of one iteration, once the page is there. *)
Definition crawl_page (link_doc : LinkEntry) (pg : Page) (w : World)
    : World :=
  let url_to_crawl := le_link link_doc in
  let current_depth :=
    match le_depth link_doc with Some d => d | None => 0%Z end in
  let is_wiki := is_wiki_url url_to_crawl in
  let unique_links := unique_links_of is_wiki url_to_crawl pg in
  let w1 := insert_snapshot w url_to_crawl unique_links current_depth in
  let w2 :=
    fold_left (add_discovered is_wiki url_to_crawl current_depth)
      unique_links w1 in
  let w3 := update_link w2 (le_id link_doc) None in
  match find_task url_to_crawl w3 with
  | None =>
      insert_task w3 url_to_crawl
        (if Z.eqb current_depth 0 then Some "seed_url"
         else match le_source_url link_doc with
              | Some s => Some s
              | None => Some "unknown"
              end)
        (if is_wiki then true else contains_text_in_url url_to_crawl)
        current_depth
  | Some _ => w3
  end.

(** The candidate of an iteration: the first document of the query, else
    the first uncrawled one. *)
Definition select_candidate (url : option string) (current_depth : nat)
    (w : World) : option LinkEntry :=
  let by_url :=
    match url with
    | Some u => PyStr.truthy u && Nat.eqb current_depth 0
    | None => false
    end in
  let query (e : LinkEntry) : bool :=
    uncrawled e
    && (if by_url then
          match url with
          | Some u => String.eqb (le_link e) u
          | None => false
          end
        else
          match le_depth e with
          | Some d => Z.eqb d (Z.of_nat current_depth)
          | None => false
          end) in
  match find query (Links_to_scrap w) with
  | Some link_doc => Some link_doc
  | None => find uncrawled (Links_to_scrap w)
  end.

(** One iteration of [for current_depth in range(process_depth)]; the
    second component is the response of an early [return]. *)
Definition crawl_step (url : option string) (current_depth : nat)
    (w : World) : World * option CrawlResponse :=
  match select_candidate url current_depth w with
  | None => (w, Some (CrawlNoMoreLinks (Z.of_nat current_depth)))
  | Some link_doc =>
      let url_to_crawl := le_link link_doc in
      let w0 := send_request w url_to_crawl in
      match http_get E (List.length (requested w)) url_to_crawl with
      | Fetched pg => (crawl_page link_doc pg w0, None)
      | RequestException msg =>
          (update_link w0 (le_id link_doc)
             (Some ("Request error: " ++ msg)), None)
      | OtherException msg =>
          (update_link w0 (le_id link_doc) (Some ("Error: " ++ msg)), None)
      end
  end.

Fixpoint crawl_loop (url : option string) (depths : list nat) (w : World)
    : World * option CrawlResponse :=
  match depths with
  | [] => (w, None)
  | current_depth :: rest =>
      match crawl_step url current_depth w with
      | (w1, Some response) => (w1, Some response)
      | (w1, None) => crawl_loop url rest w1
      end
  end.

Definition crawl_stats (w : World) : CrawlStats :=
  mkCrawlStats
    (count_documents uncrawled (Links_to_scrap w))
    (count_documents le_is_crawled (Links_to_scrap w))
    (count_documents unprocessed (Processed_Links w))
    (count_documents ct_is_processed (Processed_Links w)).

(** The loop and what follows it.  [processed_collection] is bound in the
    loop body only: when the loop runs no iteration, reading it for the
    statistics raises and the outer handler answers 500. *)
Definition crawl_from (url : option string) (process_depth : Z)
    (w : World) : CrawlResponse * World :=
  let n := Z.to_nat process_depth in
  match crawl_loop url (seq 0 n) w with
  | (w1, Some response) => (response, w1)
  | (w1, None) =>
      match n with
      | O => (CrawlFailed, w1)
      | S _ => (CrawlCompleted process_depth (crawl_stats w1), w1)
      end
  end.

(** [is_valid_url] on the value of the key [url]: on a value that is not a
    [str], [validators.url] raises or fails, and both come out falsy. *)
Definition is_valid_url_value (url : JsonValue) : bool :=
  match url with
  | JString link => is_valid_url link
  | _ => false
  end.

(** The route, for a request whose body [request.get_json()] parses to
    [data].  A [TypeError] of [data and 'url' in data] or of [data['url']]
    reaches the outer handler, which answers 500. *)
Definition recursive_crawl (data : JsonBody) (w : World)
    : CrawlResponse * World :=
  let is_collection_empty :=
    Nat.eqb (count_documents (fun _ => true) (Links_to_scrap w)) 0 in
  if is_collection_empty then
    match (if py_truthy data then py_contains "url" data else Some false) with
    | None => (CrawlFailed, w)
    | Some true =>
        match py_getitem "url" data with
        | None => (CrawlFailed, w)
        | Some url =>
            let process_depth :=
              match py_getitem "depth" data with
              | Some v =>
                  match py_int E v with
                  | Some n => n
                  | None => 1%Z
                  end
              | None => 1%Z
              end in
            if negb (is_valid_url_value url) then (CrawlInvalidUrl url, w)
            else
              match url with
              | JString link =>
                  crawl_from (Some link) process_depth
                    (insert_link w link None 0)
              | _ => (CrawlInvalidUrl url, w)
              end
        end
    | Some false => (CrawlUrlRequired, w)
    end
  else crawl_from None 1 w.

(** *** Bulk content processing *)

Definition scrape_single_link (link_doc : ContentTask) (w : World)
    : ScrapeResult * World :=
  let link := ct_link link_doc in
  let is_wiki := is_wiki_url link in
  let w0 := send_request w link in
  match http_get E (List.length (requested w)) link with
  | Fetched pg =>
      let title_text := title_text_of pg in
      let text := extract_text is_wiki pg in
      let content_id := next_id w0 in
      let w1 :=
        insert_content w0 text link (ct_id link_doc)
          (match ct_source_url link_doc with
           | Some s => s
           | None => "unknown"
           end)
          (match ct_depth link_doc with Some d => d | None => 0%Z end)
          title_text in
      let w2 := update_task w1 (ct_id link_doc) None in
      (ScrapeSuccess link (String.length text) title_text content_id, w2)
  | RequestException msg =>
      let error_msg := "Request error: " ++ msg in
      (ScrapeError link error_msg,
       update_task w0 (ct_id link_doc) (Some error_msg))
  | OtherException msg =>
      let error_msg := "Processing error: " ++ msg in
      (ScrapeError link error_msg,
       update_task w0 (ct_id link_doc) (Some error_msg))
  end.

(** The body of [for link_doc in unprocessed_links].  [scrape_single_link]
    handles every exception of its own [try] body, so the handler around
    the call is left to a failing store. *)
Definition process_link (acc : Results * World) (link_doc : ContentTask)
    : Results * World :=
  let (results, w) := acc in
  let (result, w') := scrape_single_link link_doc w in
  match result with
  | ScrapeSuccess link content_length title content_id =>
      (mkResults (total_unprocessed results) (S (processed results))
         (S (success results)) (failed results)
         (details results
          ++ [DetailSuccess link content_length title content_id]),
       w')
  | ScrapeError link error =>
      (mkResults (total_unprocessed results) (S (processed results))
         (success results) (S (failed results))
         (details results ++ [DetailError link error]),
       w')
  end.

Definition process_all_links (w : World) : ProcessResponse * World :=
  let unprocessed_count := count_documents unprocessed (Processed_Links w) in
  if Nat.eqb unprocessed_count 0 then
    (mkProcessResponse "complete" NoUnprocessedLinksFound None, w)
  else
    let unprocessed_links := List.filter unprocessed (Processed_Links w) in
    let (results, w') :=
      fold_left process_link unprocessed_links
        (mkResults unprocessed_count 0 0 0 [], w) in
    (mkProcessResponse "complete"
       (ProcessedLinks (processed results) (success results)
          (failed results))
       (Some results),
     w').

(** *** Stats *)

Definition realtime_stats (w : World) : RealtimeStats * World :=
  let all_links := map le_link (Links_to_scrap w) in
  let total_number_of_links :=
    count_documents (fun _ => true) (Processed_Links w) in
  let scrapped_links_count :=
    count_documents (fun _ => true) (scrapped_text w) in
  let pending_links := count_documents unprocessed (Processed_Links w) in
  let total_words_scrapped :=
    fold_left
      (fun total doc =>
         match sd_scrapped_content doc with
         | Some content => total + List.length (PyStr.split content)
         | None => total
         end)
      (scrapped_text w) 0 in
  (mkRealtimeStats all_links total_number_of_links scrapped_links_count
     pending_links total_words_scrapped,
   w).

End Operations.

(** ** Notions used to state the properties *)

(** The tokens of a text, as the specification counts them: a token starts
    at every character that is not whitespace and does not continue one. *)
Fixpoint token_starts (in_token : bool) (s : string) : nat :=
  match s with
  | EmptyString => 0
  | String c t =>
      if PyStr.isspace c then token_starts false t
      else (if in_token then 0 else 1) + token_starts true t
  end.

Definition whitespace_delimited_tokens (s : string) : nat :=
  token_starts false s.

Definition document_words (doc : ScrapedDocument) : nat :=
  match sd_scrapped_content doc with
  | Some content => whitespace_delimited_tokens content
  | None => 0
  end.

(** The path of a URL in the sense of RFC 3986, and the reading of
    [isLikelyTextContent] that looks at the path only. *)
Module UrlPath.

Definition is_authority_end (c : ascii) : bool :=
  Ascii.eqb c "/" || Ascii.eqb c "?" || Ascii.eqb c "#".

Definition is_path_end (c : ascii) : bool :=
  Ascii.eqb c "?" || Ascii.eqb c "#".

Fixpoint take_until (stop : ascii -> bool) (s : string) : string :=
  match s with
  | EmptyString => EmptyString
  | String c t => if stop c then EmptyString else String c (take_until stop t)
  end.

Fixpoint drop_until (stop : ascii -> bool) (s : string) : string :=
  match s with
  | EmptyString => EmptyString
  | String c t => if stop c then s else drop_until stop t
  end.

(** What follows the first [://], when there is one. *)
Fixpoint after_scheme (s : string) : option string :=
  match s with
  | EmptyString => None
  | String c t =>
      match s with
      | String ":" (String "/" (String "/" rest)) => Some rest
      | _ => after_scheme t
      end
  end.

Definition url_path (url : string) : string :=
  match after_scheme url with
  | Some rest => take_until is_path_end (drop_until is_authority_end rest)
  | None => take_until is_path_end url
  end.

Fixpoint ends_with (suffix s : string) : bool :=
  String.eqb s suffix
  || match s with
     | EmptyString => false
     | String _ t => ends_with suffix t
     end.

(** The text after the last [/] of a path. *)
Fixpoint terminal_component (path : string) : string :=
  match path with
  | EmptyString => EmptyString
  | String c t =>
      if PyStr.contains "/" t then terminal_component t
      else if Ascii.eqb c "/" then t else path
  end.

(** [isLikelyTextContent] as the specification words it: false when the
    path ends in a blocked extension or its terminal component is a
    blocked segment, true otherwise. *)
Definition likely_text_by_path (url : string) : bool :=
  let path := url_path url in
  negb (existsb (fun e => ends_with ("." ++ e) path) blocked_extensions
        || existsb (String.eqb (terminal_component path)) blocked_segments).

End UrlPath.

(** The URL ends, up to case and up to one final newline, in a dot and a
    blocked extension, or in a slash, a blocked segment and at most one
    more slash. *)
Definition blocked_ending (url : string) : Prop :=
  exists pre body tail,
    url = pre ++ body ++ tail /\
    (tail = "" \/ tail = NL) /\
    ((exists e, In e blocked_extensions /\ PyStr.lower body = "." ++ e)
     \/ (exists g, In g blocked_segments /\
                   (PyStr.lower body = "/" ++ g
                    \/ PyStr.lower body = "/" ++ g ++ "/"))).

(** Store invariants. *)
Definition unique_link_entries (w : World) : Prop :=
  NoDup (map le_link (Links_to_scrap w)).

Definition unique_content_tasks (w : World) : Prop :=
  NoDup (map ct_link (Processed_Links w)).

Definition unique_task_ids (w : World) : Prop :=
  NoDup (map ct_id (Processed_Links w)).

(** The identifiers of the content tasks are distinct and were all handed
    out already: what [insert_one] guarantees for [_id]. *)
Definition task_ids_fresh (w : World) : Prop :=
  NoDup (map ct_id (Processed_Links w)) /\
  Forall (fun id => id < next_id w) (map ct_id (Processed_Links w)).

Definition depths_not_negative (w : World) : Prop :=
  Forall (fun e => match le_depth e with
                   | Some d => (0 <= d)%Z
                   | None => True
                   end) (Links_to_scrap w).

(** The stored depth of a frontier entry, as [link_doc.get('depth', 0)]
    reads it. *)
Definition stored_depth (e : LinkEntry) : Z :=
  match le_depth e with Some d => d | None => 0%Z end.

(** A frontier entry of [w'] that [w] did not have yet, for [url] at depth
    0. *)
Definition inserted_at_depth_0 (url : string) (w w' : World) : Prop :=
  exists i e,
    List.length (Links_to_scrap w) <= i /\
    nth_error (Links_to_scrap w') i = Some e /\
    le_link e = url /\ le_depth e = Some 0%Z.

(** The documents that an operation leaves as they are but for the flags
    it sets: same identifier, URL, source and depth. *)
Definition same_link_entry (e e' : LinkEntry) : Prop :=
  le_id e' = le_id e /\ le_link e' = le_link e /\
  le_source_url e' = le_source_url e /\ le_depth e' = le_depth e.

(** The outcome of the request that [scrape_single_link] sends for [t]
    when [n] requests were sent before. *)
Definition request_outcome (E : Env) (n : nat) (t : ContentTask)
    : FetchResult :=
  http_get E n (ct_link t).

(** The error that [scrape_single_link] records for an outcome. *)
Definition recorded_error (r : FetchResult) : option string :=
  match r with
  | Fetched _ => None
  | RequestException msg => Some ("Request error: " ++ msg)
  | OtherException msg => Some ("Processing error: " ++ msg)
  end.

(** [list(set(l))] has the elements of [l], each once. *)
Definition list_set_ok (E : Env) : Prop :=
  forall l, NoDup (list_set E l) /\ forall x, In x (list_set E l) <-> In x l.

(** ** A small web, to run the operations on *)

Module Sample.

Definition page_a : Page :=
  mkPage ["#top"; "javascript:void(0)"; "/blog/a"; "/files/report.pdf";
          " /login "]
         None None (Some " A test ") "hello world".

Definition page_blog : Page :=
  mkPage ["/blog/a"; "https://a.test/news/today"] None None
         (Some "Blog") "a b".

Definition page_wiki : Page :=
  mkPage ["/"]
         None
         (Some (mkContentDiv
                  ["/wiki/Coq"; "/wiki/Special:Random";
                   "/w/index.php?title=Rocq&action=edit";
                   "https://example.org/wiki/Rocq"]
                  [mkBlock "h2" " History "; mkBlock "p" "Rocq is a prover.";
                   mkBlock "p" "  "]))
         (Some "Rocq - Wikipedia") "Rocq is a prover. Navigation".

Definition page_plain_wiki : Page :=
  mkPage [] None None (Some "Plain") "body text".

Definition validators_url (url : string) : option bool :=
  Some (PyStr.startswith url "http://" || PyStr.startswith url "https://").

(** The origin [scheme://host] of an absolute URL. *)
Definition origin (url : string) : string :=
  match UrlPath.after_scheme url with
  | Some rest =>
      let host := UrlPath.take_until UrlPath.is_authority_end rest in
      String.substring 0
        (String.length url - String.length rest + String.length host) url
  | None => url
  end.

(** Agrees with [urljoin] on absolute and on root-relative references,
    the ones the sample pages use. *)
Definition urljoin (base href : string) : option string :=
  if PyStr.startswith href "http://" || PyStr.startswith href "https://"
  then Some href
  else Some (origin base ++ href).

Definition list_set (l : list string) : list string := nodup string_dec l.

Definition py_int (v : JsonValue) : option Z :=
  match v with
  | JInt z => Some z
  | JBool b => Some (if b then 1 else 0)%Z
  | JFloat t => t
  | _ => None
  end.

Definition http_get (n : nat) (url : string) : FetchResult :=
  if String.eqb url "https://a.test" then Fetched page_a
  else if String.eqb url "https://a.test/blog/a" then Fetched page_blog
  else if String.eqb url "https://en.wikipedia.org/wiki/Rocq"
  then Fetched page_wiki
  else if String.eqb url "https://wiki.test/plain"
  then Fetched page_plain_wiki
  else if String.eqb url "https://a.test/broken"
  then OtherException "unexpected markup"
  else RequestException "404 Client Error".

Definition env : Env := mkEnv validators_url urljoin list_set py_int http_get.

(** A frontier and a content queue with one entry to crawl and two tasks
    to process. *)
Definition world_1 : World :=
  mkWorld
    [mkLinkEntry 0 "https://a.test" true None (Some 0%Z) None;
     mkLinkEntry 1 "https://a.test/blog/a" false (Some "https://a.test")
       (Some 1%Z) None]
    [mkContentTask 2 "https://a.test/blog/a" false (Some "https://a.test")
       true (Some 1%Z) None;
     mkContentTask 3 "https://a.test/gone" false (Some "https://a.test")
       false (Some 1%Z) None;
     mkContentTask 4 "https://a.test" true (Some "seed_url") false
       (Some 0%Z) None]
    [mkCrawlSnapshot 5 "https://a.test" ["https://a.test/blog/a"] 0]
    [mkScrapedDocument 6 (Some "# A test" ) "https://a.test" 4 "seed_url" 0
       "A test"]
    7
    ["https://a.test"; "https://a.test"].

(** The same store once its pending tasks are processed. *)
Definition world_2 : World :=
  Eval vm_compute in snd (process_all_links env world_1).

(** A store with the three scraped documents of the stats example. *)
Definition world_3 : World :=
  mkWorld [] [] []
    [mkScrapedDocument 0 (Some "a b") "https://a.test/1" 0 "unknown" 0 "1";
     mkScrapedDocument 1 (Some "c") "https://a.test/2" 1 "unknown" 0 "2";
     mkScrapedDocument 2 (Some "d e f") "https://a.test/3" 2 "unknown" 0
       "3"]
    3 [].

End Sample.

(** The effect on the store of the iteration that crawls [link_doc]: the
    frontier keeps its documents and gains [new_links], the content queue
    gains [new_tasks] for discovered links and at most one task for the
    crawled URL itself. *)
Definition crawl_effect (E : Env) (link_doc : LinkEntry) (w w' : World)
    : Prop :=
  let d := stored_depth link_doc in
  let u := le_link link_doc in
  exists old new_links new_tasks own_task,
    Links_to_scrap w' = (old ++ new_links)%list /\
    Forall2 same_link_entry (Links_to_scrap w) old /\
    Processed_Links w' = (Processed_Links w ++ new_tasks ++ own_task)%list /\
    Forall (fun e => le_depth e = Some (d + 1)%Z /\
                     le_source_url e = Some u) new_links /\
    Forall (fun t => ct_depth t = Some (d + 1)%Z /\
                     ct_source_url t = Some u) new_tasks /\
    Forall (fun t => ct_link t = u /\ ct_depth t = Some d) own_task /\
    List.length own_task <= 1 /\
    match http_get E (List.length (requested w)) u with
    | Fetched pg =>
        let ls := unique_links_of E (is_wiki_url u) u pg in
        Forall (fun e => In (le_link e) ls) new_links /\
        Forall (fun t => In (ct_link t) ls) new_tasks
    | _ => new_links = [] /\ new_tasks = [] /\ own_task = []
    end.

(** The frontier of [w'] starts with the documents of the frontier of [w],
    up to the flags that crawling sets. *)
Definition frontier_kept (w w' : World) : Prop :=
  exists old new_links,
    Links_to_scrap w' = (old ++ new_links)%list /\
    Forall2 same_link_entry (Links_to_scrap w) old.

(** What the loop over the discovered links does to the store: documents are
    appended to the frontier and to the content queue, all of them one level
    below the crawled entry, and nothing else changes. *)
Definition discovers (url_to_crawl : string) (d : Z) (ls : list string)
    (w w' : World) : Prop :=
  (exists new_links,
      Links_to_scrap w' = (Links_to_scrap w ++ new_links)%list /\
      Forall (fun e => le_depth e = Some (d + 1)%Z /\
                       le_source_url e = Some url_to_crawl /\
                       In (le_link e) ls) new_links) /\
  (exists new_tasks,
      Processed_Links w' = (Processed_Links w ++ new_tasks)%list /\
      Forall (fun t => ct_depth t = Some (d + 1)%Z /\
                       ct_source_url t = Some url_to_crawl /\
                       In (ct_link t) ls) new_tasks) /\
  scrapped_text w' = scrapped_text w /\
  requested w' = requested w /\
  (unique_link_entries w -> unique_link_entries w') /\
  (unique_content_tasks w -> unique_content_tasks w').

(** What every iteration of the crawl loop preserves. *)
Definition step_preserves (w w' : World) : Prop :=
  frontier_kept w w' /\
  (unique_link_entries w -> unique_link_entries w') /\
  (unique_content_tasks w -> unique_content_tasks w') /\
  scrapped_text w' = scrapped_text w.

(** The frontier starts with an entry for [url] at depth 0 that has no
    source: the seed. *)
Definition seed_at_depth_0 (url : string) (w : World) : Prop :=
  exists e rest,
    Links_to_scrap w = e :: rest /\
    le_link e = url /\ le_depth e = Some 0%Z /\ le_source_url e = None.

(** How [recursive_crawl] reads the body when the frontier is empty: no
    URL (400), a [TypeError] (500), a URL that fails validation (400), or a
    seed and a depth budget. *)
Inductive SeedReading : Type :=
| SeedMissing
| SeedRaises
| SeedRejected (url : JsonValue)
| SeedAccepted (link : string) (process_depth : Z).

(** The depth budget that the body asks for: the integer of the key
    [depth], 1 when the key is missing or [int] rejects its value. *)
Definition depth_budget (E : Env) (data : JsonBody) : Z :=
  match py_getitem "depth" data with
  | Some v =>
      match py_int E v with
      | Some n => n
      | None => 1%Z
      end
  | None => 1%Z
  end.

Definition read_seed (E : Env) (data : JsonBody) : SeedReading :=
  match (if py_truthy data then py_contains "url" data else Some false) with
  | None => SeedRaises
  | Some false => SeedMissing
  | Some true =>
      match py_getitem "url" data with
      | None => SeedRaises
      | Some (JString link) =>
          if is_valid_url E link then SeedAccepted link (depth_budget E data)
          else SeedRejected (JString link)
      | Some url => SeedRejected url
      end
  end.

(** ** The helpers outside the routes *)

(** The result of [extract_urls_from_page]: the keys [url], [links_found]
    and [links] of a success, [url] and [error] of an error. *)
Inductive ExtractResult : Type :=
| ExtractSuccess (url : string) (links_found : nat) (links : list string)
| ExtractError (url : string) (error : string).

(** The result of [scrape_link]. *)
Inductive ScrapeLinkResult : Type :=
| ScrapeLinkSuccess (content : string)
| ScrapeLinkError (error : string).

(** What one anchor adds to [valid_urls] in [extract_urls_from_page]. *)
Definition page_anchor_urls (E : Env) (base_url raw_href : string)
    : list string :=
  let href := PyStr.strip raw_href in
  if skipped_href href then []
  else
    match urljoin E base_url href with
    | None => []
    | Some full_url =>
        if negb (is_valid_url E full_url)
           || negb (is_valid_content_url full_url)
        then []
        else [full_url]
    end.

Definition extract_urls_from_page (E : Env) (url : string) (w : World)
    : ExtractResult * World :=
  let w0 := send_request w url in
  match http_get E (List.length (requested w)) url with
  | Fetched pg =>
      let all_links := pg_anchors pg in
      let base_url :=
        match pg_base pg with
        | Some href => href
        | None => url
        end in
      let valid_urls := flat_map (page_anchor_urls E base_url) all_links in
      (ExtractSuccess url (List.length valid_urls) valid_urls, w0)
  | RequestException msg => (ExtractError url ("Request error: " ++ msg), w0)
  | OtherException msg => (ExtractError url ("Error: " ++ msg), w0)
  end.

Definition scrape_link (E : Env) (url : string) (w : World)
    : ScrapeLinkResult * World :=
  let w0 := send_request w url in
  match http_get E (List.length (requested w)) url with
  | Fetched pg =>
      let text := pg_text pg in
      let text := PyStr.join " " (PyStr.split text) in
      (ScrapeLinkSuccess text, w0)
  | RequestException msg => (ScrapeLinkError msg, w0)
  | OtherException msg => (ScrapeLinkError msg, w0)
  end.

(** ** Further notions used to state the properties *)

(** The identifiers of the frontier entries are distinct and were all
    handed out already. *)
Definition link_ids_fresh (w : World) : Prop :=
  NoDup (map le_id (Links_to_scrap w)) /\
  Forall (fun id => id < next_id w) (map le_id (Links_to_scrap w)).

(** The error that an iteration of the crawl records for an outcome. *)
Definition crawl_recorded_error (r : FetchResult) : option string :=
  match r with
  | Fetched _ => None
  | RequestException msg => Some ("Request error: " ++ msg)
  | OtherException msg => Some ("Error: " ++ msg)
  end.

(** A text without whitespace at either end whose words are one space
    apart. *)
Definition single_spaced (s : string) : Prop :=
  PyStr.join " " (PyStr.split s) = s.

Fixpoint all_whitespace (s : string) : bool :=
  match s with
  | EmptyString => true
  | String c t => PyStr.isspace c && all_whitespace t
  end.

(** What [split] emits for the token read so far. *)
Definition flush_token (cur : list ascii) : list string :=
  match cur with
  | [] => []
  | _ => [string_of_list_ascii (rev cur)]
  end.

(** What the loop over the discovered links may do to the store: append
    uncrawled frontier entries with new identifiers and pending content
    tasks, and nothing else. *)
Definition grows (w w' : World) : Prop :=
  exists new_links new_tasks,
    Links_to_scrap w' = (Links_to_scrap w ++ new_links)%list /\
    Processed_Links w' = (Processed_Links w ++ new_tasks)%list /\
    Content_Links w' = Content_Links w /\
    scrapped_text w' = scrapped_text w /\
    requested w' = requested w /\
    next_id w <= next_id w' /\
    Forall (fun e => le_is_crawled e = false /\ le_error e = None /\
                     next_id w <= le_id e < next_id w') new_links /\
    NoDup (map le_id new_links) /\
    Forall (fun t => ct_is_processed t = false /\ ct_error t = None)
      new_tasks.

(** The snapshot that an iteration stores for the outcome of its request. *)
Definition snapshot_of (E : Env) (link_doc : LinkEntry) (id : nat)
    (r : FetchResult) : list CrawlSnapshot :=
  match r with
  | Fetched pg =>
      [mkCrawlSnapshot id (le_link link_doc)
         (unique_links_of E (is_wiki_url (le_link link_doc))
            (le_link link_doc) pg)
         (stored_depth link_doc)]
  | _ => []
  end.

(** A frontier entry that is crawled is left as it is. *)
Definition kept_when_crawled (e e' : LinkEntry) : Prop :=
  le_is_crawled e = true -> e' = e.

(** What a crawl may do to the content queue, the snapshots and the scraped
    documents: append pending tasks and snapshots, and nothing else. *)
Definition queue_appended (w w' : World) : Prop :=
  (exists new_tasks,
      Processed_Links w' = (Processed_Links w ++ new_tasks)%list /\
      Forall (fun t => ct_is_processed t = false /\ ct_error t = None)
        new_tasks) /\
  (exists snapshots,
      Content_Links w' = (Content_Links w ++ snapshots)%list) /\
  scrapped_text w' = scrapped_text w.

(** ** More stores of the small web *)

Module MoreSamples.

(** A frontier whose only entry is crawled. *)
Definition world_done : World :=
  mkWorld
    [mkLinkEntry 0 "https://a.test/gone" true None (Some 0%Z)
       (Some "Request error: 404 Client Error")]
    [] [] [] 1 ["https://a.test/gone"].

End MoreSamples.

(** The source that the crawl stores on the content task of the crawled
    URL itself. *)
Definition own_task_source (link_doc : LinkEntry) : option string :=
  if Z.eqb (stored_depth link_doc) 0 then Some "seed_url"
  else match le_source_url link_doc with
       | Some s => Some s
       | None => Some "unknown"
       end.

(** The content tasks that bulk processing leaves as they are but for the
    flag and the error it sets. *)
Definition same_content_task (t t' : ContentTask) : Prop :=
  ct_id t' = ct_id t /\ ct_link t' = ct_link t /\
  ct_source_url t' = ct_source_url t /\
  ct_has_text_in_url t' = ct_has_text_in_url t /\
  ct_depth t' = ct_depth t.

(** * Properties *)

Unset Implicit Arguments.

(** ** Strings *)

Module StrFacts.

Lemma append_nil_r (s : string) : s ++ "" = s.
Proof. induction s as [|c s IH]; simpl; [reflexivity | now rewrite IH]. Qed.

Lemma append_assoc (a b c : string) : (a ++ b) ++ c = a ++ b ++ c.
Proof. induction a as [|x a IH]; simpl; [reflexivity | now rewrite IH]. Qed.

Lemma append_eq_nil (a b : string) : a ++ b = "" -> a = "" /\ b = "".
Proof. destruct a; simpl; intros H; [auto | discriminate]. Qed.

Lemma prefix_iff (p s : string) :
  String.prefix p s = true <-> exists t, s = p ++ t.
Proof.
  revert s; induction p as [|a p IH]; intros s.
  - split; [intros _; exists s; reflexivity | intros _; now destruct s].
  - destruct s as [|b s]; simpl.
    + split; [discriminate | intros [t Ht]; discriminate].
    + destruct (ascii_dec a b) as [->|Hab].
      * rewrite IH. split; intros [t Ht]; exists t; congruence.
      * split; [discriminate | intros [t Ht]; congruence].
Qed.

(** [needle in hay] holds exactly when [hay] has [needle] as a factor. *)
Lemma contains_iff (needle hay : string) :
  PyStr.contains needle hay = true <->
  exists a b, hay = a ++ needle ++ b.
Proof.
  induction hay as [|c hay IH].
  - cbn [PyStr.contains]. rewrite orb_false_r, prefix_iff. split.
    + intros [t Ht]. exists "", t. exact Ht.
    + intros [a [b H]]. symmetry in H.
      apply append_eq_nil in H as [-> H].
      apply append_eq_nil in H as [-> ->]. exists "". reflexivity.
  - cbn [PyStr.contains]. rewrite orb_true_iff, prefix_iff, IH. split.
    + intros [[t Ht] | [a [b H]]].
      * exists "", t. exact Ht.
      * exists (String c a), b. simpl. now rewrite H.
    + intros [[|x a] [b H]].
      * left. exists b. exact H.
      * right. simpl in H. injection H as _ H. exists a, b. exact H.
Qed.

Lemma lower_app (a b : string) :
  PyStr.lower (a ++ b) = PyStr.lower a ++ PyStr.lower b.
Proof. induction a as [|x a IH]; simpl; [reflexivity | now rewrite IH]. Qed.

Lemma length_app (a b : string) :
  String.length (a ++ b) = String.length a + String.length b.
Proof. induction a as [|x a IH]; simpl; [reflexivity | now rewrite IH]. Qed.

End StrFacts.

(** ** The matcher against the words of a regular expression *)

Module RegexFacts.
Import Regex.

Lemma lang_void_inv s : lang Void s -> False.
Proof. intros H; inversion H. Qed.

Lemma lang_eps_inv s : lang Eps s -> s = "".
Proof. intros H; inversion H; reflexivity. Qed.

Lemma lang_atom_inv p s :
  lang (Atom p) s -> exists c, s = String c "" /\ p c = true.
Proof. intros H; inversion H; subst; eauto. Qed.

Lemma lang_cat_inv a b s :
  lang (Cat a b) s -> exists u v, s = u ++ v /\ lang a u /\ lang b v.
Proof. intros H; inversion H; subst; eauto. Qed.

Lemma lang_alt_inv a b s : lang (Alt a b) s -> lang a s \/ lang b s.
Proof. intros H; inversion H; subst; auto. Qed.

(** A non-empty word of a star starts with a non-empty word of its
    body. *)
Lemma lang_star_cons_inv a c s :
  lang (Star a) (String c s) ->
  exists u v, s = u ++ v /\ lang a (String c u) /\ lang (Star a) v.
Proof.
  intros H. remember (Star a) as r eqn:Hr. remember (String c s) as w eqn:Hw.
  revert s Hr Hw.
  induction H as [ | | | | | a0 | a0 u v Hu _ Hv IHv ];
    intros s Hr Hw; try discriminate.
  injection Hr as ->.
  destruct u as [|x u]; simpl in Hw.
  - apply (IHv s eq_refl Hw).
  - injection Hw as -> <-. exists u, v. auto.
Qed.

Lemma nullable_lang r : nullable r = true <-> lang r "".
Proof.
  induction r as [ | | p | a IHa b IHb | a IHa b IHb | a IHa ]; simpl.
  - split; [discriminate | intros H; inversion H].
  - split; [intros _; constructor | reflexivity].
  - split; [discriminate | intros H; inversion H].
  - rewrite andb_true_iff, IHa, IHb. split.
    + intros [Ha Hb]. apply (lang_cat Ha Hb).
    + intros H. apply lang_cat_inv in H as [u [v [Huv [Hu Hv]]]].
      symmetry in Huv. apply StrFacts.append_eq_nil in Huv as [-> ->]. auto.
  - rewrite orb_true_iff, IHa, IHb. split.
    + intros [H|H]; [now apply lang_alt_l | now apply lang_alt_r].
    + apply lang_alt_inv.
  - split; [intros _; constructor | reflexivity].
Qed.

Lemma deriv_lang c r : forall s, lang (deriv c r) s <-> lang r (String c s).
Proof.
  induction r as [ | | p | a IHa b IHb | a IHa b IHb | a IHa ];
    intros s; simpl.
  - split; intros H; inversion H.
  - split; intros H; inversion H.
  - destruct (p c) eqn:Hp; split; intros H.
    + apply lang_eps_inv in H as ->. now constructor.
    + apply lang_atom_inv in H as [x [Hx _]]. injection Hx as _ ->.
      constructor.
    + inversion H.
    + apply lang_atom_inv in H as [x [Hx Hpx]]. injection Hx as -> _.
      congruence.
  - assert (Hcat : lang (Cat (deriv c a) b) s <->
                   exists u v, s = u ++ v /\ lang a (String c u) /\ lang b v).
    { split.
      - intros H. apply lang_cat_inv in H as [u [v [-> [Hu Hv]]]].
        exists u, v. rewrite <- IHa. auto.
      - intros [u [v [-> [Hu Hv]]]]. apply lang_cat; [now apply IHa | auto]. }
    assert (Hsplit : lang (Cat a b) (String c s) <->
              (exists u v, s = u ++ v /\ lang a (String c u) /\ lang b v)
              \/ (lang a "" /\ lang b (String c s))).
    { split.
      - intros H. apply lang_cat_inv in H as [u [v [Huv [Hu Hv]]]].
        destruct u as [|x u]; simpl in Huv.
        + right. subst v. auto.
        + injection Huv as <- ->. left. eauto.
      - intros [[u [v [-> [Hu Hv]]]] | [Ha Hb]].
        + apply (lang_cat Hu Hv).
        + apply (lang_cat Ha Hb). }
    rewrite Hsplit. destruct (nullable a) eqn:Hn.
    + split.
      * intros H. apply lang_alt_inv in H as [H|H].
        -- left. now apply Hcat.
        -- right. split; [now apply nullable_lang | now apply IHb].
      * intros [H | [_ H]].
        -- apply lang_alt_l. now apply Hcat.
        -- apply lang_alt_r. now apply IHb.
    + rewrite Hcat. split; [auto|].
      intros [H | [Ha _]]; [exact H|].
      apply nullable_lang in Ha. congruence.
  - split; intros H.
    + apply lang_alt_inv in H as [H|H];
        [apply lang_alt_l; now apply IHa | apply lang_alt_r; now apply IHb].
    + apply lang_alt_inv in H as [H|H];
        [apply lang_alt_l; now apply IHa | apply lang_alt_r; now apply IHb].
  - split; intros H.
    + apply lang_cat_inv in H as [u [v [-> [Hu Hv]]]].
      apply IHa in Hu. apply (lang_star_app Hu Hv).
    + apply lang_star_cons_inv in H as [u [v [-> [Hu Hv]]]].
      apply lang_cat; [now apply IHa | exact Hv].
Qed.

Theorem matches_lang r s : matches r s = true <-> lang r s.
Proof.
  revert r; induction s as [|c s IH]; intros r; simpl.
  - apply nullable_lang.
  - rewrite IH. apply deriv_lang.
Qed.

Lemma match_dollar_iff r s :
  match_dollar r s = true <->
  exists u v, s = u ++ v /\ lang r u /\ at_dollar v = true.
Proof.
  revert r; induction s as [|c s IH]; intros r.
  - cbn [match_dollar]. rewrite orb_false_r, andb_true_iff, nullable_lang.
    split.
    + intros [H1 H2]. exists "", "". auto.
    + intros [u [v [Huv [Hu Hv]]]]. symmetry in Huv.
      apply StrFacts.append_eq_nil in Huv as [-> ->]. auto.
  - cbn [match_dollar]. rewrite orb_true_iff, andb_true_iff, nullable_lang, IH.
    split.
    + intros [[H1 H2] | [u [v [-> [Hu Hv]]]]].
      * exists "", (String c s). auto.
      * exists (String c u), v. rewrite <- deriv_lang. auto.
    + intros [[|x u] [v [Huv [Hu Hv]]]]; simpl in Huv.
      * left. subst v. auto.
      * injection Huv as <- ->. right. exists u, v.
        rewrite deriv_lang. auto.
Qed.

(** [re.search] of a pattern that ends in [$]: some factor of the string
    is a word of the pattern and what follows it is the end of the
    string or its final newline. *)
Theorem search_dollar_iff r s :
  search_dollar r s = true <->
  exists pre u v, s = pre ++ u ++ v /\ lang r u /\ at_dollar v = true.
Proof.
  induction s as [|c s IH].
  - cbn [search_dollar]. rewrite orb_false_r, match_dollar_iff. split.
    + intros [u [v H]]. exists "", u, v. exact H.
    + intros [pre [u [v [H1 H2]]]]. symmetry in H1.
      apply StrFacts.append_eq_nil in H1 as [-> H1]. exists u, v. auto.
  - cbn [search_dollar]. rewrite orb_true_iff, match_dollar_iff, IH. split.
    + intros [[u [v H]] | [pre [u [v [-> H]]]]].
      * exists "", u, v. exact H.
      * exists (String c pre), u, v. auto.
    + intros [[|x pre] [u [v [H1 H2]]]]; simpl in H1.
      * left. exists u, v. auto.
      * injection H1 as _ ->. right. exists pre, u, v. auto.
Qed.

Lemma lang_lit_ic w : forall u,
  lang (lit true w) u <-> PyStr.lower u = PyStr.lower w.
Proof.
  induction w as [|c w IH]; intros u; simpl.
  - split.
    + intros H. apply lang_eps_inv in H as ->. reflexivity.
    + destruct u; simpl; [constructor | discriminate].
  - split.
    + intros H. apply lang_cat_inv in H as [a [b [-> [Ha Hb]]]].
      apply lang_atom_inv in Ha as [x [-> Hx]]. simpl in *.
      apply Ascii.eqb_eq in Hx. rewrite Hx. f_equal. now apply IH.
    + destruct u as [|x u]; simpl; [discriminate|].
      intros H. injection H as Hx Hu.
      change (String x u) with (String x "" ++ u).
      apply lang_cat; [|now apply IH].
      constructor. simpl. now apply Ascii.eqb_eq.
Qed.

Lemma lang_alts ic ws u :
  lang (alts ic ws) u <-> exists w, In w ws /\ lang (lit ic w) u.
Proof.
  induction ws as [|w ws IH]; simpl.
  - split; [intros H; inversion H | intros [w [[] _]]].
  - split.
    + intros H. apply lang_alt_inv in H as [H|H].
      * exists w. auto.
      * apply IH in H as [w' [Hin Hw']]. exists w'. auto.
    + intros [w' [[<-|Hin] Hw']].
      * now apply lang_alt_l.
      * apply lang_alt_r. apply IH. eauto.
Qed.

Lemma at_dollar_iff v : at_dollar v = true <-> v = "" \/ v = NL.
Proof.
  destruct v as [|c [|d v]]; simpl.
  - split; auto.
  - rewrite Ascii.eqb_eq. unfold NL. split.
    + intros ->. auto.
    + intros [H|H]; [discriminate | now injection H].
  - split; [discriminate | intros [H|H]; discriminate].
Qed.

(** [longest_match] splits off a word of the pattern, and no longer prefix
    of the string is one. *)
Lemma longest_match_sound s : forall r rest,
  longest_match r s = Some rest -> exists u, s = u ++ rest /\ lang r u.
Proof.
  induction s as [|c s IH]; intros r rest; simpl.
  - destruct (nullable r) eqn:Hn; [|discriminate].
    intros H; injection H as <-. exists "". split; [reflexivity|].
    now apply nullable_lang.
  - destruct (longest_match (deriv c r) s) as [rest'|] eqn:Hl.
    + intros H; injection H as <-. apply IH in Hl as [u [-> Hu]].
      exists (String c u). split; [reflexivity | now apply deriv_lang].
    + destruct (nullable r) eqn:Hn; [|discriminate].
      intros H; injection H as <-. exists "". split; [reflexivity|].
      now apply nullable_lang.
Qed.

Lemma longest_match_longest s : forall r u v,
  s = u ++ v -> lang r u ->
  exists rest,
    longest_match r s = Some rest /\ String.length rest <= String.length v.
Proof.
  induction s as [|c s IH]; intros r u v Hs Hu.
  - symmetry in Hs. apply StrFacts.append_eq_nil in Hs as [-> ->].
    apply nullable_lang in Hu. simpl. rewrite Hu. exists "". auto.
  - simpl. destruct u as [|x u]; simpl in Hs.
    + subst v. apply nullable_lang in Hu.
      destruct (longest_match (deriv c r) s) as [rest'|] eqn:Hl.
      * exists rest'. split; [reflexivity|].
        apply longest_match_sound in Hl as [u' [-> _]].
        simpl. rewrite StrFacts.length_app. lia.
      * rewrite Hu. exists (String c s). auto.
    + injection Hs as <- ->. apply deriv_lang in Hu.
      destruct (IH (deriv c r) u v eq_refl Hu) as [rest [-> Hlen]].
      exists rest. auto.
Qed.

Example sub_collapses_blank_lines :
  sub blank_lines_re (NL ++ NL)
    ("# T" ++ NL ++ NL ++ NL ++ "## H" ++ NL ++ " " ++ NL ++ "text" ++ NL
     ++ "end")
  = "# T" ++ NL ++ NL ++ "## H" ++ NL ++ NL ++ "text" ++ NL ++ "end".
Proof. reflexivity. Qed.

End RegexFacts.

(** ** Store operations *)

Open Scope list_scope.

Section StoreFacts.

Context {A : Type}.

Lemma update_one_map {B : Type} (key : A -> B) (filter : A -> bool)
    (set : A -> A) (coll : list A) :
  (forall d, key (set d) = key d) ->
  map key (update_one filter set coll) = map key coll.
Proof.
  intros Hkey. induction coll as [|d rest IH]; simpl; [reflexivity|].
  destruct (filter d); simpl; [now rewrite Hkey | now rewrite IH].
Qed.

Lemma update_one_Forall2 (R : A -> A -> Prop) (filter : A -> bool)
    (set : A -> A) (coll : list A) :
  (forall d, R d d) -> (forall d, R d (set d)) ->
  Forall2 R coll (update_one filter set coll).
Proof.
  intros Hrefl Hset. induction coll as [|d rest IH]; simpl; [constructor|].
  destruct (filter d); constructor; auto.
  clear IH. induction rest; constructor; auto.
Qed.

(** A document that the filter does not select stays in the collection. *)
Lemma update_one_other (filter : A -> bool) (set : A -> A) (coll : list A)
    (d : A) :
  In d coll -> filter d = false -> In d (update_one filter set coll).
Proof.
  induction coll as [|x rest IH]; simpl; [tauto|].
  intros [->|Hin] Hf.
  - rewrite Hf. now left.
  - destruct (filter x); simpl; auto.
Qed.

(** The first selected document is replaced by its update. *)
Lemma update_one_hit (filter : A -> bool) (set : A -> A) (coll : list A)
    (d : A) :
  In d coll -> filter d = true ->
  (forall x, In x coll -> filter x = true -> x = d) ->
  In (set d) (update_one filter set coll).
Proof.
  induction coll as [|x rest IH]; simpl; [tauto|].
  intros Hin Hf Huniq. destruct (filter x) eqn:Hx.
  - left. f_equal. apply Huniq; auto.
  - destruct Hin as [->|Hin]; [congruence|]. right. apply IH; auto.
Qed.

Lemma filter_nil_count (filter : A -> bool) (coll : list A) :
  count_documents filter coll = 0 <-> List.filter filter coll = [].
Proof.
  unfold count_documents. destruct (List.filter filter coll); simpl.
  - tauto.
  - split; discriminate.
Qed.

End StoreFacts.

Lemma same_link_entry_refl e : same_link_entry e e.
Proof. repeat split. Qed.

Lemma same_link_entry_trans a b c :
  same_link_entry a b -> same_link_entry b c -> same_link_entry a c.
Proof.
  unfold same_link_entry. intros (?&?&?&?) (?&?&?&?).
  repeat split; congruence.
Qed.

Lemma same_link_entry_set_crawled error e :
  same_link_entry e (set_crawled error e).
Proof. repeat split. Qed.

Lemma Forall2_same_refl (l : list LinkEntry) : Forall2 same_link_entry l l.
Proof. induction l; constructor; auto using same_link_entry_refl. Qed.

Lemma Forall2_same_trans (a b c : list LinkEntry) :
  Forall2 same_link_entry a b -> Forall2 same_link_entry b c ->
  Forall2 same_link_entry a c.
Proof.
  intros Hab. revert c. induction Hab as [|x y a b Hxy _ IH]; intros c Hbc.
  - inversion Hbc. constructor.
  - inversion Hbc as [|y' z b' c' Hyz Hbc']; subst.
    constructor; eauto using same_link_entry_trans.
Qed.

Lemma find_link_none link w :
  find_link link w = None -> ~ In link (map le_link (Links_to_scrap w)).
Proof.
  unfold find_link. intros Hfind Hin.
  apply in_map_iff in Hin as [e [He Hin]].
  apply (find_none _ _ Hfind) in Hin. rewrite He, String.eqb_refl in Hin.
  discriminate.
Qed.

Lemma find_task_none link w :
  find_task link w = None -> ~ In link (map ct_link (Processed_Links w)).
Proof.
  unfold find_task. intros Hfind Hin.
  apply in_map_iff in Hin as [t [Ht Hin]].
  apply (find_none _ _ Hfind) in Hin. rewrite Ht, String.eqb_refl in Hin.
  discriminate.
Qed.

Lemma NoDup_snoc {A : Type} (l : list A) (x : A) :
  NoDup l -> ~ In x l -> NoDup (l ++ [x]).
Proof.
  intros Hl Hx. apply NoDup_app; auto.
  - repeat constructor. simpl. tauto.
  - intros a Ha [<-|[]]. contradiction.
Qed.

(** ** The crawl engine *)

Lemma discovers_refl u d ls w : discovers u d ls w w.
Proof.
  unfold discovers. repeat split; auto;
    exists []; rewrite app_nil_r; auto.
Qed.

Lemma discovers_trans u d ls w1 w2 w3 :
  discovers u d ls w1 w2 -> discovers u d ls w2 w3 -> discovers u d ls w1 w3.
Proof.
  intros ([n1 [L1 F1]] & [m1 [T1 G1]] & S1 & R1 & U1 & V1)
         ([n2 [L2 F2]] & [m2 [T2 G2]] & S2 & R2 & U2 & V2).
  unfold discovers. repeat split.
  - exists (n1 ++ n2). rewrite L2, L1, app_assoc. split; auto.
    apply Forall_app; auto.
  - exists (m1 ++ m2). rewrite T2, T1, app_assoc. split; auto.
    apply Forall_app; auto.
  - congruence.
  - congruence.
  - auto.
  - auto.
Qed.

Section CrawlFacts.

Variable E : Env.

Lemma add_discovered_discovers is_wiki u d ls w link :
  In link ls ->
  discovers u d ls w (add_discovered is_wiki u d w link).
Proof.
  intros Hin. unfold add_discovered.
  set (w1 := match find_link link w with
             | None => insert_link w link (Some u) (d + 1)
             | Some _ => w
             end).
  assert (H1 : discovers u d ls w w1).
  { subst w1. destruct (find_link link w) eqn:Hf.
    - apply discovers_refl.
    - unfold discovers, unique_link_entries, unique_content_tasks; simpl.
      repeat split; auto.
      + eexists. split; [reflexivity|]. repeat constructor; auto.
      + exists []. now rewrite app_nil_r.
      + intros Hu. rewrite map_app. simpl.
        apply NoDup_snoc; auto using find_link_none. }
  eapply discovers_trans; [exact H1|].
  destruct (is_wiki || contains_text_in_url link); [|apply discovers_refl].
  destruct (find_task link w1) eqn:Hf; [apply discovers_refl|].
  unfold discovers, unique_link_entries, unique_content_tasks; simpl.
  repeat split; auto.
  - exists []. now rewrite app_nil_r.
  - eexists. split; [reflexivity|]. repeat constructor; auto.
  - intros Hu. rewrite map_app. simpl.
    apply NoDup_snoc; auto using find_task_none.
Qed.

Lemma fold_add_discovered is_wiki u d ls links : forall w,
  incl links ls ->
  discovers u d ls w (fold_left (add_discovered is_wiki u d) links w).
Proof.
  induction links as [|link links IH]; intros w Hincl; simpl.
  - apply discovers_refl.
  - eapply discovers_trans.
    + apply add_discovered_discovers. apply Hincl. now left.
    + apply IH. intros x Hx. apply Hincl. now right.
Qed.

(** One successful crawl of a page. *)
Lemma crawl_page_spec link_doc pg w :
  let d := stored_depth link_doc in
  let u := le_link link_doc in
  let ls := unique_links_of E (is_wiki_url u) u pg in
  let w' := crawl_page E link_doc pg w in
  (exists old new_links,
      Links_to_scrap w' = old ++ new_links /\
      Forall2 same_link_entry (Links_to_scrap w) old /\
      Forall (fun e => le_depth e = Some (d + 1)%Z /\
                       le_source_url e = Some u /\
                       In (le_link e) ls) new_links) /\
  (exists new_tasks own_task,
      Processed_Links w' = Processed_Links w ++ new_tasks ++ own_task /\
      Forall (fun t => ct_depth t = Some (d + 1)%Z /\
                       ct_source_url t = Some u /\
                       In (ct_link t) ls) new_tasks /\
      Forall (fun t => ct_link t = u /\ ct_depth t = Some d) own_task /\
      List.length own_task <= 1) /\
  scrapped_text w' = scrapped_text w /\
  requested w' = requested w /\
  (unique_link_entries w -> unique_link_entries w') /\
  (unique_content_tasks w -> unique_content_tasks w').
Proof.
  intros d u ls w'. subst w'. unfold crawl_page.
  fold u. fold (stored_depth link_doc). fold d. fold ls.
  set (w1 := insert_snapshot w u ls d).
  set (w2 := fold_left (add_discovered (is_wiki_url u) u d) ls w1).
  set (w3 := update_link w2 (le_id link_doc) None).
  assert (H2 : discovers u d ls w1 w2)
    by (apply fold_add_discovered, incl_refl).
  destruct H2 as ([nl [HL FL]] & [nt [HT FT]] & HS & HR & HU & HV).
  assert (HL3 : exists old new_links,
             Links_to_scrap w3 = old ++ new_links /\
             Forall2 same_link_entry (Links_to_scrap w) old /\
             Forall (fun e => le_depth e = Some (d + 1)%Z /\
                              le_source_url e = Some u /\
                              In (le_link e) ls) new_links).
  { pose proof (update_one_Forall2 same_link_entry
                  (fun e => Nat.eqb (le_id e) (le_id link_doc))
                  (set_crawled None) (Links_to_scrap w2)
                  same_link_entry_refl
                  (same_link_entry_set_crawled None)) as HF.
    rewrite HL in HF at 1. simpl in HF.
    apply Forall2_app_inv_l in HF as (old & new' & Hold & Hnew & Heq).
    exists old, new'. split; [exact Heq|]. split; [exact Hold|].
    clear - Hnew FL. induction Hnew as [|x y l l' Hxy _ IH].
    - constructor.
    - inversion FL as [|? ? (Hd & Hs & Hi) FL']; subst.
      destruct Hxy as (_ & Hlk & Hsrc & Hdp).
      constructor; [|auto]. rewrite Hdp, Hsrc, Hlk. auto. }
  assert (HU3 : unique_link_entries w -> unique_link_entries w3).
  { intros Hu. unfold unique_link_entries. simpl.
    rewrite update_one_map by reflexivity. apply HU. exact Hu. }
  assert (HT3 : Processed_Links w3 = Processed_Links w ++ nt)
    by exact HT.
  assert (HV3 : unique_content_tasks w -> unique_content_tasks w3)
    by (intros Hv; apply HV; exact Hv).
  destruct (find_task u w3) eqn:Hfind.
  - repeat split; auto.
    exists nt, []. rewrite app_nil_r. repeat split; auto.
  - repeat split; auto.
    + eexists nt, [_]. cbn [insert_task Processed_Links].
      rewrite HT3, <- app_assoc. split; [reflexivity|].
      split; [exact FT|]. split; [|simpl; lia].
      repeat constructor.
    + intros Hv. unfold unique_content_tasks. cbn [insert_task Processed_Links].
      rewrite map_app. simpl.
      apply NoDup_snoc; [now apply HV3 | now apply find_task_none].
Qed.

End CrawlFacts.

Section EngineFacts.

Variable E : Env.

Lemma select_candidate_in url i w link_doc :
  select_candidate url i w = Some link_doc ->
  In link_doc (Links_to_scrap w).
Proof.
  unfold select_candidate.
  match goal with |- context [find ?q (Links_to_scrap w)] =>
    destruct (find q (Links_to_scrap w)) eqn:Hq end.
  - intros H; injection H as <-. now apply find_some in Hq.
  - intros H. now apply find_some in H.
Qed.

Lemma select_candidate_some url i w e :
  select_candidate url i w = Some e ->
  In e (Links_to_scrap w) /\ le_is_crawled e = false.
Proof.
  intros H. split; [now apply select_candidate_in in H|].
  unfold select_candidate in H.
  match type of H with context [find ?q (Links_to_scrap w)] =>
    destruct (find q (Links_to_scrap w)) as [e'|] eqn:Hf end.
  - injection H as <-. apply find_some in Hf as [_ He].
    apply andb_true_iff in He as [He _]. unfold uncrawled in He.
    now destruct (le_is_crawled e').
  - apply find_some in H as [_ He]. unfold uncrawled in He.
    now destruct (le_is_crawled e).
Qed.

Lemma select_candidate_none url i w :
  select_candidate url i w = None ->
  Forall (fun e => le_is_crawled e = true) (Links_to_scrap w).
Proof.
  unfold select_candidate.
  match goal with |- context [find ?q (Links_to_scrap w)] =>
    destruct (find q (Links_to_scrap w)); [discriminate|] end.
  intros Hnone. apply Forall_forall. intros e Hin.
  apply (find_none _ _ Hnone) in Hin. unfold uncrawled in Hin.
  now destruct (le_is_crawled e).
Qed.

Lemma all_crawled_no_candidate url i w :
  Forall (fun e => le_is_crawled e = true) (Links_to_scrap w) ->
  select_candidate url i w = None.
Proof.
  intros Hall. destruct (select_candidate url i w) as [e|] eqn:Hsel;
    [|reflexivity].
  apply select_candidate_some in Hsel as [Hin Hun].
  rewrite Forall_forall in Hall. apply Hall in Hin. congruence.
Qed.

(** [update_one] changes a document that the filter selects, when there
    is one. *)
Lemma update_one_marks {A : Type} (filter : A -> bool) (set : A -> A)
    (coll : list A) (d : A) :
  In d coll -> filter d = true ->
  exists d', filter d' = true /\ In (set d') (update_one filter set coll).
Proof.
  induction coll as [|x rest IH]; simpl; [tauto|].
  intros Hin Hd. destruct (filter x) eqn:Hx.
  - exists x. split; [exact Hx | now left].
  - destruct Hin as [->|Hin]; [congruence|].
    destruct (IH Hin Hd) as (d' & Hd' & Hin'). exists d'.
    split; [exact Hd' | now right].
Qed.

Lemma frontier_kept_refl w : frontier_kept w w.
Proof.
  exists (Links_to_scrap w), []. rewrite app_nil_r.
  split; [reflexivity | apply Forall2_same_refl].
Qed.

Lemma frontier_kept_trans w1 w2 w3 :
  frontier_kept w1 w2 -> frontier_kept w2 w3 -> frontier_kept w1 w3.
Proof.
  intros (o1 & n1 & L1 & F1) (o2 & n2 & L2 & F2).
  rewrite L1 in F2.
  apply Forall2_app_inv_l in F2 as (o1' & n1' & Ho & _ & ->).
  exists o1', (n1' ++ n2). rewrite L2, app_assoc. split; [reflexivity|].
  eapply Forall2_same_trans; eauto.
Qed.

Lemma update_link_kept w id error : frontier_kept w (update_link w id error).
Proof.
  eexists _, []. rewrite app_nil_r. split; [reflexivity|].
  apply update_one_Forall2;
    auto using same_link_entry_refl, same_link_entry_set_crawled.
Qed.

(** One iteration of the loop. *)
Lemma crawl_step_spec url i w :
  match select_candidate url i w with
  | None =>
      crawl_step E url i w = (w, Some (CrawlNoMoreLinks (Z.of_nat i)))
  | Some link_doc =>
      let w' := fst (crawl_step E url i w) in
      snd (crawl_step E url i w) = None /\
      requested w' = requested w ++ [le_link link_doc] /\
      scrapped_text w' = scrapped_text w /\
      crawl_effect E link_doc w w' /\
      (unique_link_entries w -> unique_link_entries w') /\
      (unique_content_tasks w -> unique_content_tasks w')
  end.
Proof.
  unfold crawl_step. destruct (select_candidate url i w) as [link_doc|];
    [|reflexivity].
  unfold crawl_effect.
  destruct (http_get E (List.length (requested w)) (le_link link_doc))
    as [pg|msg|msg] eqn:Hget.
  - cbn [fst snd].
    pose proof (crawl_page_spec E link_doc pg
                  (send_request w (le_link link_doc))) as Hspec.
    cbv zeta in Hspec.
    destruct Hspec as ((old & nl & HL & Hold & FL)
                       & (nt & own & HT & FT & Fown & Hlen)
                       & HS & HR & HU & HV).
    repeat split; auto.
    exists old, nl, nt, own. repeat split; auto.
    + eapply Forall_impl; [|exact FL]. simpl. tauto.
    + eapply Forall_impl; [|exact FT]. simpl. tauto.
    + eapply Forall_impl; [|exact FL]. simpl. tauto.
    + eapply Forall_impl; [|exact FT]. simpl. tauto.
  - cbn [fst snd]. repeat split; auto.
    + eexists _, [], [], []. rewrite !app_nil_r.
      repeat split; auto.
      apply update_one_Forall2;
        auto using same_link_entry_refl, same_link_entry_set_crawled.
    + unfold unique_link_entries. simpl.
      now rewrite update_one_map by reflexivity.
  - cbn [fst snd]. repeat split; auto.
    + eexists _, [], [], []. rewrite !app_nil_r.
      repeat split; auto.
      apply update_one_Forall2;
        auto using same_link_entry_refl, same_link_entry_set_crawled.
    + unfold unique_link_entries. simpl.
      now rewrite update_one_map by reflexivity.
Qed.

Lemma crawl_effect_kept link_doc w w' :
  crawl_effect E link_doc w w' -> frontier_kept w w'.
Proof.
  intros (old & nl & nt & own & HL & Hold & _). exists old, nl. auto.
Qed.

Lemma crawl_step_preserves url i w :
  step_preserves w (fst (crawl_step E url i w)).
Proof.
  pose proof (crawl_step_spec url i w) as H.
  destruct (select_candidate url i w) as [link_doc|].
  - destruct H as (_ & _ & HS & Heff & HU & HV).
    repeat split; eauto using crawl_effect_kept.
  - rewrite H. repeat split; auto using frontier_kept_refl.
Qed.

Lemma crawl_loop_preserves url depths : forall w,
  step_preserves w (fst (crawl_loop E url depths w)).
Proof.
  induction depths as [|i rest IH]; intros w; simpl.
  - repeat split; auto using frontier_kept_refl.
  - pose proof (crawl_step_preserves url i w) as (K1 & U1 & V1 & S1).
    destruct (crawl_step E url i w) as [w1 [response|]]; cbn [fst] in *.
    + repeat split; auto.
    + destruct (IH w1) as (K2 & U2 & V2 & S2).
      repeat split; eauto using frontier_kept_trans. congruence.
Qed.

Lemma crawl_from_world url process_depth w :
  snd (crawl_from E url process_depth w)
  = fst (crawl_loop E url (seq 0 (Z.to_nat process_depth)) w).
Proof.
  unfold crawl_from.
  destruct (crawl_loop E url (seq 0 (Z.to_nat process_depth)) w)
    as [w1 [response|]]; [reflexivity|].
  destruct (Z.to_nat process_depth); reflexivity.
Qed.

Lemma crawl_from_preserves url process_depth w :
  step_preserves w (snd (crawl_from E url process_depth w)).
Proof. rewrite crawl_from_world. apply crawl_loop_preserves. Qed.

Lemma collection_empty_iff {A : Type} (coll : list A) :
  Nat.eqb (count_documents (fun _ => true) coll) 0 = true <-> coll = [].
Proof.
  rewrite Nat.eqb_eq. destruct coll; simpl; [tauto|].
  split; discriminate.
Qed.

(** The cases of [recursive_crawl]. *)
Lemma recursive_crawl_nonempty data w :
  Links_to_scrap w <> [] ->
  recursive_crawl E data w = crawl_from E None 1 w.
Proof.
  intros Hne. unfold recursive_crawl.
  destruct (Nat.eqb _ 0) eqn:He; [|reflexivity].
  apply collection_empty_iff in He. contradiction.
Qed.

Lemma recursive_crawl_read data w :
  recursive_crawl E data w =
  if Nat.eqb (count_documents (fun _ => true) (Links_to_scrap w)) 0 then
    match read_seed E data with
    | SeedMissing => (CrawlUrlRequired, w)
    | SeedRaises => (CrawlFailed, w)
    | SeedRejected url => (CrawlInvalidUrl url, w)
    | SeedAccepted link process_depth =>
        crawl_from E (Some link) process_depth (insert_link w link None 0)
    end
  else crawl_from E None 1 w.
Proof.
  unfold recursive_crawl, read_seed, depth_budget.
  destruct (Nat.eqb _ 0); [|reflexivity].
  destruct (if py_truthy data then py_contains "url" data else Some false)
    as [[|]|]; try reflexivity.
  destruct (py_getitem "url" data) as [url|]; [|reflexivity].
  destruct url; try reflexivity.
  cbn [is_valid_url_value]. now destruct (is_valid_url E s).
Qed.

Lemma recursive_crawl_empty data w :
  Links_to_scrap w = [] ->
  recursive_crawl E data w =
  match read_seed E data with
  | SeedMissing => (CrawlUrlRequired, w)
  | SeedRaises => (CrawlFailed, w)
  | SeedRejected url => (CrawlInvalidUrl url, w)
  | SeedAccepted link process_depth =>
      crawl_from E (Some link) process_depth (insert_link w link None 0)
  end.
Proof.
  intros He. rewrite recursive_crawl_read.
  apply collection_empty_iff in He. now rewrite He.
Qed.

(** A body that is a [dict] with a [str] under the key [url]. *)
Lemma read_seed_supplied data url :
  py_getitem "url" data = Some (JString url) ->
  read_seed E data
  = if is_valid_url E url then SeedAccepted url (depth_budget E data)
    else SeedRejected (JString url).
Proof.
  intros Hget. unfold read_seed. rewrite Hget.
  destruct data as [| | | | |items|items]; try discriminate.
  cbn [py_getitem] in Hget. cbn [py_truthy py_contains]. rewrite Hget.
  destruct items as [|item items]; [discriminate | reflexivity].
Qed.

Lemma recursive_crawl_unique data w :
  unique_link_entries w -> unique_content_tasks w ->
  unique_link_entries (snd (recursive_crawl E data w)) /\
  unique_content_tasks (snd (recursive_crawl E data w)).
Proof.
  intros HU HV. destruct (Links_to_scrap w) as [|e l] eqn:HL.
  - rewrite (recursive_crawl_empty data w HL).
    destruct (read_seed E data) as [| |v|url pd]; [auto|auto|auto|].
    match goal with |- context [crawl_from E ?u ?n ?w1] =>
      destruct (crawl_from_preserves u n w1) as (_ & U1 & V1 & _) end.
    split; [apply U1 | apply V1; exact HV].
    unfold unique_link_entries. simpl. rewrite HL. simpl.
    repeat constructor. simpl. tauto.
  - rewrite recursive_crawl_nonempty by (rewrite HL; discriminate).
    destruct (crawl_from_preserves None 1 w) as (_ & U1 & V1 & _). auto.
Qed.

(** Where the seed goes. *)
Lemma seed_kept url w w' :
  Links_to_scrap w = [] ->
  frontier_kept (insert_link w url None 0) w' ->
  seed_at_depth_0 url w'.
Proof.
  intros He (old & nl & HL & Hold). simpl in Hold. rewrite He in Hold.
  simpl in Hold. inversion Hold as [|x y l l' Hxy Hnil]; subst.
  inversion Hnil; subst. destruct Hxy as (_ & Hlk & Hsrc & Hdp).
  exists y, nl. simpl in *. auto.
Qed.

End EngineFacts.

Section CrawlTheorems.

Variable E : Env.

Lemma crawl_from_one_step url w :
  snd (crawl_from E url 1 w) = fst (crawl_step E url 0 w).
Proof.
  rewrite crawl_from_world. change (seq 0 (Z.to_nat 1)) with [0].
  simpl. destruct (crawl_step E url 0 w) as [w1 [response|]]; reflexivity.
Qed.

(** An iteration inserts nothing at depth 0 into a frontier whose depths
    are not negative. *)
Lemma crawl_step_no_depth_0 url target i w :
  depths_not_negative w ->
  ~ inserted_at_depth_0 target w (fst (crawl_step E url i w)).
Proof.
  intros Hnn (j & e & Hj & Hnth & _ & Hdepth).
  pose proof (crawl_step_spec E url i w) as H.
  destruct (select_candidate url i w) as [link_doc|] eqn:Hsel.
  - destruct H as (_ & _ & _ & Heff & _).
    destruct Heff as (old & nl & nt & own & HL & Hold & _ & FL & _).
    rewrite HL in Hnth. apply Forall2_length in Hold.
    rewrite nth_error_app2 in Hnth by lia.
    apply nth_error_In in Hnth.
    rewrite Forall_forall in FL. apply FL in Hnth as [Hd _].
    apply select_candidate_in in Hsel.
    unfold depths_not_negative in Hnn. rewrite Forall_forall in Hnn.
    apply Hnn in Hsel. unfold stored_depth in Hd.
    rewrite Hdepth in Hd. injection Hd as Hd.
    destruct (le_depth link_doc); lia.
  - rewrite H in Hnth. cbn [fst] in Hnth.
    assert (Hlt : j < List.length (Links_to_scrap w))
      by (apply nth_error_Some; congruence).
    lia.
Qed.

(** The crawl keeps the stored depths from being negative. *)
Lemma crawl_step_depths url i w :
  depths_not_negative w -> depths_not_negative (fst (crawl_step E url i w)).
Proof.
  intros Hnn. pose proof (crawl_step_spec E url i w) as H.
  destruct (select_candidate url i w) as [link_doc|] eqn:Hsel.
  - destruct H as (_ & _ & _ & Heff & _).
    destruct Heff as (old & nl & nt & own & HL & Hold & _ & FL & _).
    unfold depths_not_negative in *. rewrite HL. apply Forall_app. split.
    + clear - Hnn Hold.
      induction Hold as [|x y l l' Hxy _ IH]; [constructor|].
      inversion Hnn; subst. constructor; [|auto].
      destruct Hxy as (_ & _ & _ & ->). assumption.
    + apply select_candidate_in in Hsel.
      rewrite Forall_forall in Hnn. apply Hnn in Hsel.
      eapply Forall_impl; [|exact FL]. intros e [Hd _]. simpl. rewrite Hd.
      unfold stored_depth. destruct (le_depth link_doc); lia.
  - rewrite H. exact Hnn.
Qed.

Lemma crawl_loop_depths url depths : forall w,
  depths_not_negative w ->
  depths_not_negative (fst (crawl_loop E url depths w)).
Proof.
  induction depths as [|i rest IH]; intros w Hnn; simpl; [exact Hnn|].
  pose proof (crawl_step_depths url i w Hnn) as H1.
  destruct (crawl_step E url i w) as [w1 [response|]]; cbn [fst] in *.
  - exact H1.
  - now apply IH.
Qed.

Lemma recursive_crawl_depths data w :
  depths_not_negative w ->
  depths_not_negative (snd (recursive_crawl E data w)).
Proof.
  intros Hnn. destruct (Links_to_scrap w) as [|e l] eqn:HL.
  - rewrite (recursive_crawl_empty E data w HL).
    destruct (read_seed E data) as [| |v|url pd];
      [exact Hnn|exact Hnn|exact Hnn|].
    rewrite crawl_from_world. apply crawl_loop_depths.
    unfold depths_not_negative. simpl. rewrite HL. simpl.
    repeat constructor. simpl. lia.
  - rewrite recursive_crawl_nonempty by (rewrite HL; discriminate).
    rewrite crawl_from_world. now apply crawl_loop_depths.
Qed.

(** After the iteration that crawls [link_doc], an entry with its
    identifier is marked crawled. *)
Lemma crawl_step_marks url i w link_doc :
  select_candidate url i w = Some link_doc ->
  exists e',
    In e' (Links_to_scrap (fst (crawl_step E url i w))) /\
    le_id e' = le_id link_doc /\ le_is_crawled e' = true.
Proof.
  intros Hsel. pose proof (select_candidate_in _ _ _ _ Hsel) as Hin.
  assert (Hmark : forall error l,
             In link_doc l ->
             exists e',
               In e' (update_one (fun e => Nat.eqb (le_id e) (le_id link_doc))
                        (set_crawled error) l) /\
               le_id e' = le_id link_doc /\ le_is_crawled e' = true).
  { intros error l Hl.
    destruct (update_one_marks (fun e => Nat.eqb (le_id e) (le_id link_doc))
                (set_crawled error) l link_doc Hl (Nat.eqb_refl _))
      as (d' & Hd' & Hin').
    exists (set_crawled error d'). split; [exact Hin'|].
    split; [now apply Nat.eqb_eq in Hd' | reflexivity]. }
  unfold crawl_step. rewrite Hsel.
  destruct (http_get E (List.length (requested w)) (le_link link_doc))
    as [pg|msg|msg]; cbn [fst].
  - unfold crawl_page.
    match goal with
    | |- context [fold_left (add_discovered ?k ?u ?d) ?ls ?w1] =>
        pose proof (fold_add_discovered k u d ls ls w1 (incl_refl ls)) as Hd;
        set (w2 := fold_left (add_discovered k u d) ls w1) in *
    end.
    destruct Hd as ((nl & HL2 & _) & _).
    assert (Hin2 : In link_doc (Links_to_scrap w2))
      by (rewrite HL2; apply in_or_app; left; exact Hin).
    destruct (find_task _ _); apply (Hmark None _ Hin2).
  - apply (Hmark _ _ Hin).
  - apply (Hmark _ _ Hin).
Qed.

(** The invocation on a frontier that is not empty: one iteration. *)
Lemma crawl_from_one_step_response url w :
  fst (crawl_from E url 1 w)
  = match snd (crawl_step E url 0 w) with
    | Some response => response
    | None => CrawlCompleted 1 (crawl_stats (fst (crawl_step E url 0 w)))
    end.
Proof.
  unfold crawl_from. change (seq 0 (Z.to_nat 1)) with [0]. simpl.
  destruct (crawl_step E url 0 w) as [w1 [response|]]; reflexivity.
Qed.

(** C1, as the code has it.  For a request whose body is an object with a
    string under the key [url], on a store whose stored depths are not
    negative: a new depth-0 frontier entry for the URL is inserted exactly
    when the frontier is empty at the start and the URL passes
    validation; on an empty frontier a URL that fails validation is
    answered 400 and the store is left as it is.  When the frontier is not
    empty, the parsed body is not inspected (every body gets the same
    answer and the same store) and one iteration runs: when an entry is
    uncrawled, the invocation sends one request, to the URL of an existing
    uncrawled entry, marks an entry with its identifier crawled and
    answers success; when every entry is crawled, it answers that there
    are no more links and leaves the store as it is. *)
Theorem seed_only_into_empty_frontier data url w :
  depths_not_negative w ->
  py_getitem "url" data = Some (JString url) ->
  (inserted_at_depth_0 url w (snd (recursive_crawl E data w))
   <-> Links_to_scrap w = [] /\ is_valid_url E url = true) /\
  (Links_to_scrap w = [] -> is_valid_url E url = false ->
   recursive_crawl E data w = (CrawlInvalidUrl (JString url), w) /\
   crawl_status (CrawlInvalidUrl (JString url)) = ("error"%string, 400)) /\
  (Links_to_scrap w <> [] ->
   (forall data', recursive_crawl E data' w = recursive_crawl E data w) /\
   match select_candidate None 0 w with
   | Some link_doc =>
       In link_doc (Links_to_scrap w) /\
       le_is_crawled link_doc = false /\
       fst (recursive_crawl E data w)
       = CrawlCompleted 1 (crawl_stats (snd (recursive_crawl E data w))) /\
       requested (snd (recursive_crawl E data w))
       = requested w ++ [le_link link_doc] /\
       exists e',
         In e' (Links_to_scrap (snd (recursive_crawl E data w))) /\
         le_id e' = le_id link_doc /\ le_is_crawled e' = true
   | None =>
       Forall (fun e => le_is_crawled e = true) (Links_to_scrap w) /\
       recursive_crawl E data w = (CrawlNoMoreLinks 0, w)
   end).
Proof.
  intros Hnn Hurl. split; [|split].
  - destruct (Links_to_scrap w) as [|e0 l0] eqn:HL.
    + rewrite (recursive_crawl_empty E data w HL),
        (read_seed_supplied E data url Hurl).
      destruct (is_valid_url E url) eqn:Hvalid; cbn [snd].
      * split; [auto|]. intros _.
        match goal with |- context [crawl_from E ?u ?n ?w1] =>
          destruct (crawl_from_preserves E u n w1) as (K & _) end.
        destruct (seed_kept _ _ _ HL K) as (e & rest & Hw' & Hlk & Hdp & _).
        exists 0, e. rewrite HL, Hw'. simpl. auto.
      * split; [|intros [_ H]; discriminate].
        intros (i & e & _ & Hnth & _). rewrite HL in Hnth.
        destruct i; discriminate.
    + rewrite recursive_crawl_nonempty by (rewrite HL; discriminate).
      rewrite crawl_from_one_step. split.
      * intros H. exfalso. revert H. now apply crawl_step_no_depth_0.
      * intros [H _]. discriminate.
  - intros HL Hinvalid.
    rewrite (recursive_crawl_empty E data w HL),
      (read_seed_supplied E data url Hurl), Hinvalid.
    split; reflexivity.
  - intros Hne. split; [intros data'; now rewrite !recursive_crawl_nonempty|].
    rewrite recursive_crawl_nonempty by exact Hne.
    pose proof (crawl_step_spec E None 0 w) as Hs.
    destruct (select_candidate None 0 w) as [link_doc|] eqn:Hsel.
    + destruct Hs as (Hnone & Hreq & _).
      destruct (select_candidate_some _ _ _ _ Hsel) as [Hin Hun].
      split; [exact Hin|]. split; [exact Hun|].
      rewrite crawl_from_one_step_response, crawl_from_one_step, Hnone.
      split; [reflexivity|]. split; [exact Hreq|].
      now apply crawl_step_marks.
    + split; [now apply select_candidate_none in Hsel|].
      unfold crawl_from. change (seq 0 (Z.to_nat 1)) with [0].
      cbn [crawl_loop]. now rewrite Hs.
Qed.

(** C2: an invocation of [recursive_crawl] on a store with at most one
    frontier entry and at most one content task per URL leaves a store
    with at most one frontier entry and at most one content task per
    URL. *)
Theorem recursive_crawl_keeps_urls_unique data w :
  unique_link_entries w ->
  unique_content_tasks w ->
  unique_link_entries (snd (recursive_crawl E data w)) /\
  unique_content_tasks (snd (recursive_crawl E data w)).
Proof. apply recursive_crawl_unique. Qed.

(** C3: in the iteration that crawls an entry of stored depth d, the
    frontier entries and the content tasks created for the extracted
    links get depth d + 1 (the task for the crawled URL itself keeps d);
    the seed of an empty frontier is inserted at depth 0. *)
Theorem depth_propagation url i w link_doc data seed w0 :
  select_candidate url i w = Some link_doc ->
  Links_to_scrap w0 = [] ->
  py_getitem "url" data = Some (JString seed) ->
  is_valid_url E seed = true ->
  crawl_effect E link_doc w (fst (crawl_step E url i w)) /\
  seed_at_depth_0 seed (snd (recursive_crawl E data w0)).
Proof.
  intros Hsel HL Hurl Hvalid. split.
  - pose proof (crawl_step_spec E url i w) as H. rewrite Hsel in H.
    apply H.
  - rewrite (recursive_crawl_empty E data w0 HL),
      (read_seed_supplied E data seed Hurl), Hvalid.
    match goal with |- context [crawl_from E ?u ?n ?w1] =>
      destruct (crawl_from_preserves E u n w1) as (K & _) end.
    apply (seed_kept _ _ _ HL K).
Qed.

(** C10: when the frontier is empty, the URL is valid and [int] rejects
    the depth of the body, the request is answered as the same request
    without a depth: one crawl step, of the seed, and the response
    [success]. *)
Theorem unusable_depth_defaults_to_1 data url v w :
  Links_to_scrap w = [] ->
  py_getitem "url" data = Some (JString url) ->
  is_valid_url E url = true ->
  py_getitem "depth" data = Some v ->
  py_int E v = None ->
  recursive_crawl E data w
  = recursive_crawl E (BodyObject [("url"%string, JString url)]) w /\
  exists stats w',
    recursive_crawl E data w = (CrawlCompleted 1 stats, w') /\
    crawl_status (CrawlCompleted 1 stats) = ("success"%string, 200) /\
    requested w' = requested w ++ [url].
Proof.
  intros HL Hurl Hvalid Hdepth Hint.
  rewrite !(recursive_crawl_empty E _ w HL).
  rewrite (read_seed_supplied E data url Hurl).
  rewrite (read_seed_supplied E (BodyObject [("url"%string, JString url)])
             url eq_refl).
  rewrite Hvalid. unfold depth_budget. rewrite Hdepth, Hint.
  change (py_getitem "depth" (BodyObject [("url"%string, JString url)]))
    with (@None JsonValue).
  split; [reflexivity|].
  set (w1 := insert_link w url None 0).
  assert (Hsel : select_candidate (Some url) 0 w1
                 = Some (mkLinkEntry (next_id w) url false None (Some 0%Z)
                           None)).
  { unfold select_candidate. subst w1. cbn [insert_link Links_to_scrap].
    rewrite HL. simpl. rewrite String.eqb_refl.
    destruct (PyStr.truthy url); reflexivity. }
  pose proof (crawl_step_spec E (Some url) 0 w1) as H.
  rewrite Hsel in H. cbv zeta in H. destruct H as (Hnone & Hreq & _).
  unfold crawl_from. change (seq 0 (Z.to_nat 1)) with [0].
  cbn [crawl_loop].
  destruct (crawl_step E (Some url) 0 w1) as [w' r]. cbn [fst snd] in *.
  subst r. eexists _, w'. split; [reflexivity|]. split; [reflexivity|].
  exact Hreq.
Qed.

End CrawlTheorems.

Lemma seed_only_into_empty_frontier_witness :
  depths_not_negative Sample.world_1 /\
  (inserted_at_depth_0 "https://b.test" Sample.world_1
     (snd (recursive_crawl Sample.env
             (BodyObject [("url"%string, JString "https://b.test")])
             Sample.world_1))
   <-> Links_to_scrap Sample.world_1 = [] /\
       is_valid_url Sample.env "https://b.test" = true).
Proof.
  assert (H : depths_not_negative Sample.world_1)
    by (repeat constructor; simpl; lia).
  split; [exact H|].
  exact (proj1 (@seed_only_into_empty_frontier Sample.env
                  (BodyObject [("url"%string, JString "https://b.test")])
                  "https://b.test" Sample.world_1 H eq_refl)).
Defined.

(** On an empty frontier a URL that fails validation is answered 400 and
    nothing is inserted. *)
Lemma empty_frontier_invalid_url_not_seeded :
  Links_to_scrap empty_world = [] /\
  recursive_crawl Sample.env
    (BodyObject [("url"%string, JString "https:/a.test")]) empty_world
  = (CrawlInvalidUrl (JString "https:/a.test"), empty_world) /\
  ~ (inserted_at_depth_0 "https:/a.test" empty_world
       (snd (recursive_crawl Sample.env
               (BodyObject [("url"%string, JString "https:/a.test")])
               empty_world))
     <-> Links_to_scrap empty_world = []).
Proof.
  split; [reflexivity|]. split; [reflexivity|].
  intros [_ H]. destruct (H eq_refl) as (i & e & _ & Hnth & _).
  destruct i; discriminate.
Qed.

Lemma recursive_crawl_keeps_urls_unique_witness :
  unique_link_entries Sample.world_1 /\
  unique_content_tasks Sample.world_1 /\
  unique_link_entries
    (snd (recursive_crawl Sample.env BodyNull
            Sample.world_1)) /\
  unique_content_tasks
    (snd (recursive_crawl Sample.env BodyNull
            Sample.world_1)).
Proof.
  assert (H1 : unique_link_entries Sample.world_1).
  { unfold unique_link_entries. simpl.
    repeat constructor; simpl; intuition discriminate. }
  assert (H2 : unique_content_tasks Sample.world_1).
  { unfold unique_content_tasks. simpl.
    repeat constructor; simpl; intuition discriminate. }
  split; [exact H1|]. split; [exact H2|].
  exact (@recursive_crawl_keeps_urls_unique Sample.env
           BodyNull Sample.world_1 H1 H2).
Defined.

Lemma depth_propagation_witness :
  crawl_effect Sample.env
    (mkLinkEntry 1 "https://a.test/blog/a" false (Some "https://a.test"%string)
       (Some 1%Z) None)
    Sample.world_1 (fst (crawl_step Sample.env None 0 Sample.world_1)) /\
  seed_at_depth_0 "https://a.test"
    (snd (recursive_crawl Sample.env
            (BodyObject [("url"%string, JString "https://a.test");
                        ("depth"%string, JInt 3)])
            empty_world)).
Proof.
  exact (@depth_propagation Sample.env None 0 Sample.world_1 _
           (BodyObject [("url"%string, JString "https://a.test");
                        ("depth"%string, JInt 3)])
           "https://a.test" empty_world eq_refl eq_refl eq_refl eq_refl).
Defined.

Lemma unusable_depth_defaults_to_1_witness :
  recursive_crawl Sample.env
    (BodyObject [("url"%string, JString "https://a.test");
                        ("depth"%string, JString "deep")])
    empty_world
  = recursive_crawl Sample.env
      (BodyObject [("url"%string, JString "https://a.test")]) empty_world /\
  exists stats w',
    recursive_crawl Sample.env
      (BodyObject [("url"%string, JString "https://a.test");
                        ("depth"%string, JString "deep")])
      empty_world
    = (CrawlCompleted 1 stats, w') /\
    crawl_status (CrawlCompleted 1 stats) = ("success"%string, 200) /\
    requested w' = requested empty_world ++ ["https://a.test"%string].
Proof.
  exact (@unusable_depth_defaults_to_1 Sample.env
           (BodyObject [("url"%string, JString "https://a.test");
                        ("depth"%string, JString "deep")])
           _ _ empty_world eq_refl eq_refl eq_refl eq_refl eq_refl).
Defined.

(** ** Bulk content processing *)

Lemma NoDup_map_inj_on {A B : Type} (key : A -> B) (l : list A) (x y : A) :
  NoDup (map key l) -> In x l -> In y l -> key x = key y -> x = y.
Proof.
  induction l as [|a l IH]; simpl; [tauto|].
  intros Hnd Hx Hy Hk. inversion Hnd as [|? ? Hnotin Hnd']; subst.
  destruct Hx as [->|Hx], Hy as [->|Hy]; auto.
  - exfalso. apply Hnotin. rewrite Hk. now apply in_map.
  - exfalso. apply Hnotin. rewrite <- Hk. now apply in_map.
Qed.

Lemma NoDup_map_filter {A B : Type} (key : A -> B) (p : A -> bool)
    (l : list A) :
  NoDup (map key l) -> NoDup (map key (List.filter p l)).
Proof.
  induction l as [|a l IH]; simpl; [auto|].
  intros Hnd. inversion Hnd as [|? ? Hnotin Hnd']; subst.
  destruct (p a); simpl; [|auto]. constructor; [|auto].
  intros Hin. apply Hnotin. apply in_map_iff in Hin as [x [Hx Hin]].
  apply filter_In in Hin as [Hin _]. rewrite <- Hx. now apply in_map.
Qed.

Section ProcessFacts.

Variable E : Env.

Lemma scrape_single_link_spec t w :
  let w' := snd (scrape_single_link E t w) in
  requested w' = requested w ++ [ct_link t] /\
  Links_to_scrap w' = Links_to_scrap w /\
  Processed_Links w'
  = update_one (fun x => Nat.eqb (ct_id x) (ct_id t))
      (set_processed
         (recorded_error (request_outcome E (List.length (requested w)) t)))
      (Processed_Links w) /\
  match request_outcome E (List.length (requested w)) t with
  | Fetched pg =>
      exists d,
        scrapped_text w' = scrapped_text w ++ [d] /\
        sd_link_id d = ct_id t /\ sd_content_link d = ct_link t /\
        sd_scrapped_content d
        = Some (extract_text (is_wiki_url (ct_link t)) pg)
  | _ => scrapped_text w' = scrapped_text w
  end.
Proof.
  unfold scrape_single_link, request_outcome.
  destruct (http_get E (List.length (requested w)) (ct_link t));
    cbn [snd]; repeat split; auto.
  eexists. split; [reflexivity|]. repeat split.
Qed.

Lemma process_link_world res w t :
  snd (process_link E (res, w) t) = snd (scrape_single_link E t w).
Proof.
  unfold process_link. destruct (scrape_single_link E t w) as [[] w'];
    reflexivity.
Qed.

(** The loop of [process_all_links] over tasks that are in the queue. *)
Lemma process_links_spec ts : forall res w,
  unique_task_ids w ->
  NoDup (map ct_id ts) ->
  (forall t, In t ts -> In t (Processed_Links w)) ->
  let w' := snd (fold_left (process_link E) ts (res, w)) in
  requested w' = requested w ++ map ct_link ts /\
  map ct_id (Processed_Links w') = map ct_id (Processed_Links w) /\
  (forall t, In t (Processed_Links w) -> ~ In (ct_id t) (map ct_id ts) ->
             In t (Processed_Links w')) /\
  exists docs,
    scrapped_text w' = scrapped_text w ++ docs /\
    (forall d, In d docs -> exists j t' pg,
          nth_error ts j = Some t' /\
          request_outcome E (List.length (requested w) + j) t' = Fetched pg /\
          sd_link_id d = ct_id t') /\
    forall i t, nth_error ts i = Some t ->
      let r := request_outcome E (List.length (requested w) + i) t in
      In (set_processed (recorded_error r) t) (Processed_Links w') /\
      match r with
      | Fetched pg =>
          exists d, In d docs /\
            sd_link_id d = ct_id t /\ sd_content_link d = ct_link t /\
            sd_scrapped_content d
            = Some (extract_text (is_wiki_url (ct_link t)) pg)
      | _ => True
      end.
Proof.
  induction ts as [|t ts IH]; intros res w Hids Hnd Hin; cbn [fold_left].
  - cbn [snd map]. rewrite app_nil_r. repeat split; auto.
    exists []. rewrite app_nil_r. repeat split.
    + intros d [].
    + destruct i; discriminate.
    + destruct i; discriminate.
  - destruct (process_link E (res, w) t) as [res1 w1] eqn:Hstep.
    assert (Hw1 : w1 = snd (scrape_single_link E t w))
      by (rewrite <- process_link_world with (res := res), Hstep;
          reflexivity).
    pose proof (scrape_single_link_spec t w) as Hs. cbv zeta in Hs.
    rewrite <- Hw1 in Hs. destruct Hs as (Hreq & _ & Hproc & Hdoc).
    cbn [map] in Hnd. apply NoDup_cons_iff in Hnd as [Hnotin Hnd'].
    assert (Hids1 : unique_task_ids w1).
    { unfold unique_task_ids. rewrite Hproc.
      now rewrite update_one_map by reflexivity. }
    assert (Hin1 : forall x, In x ts -> In x (Processed_Links w1)).
    { intros x Hx. rewrite Hproc. apply update_one_other.
      - apply Hin. now right.
      - apply Nat.eqb_neq. intros Heq. apply Hnotin.
        rewrite <- Heq. now apply in_map. }
    assert (Hhit :
              In (set_processed
                    (recorded_error
                       (request_outcome E (List.length (requested w)) t)) t)
                 (Processed_Links w1)).
    { rewrite Hproc. apply update_one_hit.
      - apply Hin. now left.
      - apply Nat.eqb_refl.
      - intros x Hx Hid. apply Nat.eqb_eq in Hid.
        apply (NoDup_map_inj_on ct_id (Processed_Links w)); auto.
        apply Hin. now left. }
    specialize (@IH res1 w1 Hids1 Hnd' Hin1). cbv zeta in IH.
    destruct IH as (Hreq' & Hmap' & Hkeep' & docs' & Hdocs' & Hfrom' & Hall').
    assert (Hlen : List.length (requested w1) = S (List.length (requested w)))
      by (rewrite Hreq, length_app; simpl; lia).
    split; [|split; [|split]].
    + rewrite Hreq', Hreq, <- app_assoc. reflexivity.
    + rewrite Hmap', Hproc. now rewrite update_one_map by reflexivity.
    + intros x Hx Hnot. apply Hkeep'.
      * rewrite Hproc. apply update_one_other; [exact Hx|].
        apply Nat.eqb_neq. intros Heq. apply Hnot. left. now symmetry.
      * intros Hc. apply Hnot. now right.
    + destruct (request_outcome E (List.length (requested w)) t)
        as [pg|msg|msg] eqn:Hout.
      * destruct Hdoc as (d & Hd & Hd1 & Hd2 & Hd3).
        exists (d :: docs'). split; [|split].
        -- rewrite Hdocs', Hd, <- app_assoc. reflexivity.
        -- intros x [<-|Hx].
           ++ exists 0, t, pg. rewrite Nat.add_0_r. auto.
           ++ apply Hfrom' in Hx as (j & t' & pg' & Hj & Ho & Hid).
              exists (S j), t', pg'. rewrite Hlen in Ho.
              rewrite Nat.add_succ_r. auto.
        -- intros [|i] x Hx; cbn [nth_error] in Hx.
           ++ injection Hx as <-. rewrite Nat.add_0_r, Hout. split.
              ** apply Hkeep'; [exact Hhit | exact Hnotin].
              ** exists d. split; [now left | auto].
           ++ specialize (Hall' i x Hx). cbv zeta in Hall'.
              rewrite Hlen in Hall'. rewrite Nat.add_succ_r.
              destruct Hall' as [Ha Hb]. split; [exact Ha|].
              destruct (request_outcome E _ x); auto.
              destruct Hb as (d' & Hd' & Hrest). exists d'.
              split; [now right | exact Hrest].
      * exists docs'. split; [|split].
        -- rewrite Hdocs', Hdoc. reflexivity.
        -- intros x Hx.
           apply Hfrom' in Hx as (j & t' & pg' & Hj & Ho & Hid).
           exists (S j), t', pg'. rewrite Hlen in Ho.
           rewrite Nat.add_succ_r. auto.
        -- intros [|i] x Hx; cbn [nth_error] in Hx.
           ++ injection Hx as <-. rewrite Nat.add_0_r, Hout. split; [|exact I].
              apply Hkeep'; [exact Hhit | exact Hnotin].
           ++ specialize (Hall' i x Hx). cbv zeta in Hall'.
              rewrite Hlen in Hall'. rewrite Nat.add_succ_r. exact Hall'.
      * exists docs'. split; [|split].
        -- rewrite Hdocs', Hdoc. reflexivity.
        -- intros x Hx.
           apply Hfrom' in Hx as (j & t' & pg' & Hj & Ho & Hid).
           exists (S j), t', pg'. rewrite Hlen in Ho.
           rewrite Nat.add_succ_r. auto.
        -- intros [|i] x Hx; cbn [nth_error] in Hx.
           ++ injection Hx as <-. rewrite Nat.add_0_r, Hout. split; [|exact I].
              apply Hkeep'; [exact Hhit | exact Hnotin].
           ++ specialize (Hall' i x Hx). cbv zeta in Hall'.
              rewrite Hlen in Hall'. rewrite Nat.add_succ_r. exact Hall'.
Qed.

Lemma process_all_links_world w :
  snd (process_all_links E w)
  = snd (fold_left (process_link E)
           (List.filter unprocessed (Processed_Links w))
           (mkResults
              (count_documents unprocessed (Processed_Links w)) 0 0 0 [],
            w)).
Proof.
  unfold process_all_links.
  destruct (Nat.eqb _ 0) eqn:Hc.
  - apply Nat.eqb_eq, filter_nil_count in Hc. rewrite Hc. reflexivity.
  - destruct (fold_left _ _ _). reflexivity.
Qed.

Lemma nth_error_NoDup_map {A B : Type} (key : A -> B) (l : list A) i j x y :
  NoDup (map key l) ->
  nth_error l i = Some x -> nth_error l j = Some y -> key x = key y ->
  i = j.
Proof.
  intros Hnd Hi Hj Hk. rewrite NoDup_nth_error in Hnd.
  apply Hnd.
  - rewrite length_map. apply nth_error_Some. congruence.
  - rewrite !nth_error_map, Hi, Hj. simpl. now rewrite Hk.
Qed.

(** *** The identifiers of the tasks stay distinct *)

Lemma fresh_same_ids w w' :
  map ct_id (Processed_Links w') = map ct_id (Processed_Links w) ->
  next_id w <= next_id w' ->
  task_ids_fresh w -> task_ids_fresh w'.
Proof.
  intros Hids Hnext [Hnd Hlt]. unfold task_ids_fresh. rewrite Hids.
  split; [exact Hnd|]. eapply Forall_impl; [|exact Hlt].
  simpl. intros; lia.
Qed.

Lemma fresh_insert_task w link source_url has_text depth :
  task_ids_fresh w ->
  task_ids_fresh (insert_task w link source_url has_text depth).
Proof.
  intros [Hnd Hlt]. unfold task_ids_fresh.
  cbn [insert_task Processed_Links next_id].
  rewrite map_app. cbn [map ct_id]. split.
  - apply NoDup_snoc; [exact Hnd|]. intros Hin.
    rewrite Forall_forall in Hlt. apply Hlt in Hin. lia.
  - apply Forall_app. split.
    + eapply Forall_impl; [|exact Hlt]. simpl. intros; lia.
    + repeat constructor.
Qed.

Lemma fresh_add_discovered is_wiki u d w link :
  task_ids_fresh w -> task_ids_fresh (add_discovered is_wiki u d w link).
Proof.
  intros H. unfold add_discovered.
  set (w1 := match find_link link w with
             | None => insert_link w link (Some u) (d + 1)
             | Some _ => w
             end).
  assert (H1 : task_ids_fresh w1).
  { subst w1. destruct (find_link link w); [exact H|].
    apply (fresh_same_ids w); [reflexivity | simpl; lia | exact H]. }
  destruct (is_wiki || contains_text_in_url link); [|exact H1].
  destruct (find_task link w1); [exact H1|].
  now apply fresh_insert_task.
Qed.

Lemma fresh_fold_add_discovered is_wiki u d links : forall w,
  task_ids_fresh w ->
  task_ids_fresh (fold_left (add_discovered is_wiki u d) links w).
Proof.
  induction links as [|link links IH]; intros w H; simpl; [exact H|].
  apply IH. now apply fresh_add_discovered.
Qed.

Lemma fresh_crawl_step url i w :
  task_ids_fresh w -> task_ids_fresh (fst (crawl_step E url i w)).
Proof.
  intros H. unfold crawl_step.
  destruct (select_candidate url i w) as [link_doc|]; [|exact H].
  assert (H0 : task_ids_fresh (send_request w (le_link link_doc)))
    by (apply (fresh_same_ids w); [reflexivity | simpl; lia | exact H]).
  destruct (http_get E _ _) as [pg|msg|msg]; cbn [fst].
  - unfold crawl_page.
    match goal with |- context [fold_left ?f ?ls ?w1] =>
      assert (H2 : task_ids_fresh (fold_left f ls w1)) end.
    { apply fresh_fold_add_discovered.
      apply (fresh_same_ids (send_request w (le_link link_doc)));
        [reflexivity | simpl; lia | exact H0]. }
    match goal with |- context [update_link ?w2 ?id None] =>
      assert (H3 : task_ids_fresh (update_link w2 id None))
        by (apply (fresh_same_ids w2);
            [reflexivity | simpl; lia | exact H2]);
      destruct (find_task (le_link link_doc) (update_link w2 id None))
    end.
    + exact H3.
    + now apply fresh_insert_task.
  - apply (fresh_same_ids (send_request w (le_link link_doc)));
      [reflexivity | simpl; lia | exact H0].
  - apply (fresh_same_ids (send_request w (le_link link_doc)));
      [reflexivity | simpl; lia | exact H0].
Qed.

Lemma fresh_crawl_loop url depths : forall w,
  task_ids_fresh w -> task_ids_fresh (fst (crawl_loop E url depths w)).
Proof.
  induction depths as [|i rest IH]; intros w H; simpl; [exact H|].
  pose proof (fresh_crawl_step url i w H) as H1.
  destruct (crawl_step E url i w) as [w1 [response|]]; cbn [fst] in *.
  - exact H1.
  - now apply IH.
Qed.

Lemma fresh_scrape_single_link t w :
  task_ids_fresh w -> task_ids_fresh (snd (scrape_single_link E t w)).
Proof.
  intros H. pose proof (scrape_single_link_spec t w) as Hs. cbv zeta in Hs.
  destruct Hs as (_ & _ & Hproc & _).
  apply (fresh_same_ids w); [| |exact H].
  - rewrite Hproc. now rewrite update_one_map by reflexivity.
  - unfold scrape_single_link. destruct (http_get E _ _); simpl; lia.
Qed.

Lemma fresh_process_links ts : forall res w,
  task_ids_fresh w ->
  task_ids_fresh (snd (fold_left (process_link E) ts (res, w))).
Proof.
  induction ts as [|t ts IH]; intros res w H; cbn [fold_left]; [exact H|].
  destruct (process_link E (res, w) t) as [res1 w1] eqn:Hstep.
  apply IH.
  replace w1 with (snd (scrape_single_link E t w))
    by (rewrite <- (process_link_world res w t), Hstep; reflexivity).
  now apply fresh_scrape_single_link.
Qed.

(** Every store that the operations build from the empty one has distinct
    task identifiers. *)
Lemma task_ids_fresh_invariant :
  task_ids_fresh empty_world /\
  (forall data w, task_ids_fresh w ->
                  task_ids_fresh (snd (recursive_crawl E data w))) /\
  (forall w, task_ids_fresh w ->
             task_ids_fresh (snd (process_all_links E w))) /\
  (forall w, task_ids_fresh w -> unique_task_ids w).
Proof.
  split; [split; constructor|]. split; [|split].
  - intros data w H. rewrite recursive_crawl_read.
    destruct (Nat.eqb _ 0).
    + destruct (read_seed E data) as [| |v|url pd]; [exact H..|].
      rewrite crawl_from_world. apply fresh_crawl_loop.
      apply (fresh_same_ids w); [reflexivity | simpl; lia | exact H].
    + rewrite crawl_from_world. now apply fresh_crawl_loop.
  - intros w H. rewrite process_all_links_world.
    now apply fresh_process_links.
  - intros w [H _]. exact H.
Qed.

(** C4: with one task per identifier in the queue, [process_all_links]
    sends one request per pending task, in order, whatever the earlier
    outcomes; a task whose request or extraction fails is marked
    processed with a non-empty error and gets no scraped document; a
    task that succeeds gets a scraped document and is marked processed
    with the error field it had; no task is added or removed and the
    tasks that were processed already are left as they are. *)
Theorem bulk_processing_isolates_failures w :
  unique_task_ids w ->
  let pending := List.filter unprocessed (Processed_Links w) in
  let w' := snd (process_all_links E w) in
  requested w' = requested w ++ map ct_link pending /\
  map ct_id (Processed_Links w') = map ct_id (Processed_Links w) /\
  (forall t, In t (Processed_Links w) -> ct_is_processed t = true ->
             In t (Processed_Links w')) /\
  exists docs,
    scrapped_text w' = scrapped_text w ++ docs /\
    forall i t, nth_error pending i = Some t ->
      exists t',
        In t' (Processed_Links w') /\
        ct_id t' = ct_id t /\ ct_link t' = ct_link t /\
        ct_is_processed t' = true /\
        match http_get E (List.length (requested w) + i) (ct_link t) with
        | Fetched pg =>
            ct_error t' = ct_error t /\
            exists d, In d docs /\
              sd_link_id d = ct_id t /\ sd_content_link d = ct_link t /\
              sd_scrapped_content d
              = Some (extract_text (is_wiki_url (ct_link t)) pg)
        | RequestException msg =>
            ct_error t' = Some ("Request error: " ++ msg)%string /\
            ct_error t' <> Some ""%string /\
            forall d, In d docs -> sd_link_id d <> ct_id t
        | OtherException msg =>
            ct_error t' = Some ("Processing error: " ++ msg)%string /\
            ct_error t' <> Some ""%string /\
            forall d, In d docs -> sd_link_id d <> ct_id t
        end.
Proof.
  intros Hids pending w'. subst w'. rewrite process_all_links_world.
  assert (Hnd : NoDup (map ct_id pending))
    by (apply NoDup_map_filter; exact Hids).
  assert (Hin : forall t, In t pending -> In t (Processed_Links w))
    by (intros t Ht; now apply filter_In in Ht).
  pose proof (@process_links_spec pending
                (mkResults (count_documents unprocessed (Processed_Links w))
                   0 0 0 [])
                w Hids Hnd Hin) as H.
  cbv zeta in H. fold pending.
  destruct H as (Hreq & Hmap & Hkeep & docs & Hdocs & Hfrom & Hall).
  split; [exact Hreq|]. split; [exact Hmap|]. split.
  { intros t Ht Hp. apply Hkeep; [exact Ht|].
    intros Hc. apply in_map_iff in Hc as [x [Hx Hxin]].
    assert (x = t).
    { apply (NoDup_map_inj_on ct_id (Processed_Links w)); auto. }
    subst x. apply filter_In in Hxin as [_ Hun].
    unfold unprocessed in Hun. rewrite Hp in Hun. discriminate. }
  exists docs. split; [exact Hdocs|].
  intros i t Hi. specialize (Hall i t Hi). cbv zeta in Hall.
  destruct Hall as [Hset Hok].
  assert (Hnone : forall d, In d docs ->
            (forall pg, request_outcome E (List.length (requested w) + i) t
                        <> Fetched pg) ->
            sd_link_id d <> ct_id t).
  { intros d Hd Hfail Heq.
    apply Hfrom in Hd as (j & t2 & pg & Hj & Ho & Hid).
    assert (j = i).
    { apply (nth_error_NoDup_map ct_id pending j i t2 t); auto. congruence. }
    subst j. assert (t2 = t) by congruence. subst t2.
    exact (Hfail pg Ho). }
  eexists. split; [exact Hset|]. unfold request_outcome in *.
  destruct (http_get E (List.length (requested w) + i) (ct_link t))
    as [pg|msg|msg]; cbn [set_processed recorded_error ct_id ct_link
                            ct_is_processed ct_error].
  - repeat split; auto.
  - repeat split; auto; try discriminate.
    intros d Hd. apply Hnone; [exact Hd | discriminate].
  - repeat split; auto; try discriminate.
    intros d Hd. apply Hnone; [exact Hd | discriminate].
Qed.

(** C8, as the code has it: when no task is pending, [process_all_links]
    sends no request and changes nothing, and its response has the
    status [complete] and the message that no unprocessed link was
    found; it carries no results, hence no count of processed tasks. *)
Theorem nothing_pending_nothing_fetched w :
  List.filter unprocessed (Processed_Links w) = [] ->
  process_all_links E w
  = (mkProcessResponse "complete" NoUnprocessedLinksFound None, w).
Proof.
  intros Hnone. unfold process_all_links.
  apply filter_nil_count in Hnone. rewrite Hnone. reflexivity.
Qed.

End ProcessFacts.

Lemma bulk_processing_isolates_failures_witness :
  unique_task_ids Sample.world_1 /\
  requested (snd (process_all_links Sample.env Sample.world_1))
  = requested Sample.world_1
    ++ map ct_link (List.filter unprocessed (Processed_Links Sample.world_1)).
Proof.
  assert (H : unique_task_ids Sample.world_1).
  { unfold unique_task_ids. simpl.
    repeat constructor; simpl; intuition discriminate. }
  split; [exact H|].
  exact (proj1 (bulk_processing_isolates_failures Sample.env Sample.world_1 H)).
Defined.

Lemma nothing_pending_nothing_fetched_witness :
  List.filter unprocessed (Processed_Links Sample.world_2) = [] /\
  process_all_links Sample.env Sample.world_2
  = (mkProcessResponse "complete" NoUnprocessedLinksFound None,
     Sample.world_2).
Proof.
  split; [reflexivity|].
  exact (nothing_pending_nothing_fetched Sample.env Sample.world_2 eq_refl).
Defined.

(** With nothing pending the response carries no results, so there is no
    count of processed tasks in it to be 0. *)
Lemma nothing_pending_no_processed_count :
  List.filter unprocessed (Processed_Links Sample.world_2) = [] /\
  ~ (exists results,
        pr_results (fst (process_all_links Sample.env Sample.world_2))
        = Some results /\
        processed results = 0).
Proof.
  split; [reflexivity|]. intros [results [H _]]. discriminate.
Qed.

(** ** The URL classifier *)

Section ClassifierFacts.
Import Regex RegexFacts.

Lemma lang_chr_alts c ws u :
  lang (Cat (chr true c) (alts true ws)) u <->
  exists w, In w ws /\ PyStr.lower u = PyStr.lower (String c w).
Proof.
  split.
  - intros H. apply lang_cat_inv in H as [a [b [-> [Ha Hb]]]].
    apply lang_alts in Hb as [w [Hin Hw]]. exists w. split; [exact Hin|].
    unfold chr in Ha. apply lang_atom_inv in Ha as [x [-> Hx]].
    apply Ascii.eqb_eq in Hx. simpl. rewrite Hx. f_equal.
    now apply lang_lit_ic.
  - intros [w [Hin Hw]]. apply lang_lit_ic in Hw. simpl in Hw.
    apply lang_cat_inv in Hw as [a [b [-> [Ha Hb]]]].
    apply lang_cat; [exact Ha|]. apply lang_alts. eauto.
Qed.

Lemma lang_chr_alts_opt c ws c2 u :
  lang (Cat (chr true c) (Cat (alts true ws) (opt (chr true c2)))) u <->
  exists w, In w ws /\
    (PyStr.lower u = PyStr.lower (String c w)
     \/ PyStr.lower u = PyStr.lower (String c w ++ String c2 "")).
Proof.
  split.
  - intros H. apply lang_cat_inv in H as [a [b [-> [Ha Hb]]]].
    apply lang_cat_inv in Hb as [b1 [b2 [-> [Hb1 Hb2]]]].
    assert (Hab : lang (Cat (chr true c) (alts true ws)) (a ++ b1))
      by (now apply lang_cat).
    apply lang_chr_alts in Hab as [w [Hin Hw]]. exists w.
    split; [exact Hin|].
    rewrite <- StrFacts.append_assoc.
    apply lang_alt_inv in Hb2 as [Hb2|Hb2].
    + right.
      rewrite (StrFacts.lower_app (a ++ b1)), Hw,
        (StrFacts.lower_app (String c w)).
      f_equal.
      unfold chr in Hb2. apply lang_atom_inv in Hb2 as [x [-> Hx]].
      apply Ascii.eqb_eq in Hx. simpl. now rewrite Hx.
    + left. apply lang_eps_inv in Hb2 as ->.
      now rewrite StrFacts.append_nil_r.
  - intros [w [Hin [Hw|Hw]]].
    + apply lang_lit_ic in Hw. simpl in Hw.
      apply lang_cat_inv in Hw as [a [b [-> [Ha Hb]]]].
      apply lang_cat; [exact Ha|].
      rewrite <- (StrFacts.append_nil_r b).
      apply lang_cat; [|apply lang_alt_r; constructor].
      apply lang_alts. eauto.
    + apply lang_lit_ic in Hw. simpl in Hw.
      apply lang_cat_inv in Hw as [a [b [-> [Ha Hb]]]].
      apply lang_cat; [exact Ha|].
      assert (Hsplit : forall x y,
                 lang (lit true (x ++ y)) b ->
                 exists b1 b2, b = (b1 ++ b2)%string /\
                               lang (lit true x) b1 /\ lang (lit true y) b2).
      { clear. intros x. revert b. induction x as [|k x IH]; intros b y H.
        - exists ""%string, b. repeat split; [constructor | exact H].
        - simpl in H. apply lang_cat_inv in H as [p [q [-> [Hp Hq]]]].
          apply IH in Hq as [q1 [q2 [-> [Hq1 Hq2]]]].
          exists (p ++ q1)%string, q2.
          rewrite StrFacts.append_assoc. repeat split; auto.
          simpl. now apply lang_cat. }
      apply Hsplit in Hb as [b1 [b2 [-> [Hb1 Hb2]]]].
      apply lang_cat; [apply lang_alts; eauto|].
      apply lang_alt_l. simpl in Hb2.
      apply lang_cat_inv in Hb2 as [p [q [-> [Hp Hq]]]].
      apply lang_eps_inv in Hq as ->.
      now rewrite StrFacts.append_nil_r.
Qed.

Lemma blocked_words_lowercase :
  forallb (fun e => String.eqb (PyStr.lower e) e)
    (blocked_extensions ++ blocked_segments) = true.
Proof. reflexivity. Qed.

Lemma blocked_word_lower w :
  In w blocked_extensions \/ In w blocked_segments -> PyStr.lower w = w.
Proof.
  intros H. apply String.eqb_eq.
  apply (proj1 (forallb_forall _ _) blocked_words_lowercase).
  apply in_or_app. exact H.
Qed.

(** C5, as the code has it: [is_valid_content_url] looks at the whole
    URL, not at its path.  It returns false exactly when the URL ends,
    up to case and up to one final newline, in a dot and a blocked
    extension, or in a slash, a blocked segment and at most one more
    slash; it returns true otherwise, and being a total function it
    raises on no string. *)
Theorem is_valid_content_url_false_iff url :
  (is_valid_content_url url = false <-> blocked_ending url) /\
  (is_valid_content_url url = true <-> ~ blocked_ending url).
Proof.
  assert (Hiff : is_valid_content_url url = false <-> blocked_ending url).
  { unfold is_valid_content_url, blocked_ending.
    assert (H1 := search_dollar_iff extension_re url).
    assert (H2 := search_dollar_iff segment_re url).
    split.
    - intros H.
      destruct (search_dollar extension_re url) eqn:He.
      + destruct (proj1 H1 eq_refl) as (pre & u & v & Hurl & Hu & Hv).
        exists pre, u, v. split; [exact Hurl|].
        split; [now apply at_dollar_iff|]. left.
        apply lang_chr_alts in Hu as [e [Hin Hu]]. exists e.
        split; [exact Hin|]. rewrite Hu. simpl.
        now rewrite blocked_word_lower by auto.
      + destruct (search_dollar segment_re url) eqn:Hs; [|discriminate].
        destruct (proj1 H2 eq_refl) as (pre & u & v & Hurl & Hu & Hv).
        exists pre, u, v. split; [exact Hurl|].
        split; [now apply at_dollar_iff|]. right.
        apply lang_chr_alts_opt in Hu as [g [Hin Hu]]. exists g.
        split; [exact Hin|].
        destruct Hu as [Hu|Hu]; [left|right]; rewrite Hu; simpl;
          rewrite ?StrFacts.lower_app, blocked_word_lower by auto;
          reflexivity.
    - intros (pre & u & v & Hurl & Hv & [[e [Hin Hu]] | [g [Hin Hu]]]).
      + assert (Hs : search_dollar extension_re url = true).
        { apply H1. exists pre, u, v. split; [exact Hurl|].
          split; [|now apply at_dollar_iff].
          apply lang_chr_alts. exists e. split; [exact Hin|].
          rewrite Hu. simpl. now rewrite blocked_word_lower by auto. }
        now rewrite Hs.
      + assert (Hs : search_dollar segment_re url = true).
        { apply H2. exists pre, u, v. split; [exact Hurl|].
          split; [|now apply at_dollar_iff].
          apply lang_chr_alts_opt. exists g. split; [exact Hin|].
          destruct Hu as [Hu|Hu]; [left|right]; rewrite Hu; simpl;
            rewrite ?StrFacts.lower_app, blocked_word_lower by auto;
            reflexivity. }
        rewrite Hs. now destruct (search_dollar extension_re url). }
  split; [exact Hiff|].
  rewrite <- Hiff. destruct (is_valid_content_url url); split; intros H;
    congruence.
Qed.

Example classifier_examples :
  is_valid_content_url "https://example.com/blog/my-post" = true /\
  is_valid_content_url "https://example.com/manual.pdf" = false /\
  is_valid_content_url "https://example.com/logo.PNG" = false /\
  is_valid_content_url "https://example.com/login" = false /\
  is_valid_content_url "https://example.com/shop/cart/" = false /\
  is_valid_content_url "https://example.com/v1/api" = false /\
  is_valid_content_url "https://example.com/search?next=/login" = false.
Proof. repeat split. Qed.

Example text_hint_examples :
  contains_text_in_url "https://x.com/blog/2024/my-article" = true /\
  contains_text_in_url "https://x.com/p/7f2a" = false.
Proof. split; reflexivity. Qed.

End ClassifierFacts.

(** A URL whose path ends in a blocked extension and which carries a query
    string: the reading of the classifier by the path answers false, the
    code answers true. *)
Lemma path_with_query_string_is_not_blocked :
  UrlPath.url_path "https://example.com/files/report.pdf?download=1"
  = "/files/report.pdf"%string /\
  UrlPath.likely_text_by_path
    "https://example.com/files/report.pdf?download=1" = false /\
  is_valid_content_url "https://example.com/files/report.pdf?download=1"
  = true.
Proof. repeat split. Qed.

(** ** The link extractor in wiki mode *)

Lemma sample_list_set_ok : list_set_ok Sample.env.
Proof.
  intros l. split.
  - apply NoDup_nodup.
  - intros x. apply nodup_In.
Qed.

Section ExtractorFacts.

Variable E : Env.

Lemma anchor_urls_wiki base href u :
  In u (anchor_urls E true base href) ->
  PyStr.contains "wikipedia.org/wiki/" u = true /\
  existsb (fun special => PyStr.contains special u) wiki_special_markers
  = false.
Proof.
  unfold anchor_urls. destruct (skipped_href _); [intros []|].
  destruct (urljoin E base _) as [full_url|]; [|intros []].
  destruct (PyStr.contains "wikipedia.org/wiki/" full_url) eqn:Hc;
    [|intros []].
  destruct (existsb _ wiki_special_markers) eqn:Hs; [intros []|].
  intros [<-|[]]. auto.
Qed.

(** C6: in wiki mode every extracted URL contains [wikipedia.org/wiki/],
    hence [/wiki/], and contains none of the markers of the namespace
    and query blocklist. *)
Theorem wiki_mode_keeps_articles_only url_to_crawl pg u :
  list_set_ok E ->
  In u (unique_links_of E true url_to_crawl pg) ->
  PyStr.contains "wikipedia.org/wiki/" u = true /\
  PyStr.contains "/wiki/" u = true /\
  forall marker,
    In marker wiki_special_markers -> PyStr.contains marker u = false.
Proof.
  intros Hset Hin. unfold unique_links_of in Hin.
  apply (proj1 (proj2 (Hset _) u)) in Hin. unfold valid_urls_of in Hin.
  apply in_flat_map in Hin as [href [_ Hin]].
  apply anchor_urls_wiki in Hin as [Hc Hs]. split; [exact Hc|]. split.
  - apply StrFacts.contains_iff in Hc as [a [b Hu]].
    apply StrFacts.contains_iff.
    exists (a ++ "wikipedia.org")%string, b. rewrite Hu.
    now rewrite StrFacts.append_assoc.
  - intros marker Hm. destruct (PyStr.contains marker u) eqn:Hcm; [|auto].
    assert (Ht : existsb (fun special => PyStr.contains special u)
                   wiki_special_markers = true)
      by (apply existsb_exists; eauto).
    congruence.
Qed.

End ExtractorFacts.

Example default_mode_extraction :
  unique_links_of Sample.env false "https://a.test"
    (mkPage ["#top"; "javascript:void(0)"; "/blog/a"]%string None None None
       ""%string)
  = ["https://a.test/blog/a"%string].
Proof. reflexivity. Qed.

Example wiki_mode_extraction :
  unique_links_of Sample.env true "https://en.wikipedia.org/wiki/Rocq"
    Sample.page_wiki
  = ["https://en.wikipedia.org/wiki/Coq"%string].
Proof. reflexivity. Qed.

Lemma wiki_mode_keeps_articles_only_witness :
  list_set_ok Sample.env /\
  In "https://en.wikipedia.org/wiki/Coq"%string
    (unique_links_of Sample.env true "https://en.wikipedia.org/wiki/Rocq"
       Sample.page_wiki) /\
  PyStr.contains "wikipedia.org/wiki/" "https://en.wikipedia.org/wiki/Coq"
  = true /\
  PyStr.contains "/wiki/" "https://en.wikipedia.org/wiki/Coq" = true /\
  forall marker,
    In marker wiki_special_markers ->
    PyStr.contains marker "https://en.wikipedia.org/wiki/Coq" = false.
Proof.
  assert (Hin : In "https://en.wikipedia.org/wiki/Coq"%string
                  (unique_links_of Sample.env true
                     "https://en.wikipedia.org/wiki/Rocq" Sample.page_wiki))
    by (vm_compute; auto).
  split; [exact sample_list_set_ok|]. split; [exact Hin|].
  exact (wiki_mode_keeps_articles_only Sample.env
           "https://en.wikipedia.org/wiki/Rocq" Sample.page_wiki
           "https://en.wikipedia.org/wiki/Coq" sample_list_set_ok Hin).
Defined.

(** ** The content extractor *)

(** In wiki mode without a main-content region the text is the text of the
    whole document, with no title line. *)
Lemma extract_text_wiki_fallback pg :
  pg_content_div pg = None ->
  extract_text true pg = Regex.sub blank_lines_re (NL ++ NL) (pg_text pg).
Proof. intros H. unfold extract_text. now rewrite H. Qed.

Lemma extract_text_default pg :
  extract_text false pg
  = Regex.sub blank_lines_re (NL ++ NL)
      ("# " ++ title_text_of pg ++ NL ++ NL ++ pg_text pg).
Proof. reflexivity. Qed.

(** C7 on a wiki URL whose page has no main-content region, the title
    [Plain] and the text [body text]: wiki mode returns the text alone,
    default mode returns it under the heading [# Plain] and a blank line. *)
Theorem wiki_fallback_omits_title :
  is_wiki_url "https://wiki.test/plain" = true /\
  pg_content_div Sample.page_plain_wiki = None /\
  extract_text true Sample.page_plain_wiki = "body text"%string /\
  extract_text false Sample.page_plain_wiki
  = ("# Plain" ++ NL ++ NL ++ "body text")%string /\
  extract_text true Sample.page_plain_wiki
  <> extract_text false Sample.page_plain_wiki.
Proof. repeat split. discriminate. Qed.

(** ** Stats *)

Lemma split_aux_length s : forall cur,
  List.length (PyStr.split_aux cur s)
  = match cur with
    | [] => token_starts false s
    | _ => 1 + token_starts true s
    end.
Proof.
  induction s as [|c s IH]; intros cur; simpl.
  - destruct cur; reflexivity.
  - destruct (PyStr.isspace c).
    + destruct cur; simpl; rewrite IH; reflexivity.
    + rewrite IH. destruct cur; reflexivity.
Qed.

(** [len(content.split())] is the number of whitespace-delimited tokens. *)
Lemma split_length s :
  List.length (PyStr.split s) = whitespace_delimited_tokens s.
Proof. apply (split_aux_length s []). Qed.

(** The tokens of [split] are not empty and hold no whitespace. *)
Lemma split_aux_tokens s : forall cur,
  Forall (fun c => PyStr.isspace c = false) cur ->
  Forall (fun tok => tok <> ""%string /\
                     Forall (fun c => PyStr.isspace c = false)
                       (list_ascii_of_string tok))
    (PyStr.split_aux cur s).
Proof.
  assert (Htok : forall cur,
             cur <> [] -> Forall (fun c => PyStr.isspace c = false) cur ->
             string_of_list_ascii (rev cur) <> ""%string /\
             Forall (fun c => PyStr.isspace c = false)
               (list_ascii_of_string (string_of_list_ascii (rev cur)))).
  { intros cur Hne Hcur. split.
    - intros H. apply (f_equal list_ascii_of_string) in H.
      rewrite list_ascii_of_string_of_list_ascii in H. simpl in H.
      apply (f_equal (@rev ascii)) in H. rewrite rev_involutive in H.
      simpl in H. contradiction.
    - rewrite list_ascii_of_string_of_list_ascii. now apply Forall_rev. }
  induction s as [|c s IH]; intros cur Hcur; simpl.
  - destruct cur as [|x cur]; [constructor|].
    constructor; [|constructor]. apply Htok; [discriminate | exact Hcur].
  - destruct (PyStr.isspace c) eqn:Hc.
    + destruct cur as [|x cur]; [now apply IH|].
      constructor; [|now apply IH].
      apply Htok; [discriminate | exact Hcur].
    + apply IH. constructor; auto.
Qed.

Lemma fold_words docs : forall n,
  fold_left
    (fun total doc =>
       match sd_scrapped_content doc with
       | Some content => total + List.length (PyStr.split content)
       | None => total
       end) docs n
  = n + list_sum (map document_words docs).
Proof.
  induction docs as [|doc docs IH]; intros n; simpl; [lia|].
  rewrite IH. unfold document_words.
  destruct (sd_scrapped_content doc); [rewrite split_length|]; lia.
Qed.

(** C9: [Total_Words_Scrapped] is the sum over the stored scraped
    documents of the number of whitespace-delimited tokens of their
    content (6 for the contents [a b], [c] and [d e f]), and
    [realtime_stats] leaves the store as it is. *)
Theorem stats_total_words w :
  Total_Words_Scrapped (fst (realtime_stats w))
  = list_sum (map document_words (scrapped_text w)) /\
  snd (realtime_stats w) = w /\
  Total_Words_Scrapped (fst (realtime_stats Sample.world_3)) = 6.
Proof.
  split; [|split; reflexivity].
  unfold realtime_stats. cbn [fst Total_Words_Scrapped].
  apply (fold_words (scrapped_text w) 0).
Qed.

(** * Further properties of the code *)

(** ** Strings *)

Lemma lower_char_idempotent c :
  PyStr.lower_char (PyStr.lower_char c) = PyStr.lower_char c.
Proof.
  destruct c as [[] [] [] [] [] [] [] []]; reflexivity.
Qed.

Lemma lower_idempotent s : PyStr.lower (PyStr.lower s) = PyStr.lower s.
Proof.
  induction s as [|c s IH]; simpl; [reflexivity|].
  now rewrite lower_char_idempotent, IH.
Qed.

Lemma contains_lower needle hay :
  PyStr.contains needle hay = true ->
  PyStr.contains (PyStr.lower needle) (PyStr.lower hay) = true.
Proof.
  intros H. apply StrFacts.contains_iff in H as [a [b ->]].
  apply StrFacts.contains_iff.
  exists (PyStr.lower a), (PyStr.lower b).
  now rewrite !StrFacts.lower_app.
Qed.

Lemma contains_trans a b c :
  PyStr.contains a b = true -> PyStr.contains b c = true ->
  PyStr.contains a c = true.
Proof.
  intros Hab Hbc.
  apply StrFacts.contains_iff in Hab as [p [q ->]].
  apply StrFacts.contains_iff in Hbc as [r [t ->]].
  apply StrFacts.contains_iff. exists (r ++ p)%string, (q ++ t)%string.
  now rewrite !StrFacts.append_assoc.
Qed.

(** ** The URL classifier, continued *)

(** X1: the test ['wikipedia.org' in url] of the wiki flag is subsumed by
    the test ['wiki' in url.lower()]; a URL with the wiki flag has a text
    hint, so the flag [has_text_in_url] that the crawl stores for the
    crawled URL itself is [contains_text_in_url] of that URL. *)
Theorem is_wiki_url_wiki_substring u :
  is_wiki_url u = PyStr.contains "wiki" (PyStr.lower u) /\
  (is_wiki_url u = true -> contains_text_in_url u = true) /\
  (if is_wiki_url u then true else contains_text_in_url u)
  = contains_text_in_url u.
Proof.
  assert (H1 : is_wiki_url u = PyStr.contains "wiki" (PyStr.lower u)).
  { unfold is_wiki_url.
    destruct (PyStr.contains "wikipedia.org" u) eqn:Hw; [|reflexivity].
    apply contains_lower in Hw. simpl. symmetry.
    apply (contains_trans "wiki" (PyStr.lower "wikipedia.org"));
      [reflexivity | exact Hw]. }
  assert (H2 : is_wiki_url u = true -> contains_text_in_url u = true).
  { rewrite H1. intros H. unfold contains_text_in_url.
    apply existsb_exists. exists "wiki"%string. split; [|exact H].
    unfold text_indicators. simpl. tauto. }
  split; [exact H1|]. split; [exact H2|].
  destruct (is_wiki_url u); [now rewrite H2 | reflexivity].
Qed.

(** X2: [contains_text_in_url] does not depend on the case of the URL, and
    a URL that contains a URL with a text hint has a text hint. *)
Theorem contains_text_in_url_stable u v :
  contains_text_in_url (PyStr.lower u) = contains_text_in_url u /\
  (PyStr.contains u v = true ->
   contains_text_in_url u = true -> contains_text_in_url v = true).
Proof.
  split.
  - unfold contains_text_in_url. now rewrite lower_idempotent.
  - unfold contains_text_in_url. intros Huv Hu.
    apply existsb_exists in Hu as [w [Hin Hw]].
    apply existsb_exists. exists w. split; [exact Hin|].
    apply (contains_trans w (PyStr.lower u)); [exact Hw|].
    now apply contains_lower.
Qed.

Lemma contains_text_in_url_stable_witness :
  PyStr.contains "/blog/" "https://x.com/blog/2024?page=2" = true /\
  contains_text_in_url "/blog/" = true /\
  contains_text_in_url "https://x.com/blog/2024?page=2" = true.
Proof.
  split; [reflexivity|]. split; [reflexivity|].
  exact (proj2 (contains_text_in_url_stable "/blog/"
                  "https://x.com/blog/2024?page=2") eq_refl eq_refl).
Defined.

(** ** Splitting and joining *)

Lemma split_aux_space c t cur :
  PyStr.isspace c = true ->
  PyStr.split_aux cur (String c t) = flush_token cur ++ PyStr.split_aux [] t.
Proof. intros H. simpl. rewrite H. destruct cur; reflexivity. Qed.

Lemma split_aux_whitespace u : forall rest,
  all_whitespace u = true ->
  PyStr.split_aux [] (u ++ rest) = PyStr.split_aux [] rest.
Proof.
  induction u as [|c u IH]; intros rest H; simpl in *; [reflexivity|].
  apply andb_true_iff in H as [Hc Hu]. rewrite Hc. now apply IH.
Qed.

(** A non-empty run of whitespace ends the current token, whatever the
    run is. *)
Lemma split_aux_separator u cur rest :
  u <> ""%string -> all_whitespace u = true ->
  PyStr.split_aux cur (u ++ rest) = flush_token cur ++ PyStr.split_aux [] rest.
Proof.
  destruct u as [|c u]; [congruence|]. intros _ H. simpl in H.
  apply andb_true_iff in H as [Hc Hu].
  change (String c u ++ rest)%string with (String c (u ++ rest)).
  rewrite split_aux_space by exact Hc. now rewrite split_aux_whitespace.
Qed.

Lemma split_aux_word tok : forall cur rest,
  Forall (fun c => PyStr.isspace c = false) (list_ascii_of_string tok) ->
  PyStr.split_aux cur (tok ++ rest)
  = PyStr.split_aux (rev (list_ascii_of_string tok) ++ cur) rest.
Proof.
  induction tok as [|c tok IH]; intros cur rest H; simpl in *; [reflexivity|].
  inversion H as [|? ? Hc Htok]; subst. rewrite Hc, IH by exact Htok.
  now rewrite <- app_assoc.
Qed.

Lemma flush_word tok :
  tok <> ""%string ->
  flush_token (rev (list_ascii_of_string tok)) = [tok].
Proof.
  intros Hne. unfold flush_token.
  destruct (rev (list_ascii_of_string tok)) as [|x l] eqn:Hrev.
  - apply (f_equal (@rev ascii)) in Hrev. rewrite rev_involutive in Hrev.
    simpl in Hrev. apply (f_equal string_of_list_ascii) in Hrev.
    rewrite string_of_list_ascii_of_string in Hrev. contradiction.
  - rewrite <- Hrev, rev_involutive, string_of_list_ascii_of_string.
    reflexivity.
Qed.

(** Splitting the join of words gives the words back. *)
Lemma split_join toks :
  Forall (fun tok => tok <> ""%string /\
                     Forall (fun c => PyStr.isspace c = false)
                       (list_ascii_of_string tok)) toks ->
  PyStr.split (PyStr.join " " toks) = toks.
Proof.
  unfold PyStr.split. induction toks as [|p toks IH]; intros H;
    [reflexivity|].
  inversion H as [|? ? [Hne Hp] Htoks]; subst.
  destruct toks as [|q toks].
  - cbn [PyStr.join].
    replace (PyStr.split_aux [] p) with (PyStr.split_aux [] (p ++ ""))
      by (now rewrite StrFacts.append_nil_r).
    rewrite split_aux_word by exact Hp. rewrite app_nil_r.
    change (PyStr.split_aux ?cur "") with (flush_token cur).
    now apply flush_word.
  - change (PyStr.join " " (p :: q :: toks))
      with (p ++ String " " (PyStr.join " " (q :: toks)))%string.
    rewrite split_aux_word by exact Hp. rewrite app_nil_r.
    rewrite split_aux_space by reflexivity.
    rewrite flush_word by exact Hne. simpl. f_equal. now apply IH.
Qed.

Lemma split_tokens s :
  Forall (fun tok => tok <> ""%string /\
                     Forall (fun c => PyStr.isspace c = false)
                       (list_ascii_of_string tok)) (PyStr.split s).
Proof. apply split_aux_tokens. constructor. Qed.

Lemma split_join_split s :
  PyStr.split (PyStr.join " " (PyStr.split s)) = PyStr.split s.
Proof. apply split_join, split_tokens. Qed.

(** ** The helpers outside the routes *)

(** X3: [scrape_link] sends one request and writes nothing to the store;
    the content of a success has the words of the page text, in order,
    one space apart and without whitespace at either end; the error of a
    failure is the text of the exception, without a prefix. *)
Theorem scrape_link_single_spaced E url w :
  requested (snd (scrape_link E url w)) = requested w ++ [url] /\
  Links_to_scrap (snd (scrape_link E url w)) = Links_to_scrap w /\
  Processed_Links (snd (scrape_link E url w)) = Processed_Links w /\
  Content_Links (snd (scrape_link E url w)) = Content_Links w /\
  scrapped_text (snd (scrape_link E url w)) = scrapped_text w /\
  match http_get E (List.length (requested w)) url with
  | Fetched pg =>
      exists content,
        fst (scrape_link E url w) = ScrapeLinkSuccess content /\
        single_spaced content /\
        PyStr.split content = PyStr.split (pg_text pg)
  | RequestException msg => fst (scrape_link E url w) = ScrapeLinkError msg
  | OtherException msg => fst (scrape_link E url w) = ScrapeLinkError msg
  end.
Proof.
  unfold scrape_link.
  destruct (http_get E (List.length (requested w)) url) as [pg|msg|msg];
    cbn [fst snd]; repeat split.
  eexists. split; [reflexivity|]. unfold single_spaced.
  now rewrite split_join_split.
Qed.

(** X4: [extract_urls_from_page] sends one request and writes nothing to
    the store; on a page it returns the URLs that the crawl keeps in
    default mode before it removes duplicates, [links_found] is their
    number, and each of them passes [is_valid_url] and
    [is_valid_content_url]; a failure is reported with the prefix
    [Request error: ] or [Error: ]. *)
Theorem extract_urls_from_page_default_mode E url w :
  requested (snd (extract_urls_from_page E url w)) = requested w ++ [url] /\
  Links_to_scrap (snd (extract_urls_from_page E url w)) = Links_to_scrap w /\
  Processed_Links (snd (extract_urls_from_page E url w))
  = Processed_Links w /\
  Content_Links (snd (extract_urls_from_page E url w)) = Content_Links w /\
  scrapped_text (snd (extract_urls_from_page E url w)) = scrapped_text w /\
  match http_get E (List.length (requested w)) url with
  | Fetched pg =>
      exists links,
        fst (extract_urls_from_page E url w)
        = ExtractSuccess url (List.length links) links /\
        links = valid_urls_of E false url pg /\
        Forall (fun link => is_valid_url E link = true /\
                            is_valid_content_url link = true) links
  | RequestException msg =>
      fst (extract_urls_from_page E url w)
      = ExtractError url ("Request error: " ++ msg)
  | OtherException msg =>
      fst (extract_urls_from_page E url w)
      = ExtractError url ("Error: " ++ msg)
  end.
Proof.
  unfold extract_urls_from_page.
  destruct (http_get E (List.length (requested w)) url) as [pg|msg|msg];
    cbn [fst snd]; repeat split.
  eexists. split; [reflexivity|]. split; [reflexivity|].
  apply Forall_forall. intros link Hin.
  apply in_flat_map in Hin as [href [_ Hin]].
  unfold page_anchor_urls in Hin.
  destruct (skipped_href _); [destruct Hin|].
  destruct (urljoin E _ _) as [full_url|]; [|destruct Hin].
  destruct (is_valid_url E full_url) eqn:H1;
    destruct (is_valid_content_url full_url) eqn:H2;
    simpl in Hin; try tauto.
  destruct Hin as [<-|[]]. auto.
Qed.

(** ** The post-processing of the extracted text *)

Lemma all_whitespace_app u v :
  all_whitespace (u ++ v) = all_whitespace u && all_whitespace v.
Proof.
  induction u as [|c u IH]; simpl; [reflexivity|].
  now rewrite IH, andb_assoc.
Qed.

Lemma lang_star_whitespace ws :
  Regex.lang (Regex.Star (Regex.Atom PyStr.isspace)) ws ->
  all_whitespace ws = true.
Proof.
  intros H. remember (Regex.Star (Regex.Atom PyStr.isspace)) as r eqn:Hr.
  induction H as [ | | | | | a | a u v Hu _ Hv IHv ]; try discriminate.
  - reflexivity.
  - injection Hr as ->. rewrite all_whitespace_app, IHv by reflexivity.
    apply RegexFacts.lang_atom_inv in Hu as [c [-> Hc]]. simpl.
    now rewrite Hc.
Qed.

(** A match of [r'\n\s*\n'] is a run of at least two whitespace
    characters. *)
Lemma blank_lines_match u :
  Regex.lang blank_lines_re u ->
  all_whitespace u = true /\ 2 <= String.length u.
Proof.
  intros H. unfold blank_lines_re, Regex.chr in H.
  apply RegexFacts.lang_cat_inv in H as [a [b [-> [Ha Hb]]]].
  apply RegexFacts.lang_cat_inv in Hb as [ws [c [-> [Hws Hc]]]].
  apply RegexFacts.lang_atom_inv in Ha as [x [-> Hx]].
  apply RegexFacts.lang_atom_inv in Hc as [y [-> Hy]].
  apply Ascii.eqb_eq in Hx, Hy. subst x y.
  apply lang_star_whitespace in Hws. split.
  - simpl. now rewrite all_whitespace_app, Hws.
  - simpl. rewrite StrFacts.length_app. simpl. lia.
Qed.

Lemma sub_fuel_blank_lines fuel : forall s cur,
  PyStr.split_aux cur (Regex.sub_fuel fuel blank_lines_re (NL ++ NL) s)
  = PyStr.split_aux cur s /\
  String.length (Regex.sub_fuel fuel blank_lines_re (NL ++ NL) s)
  <= String.length s.
Proof.
  induction fuel as [|fuel IH]; intros s cur; [simpl; auto|].
  destruct s as [|c t]; [simpl; auto|].
  cbn [Regex.sub_fuel].
  assert (Hkeep :
            PyStr.split_aux cur
              (String c (Regex.sub_fuel fuel blank_lines_re (NL ++ NL) t))
            = PyStr.split_aux cur (String c t) /\
            String.length
              (String c (Regex.sub_fuel fuel blank_lines_re (NL ++ NL) t))
            <= String.length (String c t)).
  { split.
    - simpl. destruct (PyStr.isspace c).
      + destruct cur; [apply IH | f_equal; apply IH].
      + apply IH.
    - simpl. apply le_n_S, (IH t []). }
  destruct (Regex.longest_match blank_lines_re (String c t)) as [rest|]
    eqn:Hm; [|exact Hkeep].
  destruct (String.length rest <? String.length (String c t))%nat;
    [|exact Hkeep].
  apply RegexFacts.longest_match_sound in Hm as [u [Hs Hu]].
  apply blank_lines_match in Hu as [Hws Hlen].
  rewrite Hs. split.
  - rewrite !split_aux_separator; try assumption.
    + f_equal. apply IH.
    + intros ->. simpl in Hlen. lia.
    + discriminate.
    + reflexivity.
  - rewrite (StrFacts.length_app u rest), (StrFacts.length_app (NL ++ NL)).
    pose proof (proj2 (IH rest [])) as Hr.
    change (String.length (NL ++ NL)) with 2. lia.
Qed.

(** X5: the substitution that collapses blank lines changes whitespace
    only: the processed text has the words of the text, in order, and is
    not longer. *)
Theorem blank_line_collapse_keeps_words s :
  PyStr.split (Regex.sub blank_lines_re (NL ++ NL) s) = PyStr.split s /\
  String.length (Regex.sub blank_lines_re (NL ++ NL) s) <= String.length s.
Proof. apply sub_fuel_blank_lines. Qed.

(** ** The words of an extracted text *)

Lemma token_starts_app_space a : forall in_token c rest,
  PyStr.isspace c = true ->
  token_starts in_token (a ++ String c rest)
  = token_starts in_token a + token_starts false rest.
Proof.
  induction a as [|x a IH]; intros in_token c rest Hc; simpl.
  - now rewrite Hc.
  - destruct (PyStr.isspace x); rewrite IH by exact Hc; lia.
Qed.

Lemma tokens_join_blank_line parts :
  whitespace_delimited_tokens (PyStr.join (NL ++ NL) parts)
  = list_sum (map whitespace_delimited_tokens parts).
Proof.
  unfold whitespace_delimited_tokens.
  induction parts as [|p parts IH]; [reflexivity|].
  destruct parts as [|q parts].
  - simpl. lia.
  - change (PyStr.join (NL ++ NL) (p :: q :: parts))
      with (p ++ String PyStr.nl
                   (String PyStr.nl
                      (PyStr.join (NL ++ NL) (q :: parts))))%string.
    rewrite token_starts_app_space by reflexivity.
    cbn [map list_sum fold_right] in *. rewrite <- IH. reflexivity.
Qed.

Lemma tokens_after_collapse s :
  whitespace_delimited_tokens (Regex.sub blank_lines_re (NL ++ NL) s)
  = whitespace_delimited_tokens s.
Proof.
  rewrite <- !split_length. f_equal. apply sub_fuel_blank_lines.
Qed.

Lemma tokens_under_heading title body :
  whitespace_delimited_tokens ("# " ++ title ++ NL ++ NL ++ body)
  = 1 + whitespace_delimited_tokens title + whitespace_delimited_tokens body.
Proof.
  unfold whitespace_delimited_tokens.
  change ("# " ++ title ++ NL ++ NL ++ body)%string
    with (String "#" (String " "
            (title ++ String PyStr.nl (String PyStr.nl body)))).
  cbn [token_starts]. change (PyStr.isspace "#") with false.
  change (PyStr.isspace " ") with true. cbn iota.
  rewrite token_starts_app_space by reflexivity. simpl. lia.
Qed.

(** X6: the number of words of an extracted text.  In default mode it is
    one, for the heading marker, plus the words of the title and of the
    page text; in wiki mode with a main-content region it is one plus the
    words of the title and of the text parts; in wiki mode without one it
    is the number of words of the page text. *)
Theorem extract_text_word_count pg :
  whitespace_delimited_tokens (extract_text false pg)
  = 1 + whitespace_delimited_tokens (title_text_of pg)
    + whitespace_delimited_tokens (pg_text pg) /\
  whitespace_delimited_tokens (extract_text true pg)
  = match pg_content_div pg with
    | Some content_div =>
        1 + whitespace_delimited_tokens (title_text_of pg)
        + list_sum (map whitespace_delimited_tokens
                      (wiki_text_parts content_div))
    | None => whitespace_delimited_tokens (pg_text pg)
    end.
Proof.
  unfold extract_text. rewrite !tokens_after_collapse. split.
  - apply tokens_under_heading.
  - destruct (pg_content_div pg) as [content_div|]; [|reflexivity].
    now rewrite tokens_under_heading, tokens_join_blank_line.
Qed.

(** ** The crawl engine, continued *)

Lemma update_one_at {A : Type} (key : A -> nat) (set : A -> A) (l : list A)
    (x : A) :
  In x l -> NoDup (map key l) ->
  exists l1 l2,
    l = l1 ++ x :: l2 /\
    forall tail,
      update_one (fun e => Nat.eqb (key e) (key x)) set (l ++ tail)
      = l1 ++ set x :: l2 ++ tail.
Proof.
  intros Hin Hnd. apply in_split in Hin as [l1 [l2 ->]].
  exists l1, l2. split; [reflexivity|]. intros tail.
  rewrite map_app in Hnd. cbn [map] in Hnd.
  apply NoDup_remove_2 in Hnd.
  assert (Hl1 : forall e, In e l1 -> Nat.eqb (key e) (key x) = false).
  { intros e He. apply Nat.eqb_neq. intros Heq. apply Hnd.
    apply in_or_app. left. rewrite <- Heq. now apply in_map. }
  clear Hnd. rewrite <- app_assoc. cbn [app].
  induction l1 as [|a l1 IH]; cbn [app update_one].
  - now rewrite Nat.eqb_refl.
  - rewrite (Hl1 a) by now left. f_equal. apply IH.
    intros e He. apply Hl1. now right.
Qed.

Lemma grows_refl w : grows w w.
Proof.
  exists [], []. rewrite !app_nil_r. repeat split; auto; constructor.
Qed.

Lemma grows_trans w1 w2 w3 : grows w1 w2 -> grows w2 w3 -> grows w1 w3.
Proof.
  intros (nl1 & nt1 & L1 & T1 & C1 & S1 & R1 & N1 & F1 & D1 & G1)
         (nl2 & nt2 & L2 & T2 & C2 & S2 & R2 & N2 & F2 & D2 & G2).
  exists (nl1 ++ nl2), (nt1 ++ nt2).
  rewrite L2, L1, T2, T1, !app_assoc.
  split; [reflexivity|]. split; [reflexivity|].
  split; [congruence|]. split; [congruence|]. split; [congruence|].
  split; [lia|]. split; [|split].
  - apply Forall_app. split.
    + eapply Forall_impl; [|exact F1]. simpl. intros e (?&?&?).
      repeat split; auto; lia.
    + eapply Forall_impl; [|exact F2]. simpl. intros e (?&?&?).
      repeat split; auto; lia.
  - rewrite map_app. apply NoDup_app; auto.
    intros id H1 H2.
    apply in_map_iff in H1 as [e1 [<- H1]].
    apply in_map_iff in H2 as [e2 [Heq H2]].
    rewrite Forall_forall in F1, F2.
    apply F1 in H1 as (_ & _ & H1). apply F2 in H2 as (_ & _ & H2). lia.
  - apply Forall_app. auto.
Qed.

Lemma grows_insert_link w link source_url depth :
  grows w (insert_link w link source_url depth).
Proof.
  eexists [_], []. cbn [insert_link Links_to_scrap Processed_Links
                         Content_Links scrapped_text requested next_id].
  rewrite app_nil_r. repeat split; auto.
  - repeat constructor; simpl; lia.
  - repeat constructor. simpl. tauto.
Qed.

Lemma grows_insert_task w link source_url has_text depth :
  grows w (insert_task w link source_url has_text depth).
Proof.
  eexists [], [_]. cbn [insert_task Links_to_scrap Processed_Links
                         Content_Links scrapped_text requested next_id].
  rewrite app_nil_r. repeat split; auto; repeat constructor.
Qed.

Section CrawlExact.

Variable E : Env.

Lemma grows_add_discovered is_wiki u d w link :
  grows w (add_discovered is_wiki u d w link).
Proof.
  unfold add_discovered.
  set (w1 := match find_link link w with
             | None => insert_link w link (Some u) (d + 1)
             | Some _ => w
             end).
  assert (H1 : grows w w1).
  { subst w1. destruct (find_link link w);
      [apply grows_refl | apply grows_insert_link]. }
  eapply grows_trans; [exact H1|].
  destruct (is_wiki || contains_text_in_url link); [|apply grows_refl].
  destruct (find_task link w1); [apply grows_refl|].
  apply grows_insert_task.
Qed.

Lemma grows_fold_add_discovered is_wiki u d links : forall w,
  grows w (fold_left (add_discovered is_wiki u d) links w).
Proof.
  induction links as [|link links IH]; intros w; simpl.
  - apply grows_refl.
  - eapply grows_trans; [apply grows_add_discovered | apply IH].
Qed.

(** The store after the iteration that crawls [link_doc]. *)
Lemma crawl_step_exact url i w link_doc :
  select_candidate url i w = Some link_doc ->
  let r := http_get E (List.length (requested w)) (le_link link_doc) in
  let w' := fst (crawl_step E url i w) in
  snd (crawl_step E url i w) = None /\
  exists new_links new_tasks,
    Links_to_scrap w'
    = update_one (fun e => Nat.eqb (le_id e) (le_id link_doc))
        (set_crawled (crawl_recorded_error r))
        (Links_to_scrap w ++ new_links) /\
    Processed_Links w' = Processed_Links w ++ new_tasks /\
    Content_Links w'
    = Content_Links w ++ snapshot_of E link_doc (next_id w) r /\
    scrapped_text w' = scrapped_text w /\
    requested w' = requested w ++ [le_link link_doc] /\
    next_id w <= next_id w' /\
    Forall (fun e => le_is_crawled e = false /\ le_error e = None /\
                     next_id w <= le_id e < next_id w') new_links /\
    NoDup (map le_id new_links) /\
    Forall (fun t => ct_is_processed t = false /\ ct_error t = None)
      new_tasks /\
    match r with
    | Fetched _ => True
    | _ => new_links = [] /\ new_tasks = []
    end.
Proof.
  intros Hsel r w'. subst r w'. unfold crawl_step. rewrite Hsel.
  destruct (http_get E (List.length (requested w)) (le_link link_doc))
    as [pg|msg|msg]; cbn [fst snd crawl_recorded_error snapshot_of].
  - split; [reflexivity|]. unfold crawl_page.
    fold (stored_depth link_doc).
    set (u := le_link link_doc). set (d := stored_depth link_doc).
    set (ls := unique_links_of E (is_wiki_url u) u pg).
    set (w1 := insert_snapshot (send_request w u) u ls d).
    pose proof (grows_fold_add_discovered (is_wiki_url u) u d ls w1) as H2.
    set (w2 := fold_left (add_discovered (is_wiki_url u) u d) ls w1) in *.
    destruct H2 as (nl & nt & L2 & T2 & C2 & S2 & R2 & N2 & F2 & D2 & G2).
    cbn [w1 insert_snapshot send_request Links_to_scrap Processed_Links
            Content_Links scrapped_text requested next_id] in *.
    set (w3 := update_link w2 (le_id link_doc) None).
    assert (Hfresh : forall n, next_id w2 <= n ->
              Forall (fun e => le_is_crawled e = false /\ le_error e = None /\
                               next_id w <= le_id e < n) nl).
    { intros n Hn. eapply Forall_impl; [|exact F2]. simpl.
      intros e (?&?&?). repeat split; auto; lia. }
    destruct (find_task u w3).
    + exists nl, nt. cbn [w3 update_link Links_to_scrap Processed_Links
                            Content_Links scrapped_text requested next_id].
      rewrite L2. repeat split; auto; try lia; try (apply Hfresh; lia).
    + eexists nl, (nt ++ [_]).
      cbn [insert_task w3 update_link Links_to_scrap Processed_Links
             Content_Links scrapped_text requested next_id].
      rewrite L2, T2, app_assoc.
      repeat split; auto; try lia; try (apply Hfresh; lia).
      apply Forall_app. split; [exact G2|]. repeat constructor.
  - split; [reflexivity|]. exists [], [].
    cbn [update_link send_request Links_to_scrap Processed_Links
           Content_Links scrapped_text requested next_id].
    rewrite !app_nil_r. repeat split; auto; constructor.
  - split; [reflexivity|]. exists [], [].
    cbn [update_link send_request Links_to_scrap Processed_Links
           Content_Links scrapped_text requested next_id].
    rewrite !app_nil_r. repeat split; auto; constructor.
Qed.

End CrawlExact.

Section CrawlMore.

Variable E : Env.

(** X7: the candidate of an iteration is an entry of the frontier that is
    not crawled yet, so an entry that was crawled, with or without an
    error, is never selected again; there is no candidate exactly when
    every entry is crawled; in the first iteration after seeding, an
    uncrawled entry for the seed URL makes the candidate an entry for
    that URL. *)
Theorem select_candidate_uncrawled url i w :
  (select_candidate url i w = None
   <-> Forall (fun e => le_is_crawled e = true) (Links_to_scrap w)) /\
  (forall e, select_candidate url i w = Some e ->
             In e (Links_to_scrap w) /\ le_is_crawled e = false) /\
  (forall u e0,
      url = Some u -> PyStr.truthy u = true -> i = 0 ->
      In e0 (Links_to_scrap w) -> le_is_crawled e0 = false ->
      le_link e0 = u ->
      exists e, select_candidate url i w = Some e /\ le_link e = u).
Proof.
  unfold select_candidate.
  match goal with |- context [find ?q (Links_to_scrap w)] =>
    set (query := q) end.
  assert (Hq : forall e, query e = true -> uncrawled e = true).
  { intros e He. unfold query in He. now apply andb_true_iff in He. }
  split; [|split].
  - destruct (find query (Links_to_scrap w)) as [e|] eqn:Hf.
    + split; [discriminate|]. intros Hall. apply find_some in Hf as [Hin He].
      rewrite Forall_forall in Hall. apply Hall in Hin.
      apply Hq in He. unfold uncrawled in He. rewrite Hin in He.
      discriminate.
    + split.
      * intros Hnone. apply Forall_forall. intros e Hin.
        apply (find_none _ _ Hnone) in Hin. unfold uncrawled in Hin.
        now destruct (le_is_crawled e).
      * intros Hall.
        destruct (find uncrawled (Links_to_scrap w)) as [e|] eqn:Hu;
          [|reflexivity].
        apply find_some in Hu as [Hin He]. rewrite Forall_forall in Hall.
        apply Hall in Hin. unfold uncrawled in He. rewrite Hin in He.
        discriminate.
  - intros e. destruct (find query (Links_to_scrap w)) as [e'|] eqn:Hf.
    + intros H; injection H as <-. apply find_some in Hf as [Hin He].
      split; [exact Hin|]. apply Hq in He. unfold uncrawled in He.
      now destruct (le_is_crawled e').
    + intros Hu. apply find_some in Hu as [Hin He]. split; [exact Hin|].
      unfold uncrawled in He. now destruct (le_is_crawled e).
  - intros u e0 -> Hu -> Hin Hun Hlink.
    destruct (find query (Links_to_scrap w)) as [e|] eqn:Hf.
    + exists e. split; [reflexivity|]. apply find_some in Hf as [_ He].
      unfold query in He. rewrite Hu in He. simpl in He.
      apply andb_true_iff in He as [_ He]. now apply String.eqb_eq in He.
    + exfalso. apply (find_none _ _ Hf) in Hin. unfold query in Hin.
      rewrite Hu in Hin. simpl in Hin. unfold uncrawled in Hin.
      rewrite Hun, Hlink, String.eqb_refl in Hin. discriminate.
Qed.

(** The frontier after the iteration that crawls [link_doc], when the
    identifiers are distinct. *)
Lemma crawl_step_frontier url i w link_doc :
  NoDup (map le_id (Links_to_scrap w)) ->
  select_candidate url i w = Some link_doc ->
  let r := http_get E (List.length (requested w)) (le_link link_doc) in
  let w' := fst (crawl_step E url i w) in
  exists l1 l2 new_links,
    Links_to_scrap w = l1 ++ link_doc :: l2 /\
    Links_to_scrap w'
    = l1 ++ set_crawled (crawl_recorded_error r) link_doc :: l2 ++ new_links /\
    Forall (fun e => le_is_crawled e = false /\ le_error e = None /\
                     next_id w <= le_id e < next_id w') new_links /\
    NoDup (map le_id new_links) /\
    next_id w <= next_id w' /\
    match r with
    | Fetched _ => True
    | _ => new_links = []
    end.
Proof.
  intros Hnd Hsel r w'.
  pose proof (crawl_step_exact E url i w link_doc Hsel) as H.
  cbv zeta in H. fold r w' in H.
  destruct H as (_ & nl & nt & HL & _ & _ & _ & _ & Hn & Fl & Dl & _ & Hr).
  apply select_candidate_in in Hsel.
  destruct (update_one_at le_id (set_crawled (crawl_recorded_error r))
              (Links_to_scrap w) link_doc Hsel Hnd) as (l1 & l2 & Hw & Hup).
  exists l1, l2, nl. rewrite HL, Hup. repeat split; auto.
  destruct r; tauto.
Qed.

(** X8: with distinct identifiers in the frontier, the iteration that
    crawls an entry replaces it, in place, by the entry marked crawled
    (with the error [Request error: ...] or [Error: ...] when the request
    or the extraction fails), leaves every other entry as it is, appends
    the uncrawled entries of the links it discovers (none after a
    failure), stores one snapshot after a success and none after a
    failure, and sends one request, to the URL of the entry. *)
Theorem crawl_step_marks_candidate url i w link_doc :
  NoDup (map le_id (Links_to_scrap w)) ->
  select_candidate url i w = Some link_doc ->
  let r := http_get E (List.length (requested w)) (le_link link_doc) in
  let w' := fst (crawl_step E url i w) in
  (exists l1 l2 new_links,
      Links_to_scrap w = l1 ++ link_doc :: l2 /\
      Links_to_scrap w'
      = l1 ++ set_crawled (crawl_recorded_error r) link_doc :: l2
           ++ new_links /\
      Forall (fun e => le_is_crawled e = false /\ le_error e = None)
        new_links /\
      match r with
      | Fetched _ => True
      | _ => new_links = []
      end) /\
  Content_Links w'
  = Content_Links w ++ snapshot_of E link_doc (next_id w) r /\
  requested w' = requested w ++ [le_link link_doc].
Proof.
  intros Hnd Hsel r w'.
  destruct (crawl_step_frontier url i w link_doc Hnd Hsel)
    as (l1 & l2 & nl & Hw & Hw' & Fl & _ & _ & Hr).
  pose proof (crawl_step_exact E url i w link_doc Hsel) as H.
  cbv zeta in H. fold r w' in H.
  destruct H as (_ & _ & _ & _ & _ & HC & _ & HR & _).
  split; [|split; assumption].
  exists l1, l2, nl. repeat split; auto.
  eapply Forall_impl; [|exact Fl]. simpl. tauto.
Qed.

End CrawlMore.

Lemma crawl_step_marks_candidate_witness :
  NoDup (map le_id (Links_to_scrap Sample.world_1)) /\
  requested (fst (crawl_step Sample.env None 0 Sample.world_1))
  = requested Sample.world_1 ++ ["https://a.test/blog/a"%string].
Proof.
  assert (H : NoDup (map le_id (Links_to_scrap Sample.world_1)))
    by (simpl; repeat constructor; simpl; intuition discriminate).
  split; [exact H|].
  exact (proj2 (proj2 (crawl_step_marks_candidate Sample.env None 0
                         Sample.world_1
                         (mkLinkEntry 1 "https://a.test/blog/a" false
                            (Some "https://a.test"%string) (Some 1%Z) None)
                         H eq_refl))).
Defined.

Section CrawlRuns.

Variable E : Env.

Lemma kept_when_crawled_refl e : kept_when_crawled e e.
Proof. intros _. reflexivity. Qed.

Lemma Forall2_kept_refl l : Forall2 kept_when_crawled l l.
Proof. induction l; constructor; auto using kept_when_crawled_refl. Qed.

Lemma Forall2_kept_trans a b c :
  Forall2 kept_when_crawled a b -> Forall2 kept_when_crawled b c ->
  Forall2 kept_when_crawled a c.
Proof.
  intros Hab. revert c. induction Hab as [|x y a b Hxy _ IH]; intros c Hbc.
  - inversion Hbc. constructor.
  - inversion Hbc as [|y' z b' c' Hyz Hbc']; subst. constructor; [|auto].
    intros Hx. specialize (Hxy Hx). subst y. auto.
Qed.

Lemma Forall2_kept_nth a b : Forall2 kept_when_crawled a b ->
  forall i e tail,
    nth_error a i = Some e -> le_is_crawled e = true ->
    nth_error (b ++ tail) i = Some e.
Proof.
  induction 1 as [|x y a b Hxy _ IH]; intros i e tail Hi He.
  - destruct i; discriminate.
  - destruct i as [|i]; simpl in *.
    + injection Hi as ->. now rewrite (Hxy He).
    + eauto.
Qed.

(** The identifiers of the frontier stay distinct, and the crawled entries
    stay as they are, in an iteration. *)
Lemma crawl_step_keeps url i w :
  link_ids_fresh w ->
  link_ids_fresh (fst (crawl_step E url i w)) /\
  exists old new_links,
    Links_to_scrap (fst (crawl_step E url i w)) = old ++ new_links /\
    Forall2 kept_when_crawled (Links_to_scrap w) old.
Proof.
  intros [Hnd Hlt].
  destruct (select_candidate url i w) as [link_doc|] eqn:Hsel.
  - destruct (crawl_step_frontier E url i w link_doc Hnd Hsel)
      as (l1 & l2 & nl & Hw & Hw' & Fl & Dl & Hn & _).
    apply select_candidate_some in Hsel as [_ Hun].
    split.
    + unfold link_ids_fresh. rewrite Hw'.
      replace (map le_id (l1 ++ set_crawled _ link_doc :: l2 ++ nl))
        with (map le_id (Links_to_scrap w) ++ map le_id nl)
        by (rewrite Hw, !map_app; cbn [map]; rewrite map_app, <- app_assoc;
            reflexivity).
      rewrite Forall_forall in Hlt, Fl. split.
      * apply NoDup_app; auto. intros id H1 H2.
        apply Hlt in H1. apply in_map_iff in H2 as [e [<- H2]].
        apply Fl in H2. lia.
      * apply Forall_forall. intros id Hin.
        apply in_app_or in Hin as [Hin|Hin].
        -- apply Hlt in Hin. lia.
        -- apply in_map_iff in Hin as [e [<- Hin]]. apply Fl in Hin. lia.
    + exists (l1 ++ set_crawled
                      (crawl_recorded_error
                         (http_get E (List.length (requested w))
                            (le_link link_doc))) link_doc :: l2), nl.
      rewrite Hw', Hw, <- app_assoc. split; [reflexivity|].
      apply Forall2_app; [apply Forall2_kept_refl|].
      constructor; [|apply Forall2_kept_refl].
      intros Hc. congruence.
  - unfold crawl_step. rewrite Hsel. cbn [fst]. split; [split; assumption|].
    exists (Links_to_scrap w), []. rewrite app_nil_r.
    split; [reflexivity | apply Forall2_kept_refl].
Qed.

Lemma crawl_loop_keeps url depths : forall w,
  link_ids_fresh w ->
  link_ids_fresh (fst (crawl_loop E url depths w)) /\
  exists old new_links,
    Links_to_scrap (fst (crawl_loop E url depths w)) = old ++ new_links /\
    Forall2 kept_when_crawled (Links_to_scrap w) old.
Proof.
  induction depths as [|i rest IH]; intros w Hw; simpl.
  - split; [exact Hw|]. exists (Links_to_scrap w), []. rewrite app_nil_r.
    split; [reflexivity | apply Forall2_kept_refl].
  - pose proof (crawl_step_keeps url i w Hw) as [H1 K1].
    destruct (crawl_step E url i w) as [w1 [response|]]; cbn [fst] in *.
    + auto.
    + destruct (IH w1 H1) as [H2 (o2 & n2 & L2 & F2)].
      split; [exact H2|].
      destruct K1 as (o1 & n1 & L1 & F1). rewrite L1 in F2.
      apply Forall2_app_inv_l in F2 as (o1' & n1' & Ho & _ & ->).
      exists o1', (n1' ++ n2). rewrite L2, app_assoc. split; [reflexivity|].
      eapply Forall2_kept_trans; eauto.
Qed.

Lemma recursive_crawl_keeps data w :
  link_ids_fresh w ->
  link_ids_fresh (snd (recursive_crawl E data w)) /\
  exists old new_links,
    Links_to_scrap (snd (recursive_crawl E data w)) = old ++ new_links /\
    Forall2 kept_when_crawled (Links_to_scrap w) old.
Proof.
  intros Hw.
  assert (Hsame : link_ids_fresh w /\
                  exists old new_links,
                    Links_to_scrap w = old ++ new_links /\
                    Forall2 kept_when_crawled (Links_to_scrap w) old).
  { split; [exact Hw|]. exists (Links_to_scrap w), []. rewrite app_nil_r.
    split; [reflexivity | apply Forall2_kept_refl]. }
  destruct (Links_to_scrap w) as [|e l] eqn:HL.
  - rewrite (recursive_crawl_empty E data w HL).
    destruct (read_seed E data) as [| |v|url pd];
      [cbn [snd]; rewrite HL; exact Hsame..|].
    rewrite crawl_from_world.
    match goal with |- context [crawl_loop E ?u ?ds ?w1] =>
      destruct (crawl_loop_keeps u ds w1) as [H1 _] end.
    { unfold link_ids_fresh. simpl. rewrite HL. simpl.
      split; repeat constructor. simpl. tauto. }
    split; [exact H1|]. eexists [], _. split; [reflexivity | constructor].
  - rewrite recursive_crawl_nonempty by (rewrite HL; discriminate).
    rewrite crawl_from_world. rewrite <- HL. now apply crawl_loop_keeps.
Qed.

(** X9: being crawled is terminal.  With distinct identifiers in the
    frontier, an invocation of [recursive_crawl] leaves every entry that
    is crawled already, with or without an error, as it is and where it
    is; no entry is removed, and the identifiers stay distinct. *)
Theorem crawled_entries_are_final data w :
  link_ids_fresh w ->
  (forall i e,
      nth_error (Links_to_scrap w) i = Some e -> le_is_crawled e = true ->
      nth_error (Links_to_scrap (snd (recursive_crawl E data w))) i = Some e) /\
  List.length (Links_to_scrap w)
  <= List.length (Links_to_scrap (snd (recursive_crawl E data w))) /\
  link_ids_fresh (snd (recursive_crawl E data w)).
Proof.
  intros Hw. destruct (recursive_crawl_keeps data w Hw)
    as [H1 (old & nl & HL & F)].
  split; [|split; [|exact H1]].
  - intros i e Hi He. rewrite HL.
    apply (Forall2_kept_nth _ _ F i e nl Hi He).
  - rewrite HL, length_app. apply Forall2_length in F. lia.
Qed.

(** *** The content queue, the snapshots and the requests of a crawl *)

Lemma queue_appended_refl w : queue_appended w w.
Proof.
  split; [|split; [|reflexivity]].
  - exists []. rewrite app_nil_r. auto.
  - exists []. now rewrite app_nil_r.
Qed.

Lemma queue_appended_trans w1 w2 w3 :
  queue_appended w1 w2 -> queue_appended w2 w3 -> queue_appended w1 w3.
Proof.
  intros ([t1 [T1 F1]] & [s1 C1] & S1) ([t2 [T2 F2]] & [s2 C2] & S2).
  split; [|split; [|congruence]].
  - exists (t1 ++ t2). rewrite T2, T1, app_assoc. split; [reflexivity|].
    apply Forall_app. auto.
  - exists (s1 ++ s2). now rewrite C2, C1, app_assoc.
Qed.

Lemma crawl_step_queue url i w :
  queue_appended w (fst (crawl_step E url i w)).
Proof.
  destruct (select_candidate url i w) as [link_doc|] eqn:Hsel.
  - pose proof (crawl_step_exact E url i w link_doc Hsel) as H.
    cbv zeta in H.
    destruct H as (_ & nl & nt & _ & HT & HC & HS & _ & _ & _ & _ & Ft & _).
    split; [|split; [|exact HS]]; eauto.
  - unfold crawl_step. rewrite Hsel. apply queue_appended_refl.
Qed.

Lemma crawl_loop_queue url depths : forall w,
  queue_appended w (fst (crawl_loop E url depths w)).
Proof.
  induction depths as [|i rest IH]; intros w; simpl.
  - apply queue_appended_refl.
  - pose proof (crawl_step_queue url i w) as H1.
    destruct (crawl_step E url i w) as [w1 [response|]]; cbn [fst] in *.
    + exact H1.
    + eapply queue_appended_trans; [exact H1 | apply IH].
Qed.

(** X10: an invocation of [recursive_crawl] only appends to the content
    queue and to the snapshots: the tasks that were there stay as they
    are, the tasks it adds are pending and carry no error, and the scraped
    documents are not touched. *)
Theorem recursive_crawl_appends_pending_tasks data w :
  (exists new_tasks,
      Processed_Links (snd (recursive_crawl E data w))
      = Processed_Links w ++ new_tasks /\
      Forall (fun t => ct_is_processed t = false /\ ct_error t = None)
        new_tasks) /\
  (exists snapshots,
      Content_Links (snd (recursive_crawl E data w))
      = Content_Links w ++ snapshots) /\
  scrapped_text (snd (recursive_crawl E data w)) = scrapped_text w.
Proof.
  change (queue_appended w (snd (recursive_crawl E data w))).
  rewrite recursive_crawl_read. destruct (Nat.eqb _ 0).
  - destruct (read_seed E data) as [| |v|url pd];
      [apply queue_appended_refl..|].
    rewrite crawl_from_world.
    eapply queue_appended_trans; [|apply crawl_loop_queue].
    split; [|split; [|reflexivity]].
    + exists []. rewrite app_nil_r. auto.
    + exists []. now rewrite app_nil_r.
  - rewrite crawl_from_world. apply crawl_loop_queue.
Qed.

End CrawlRuns.

Lemma sample_world_1_link_ids_fresh : link_ids_fresh Sample.world_1.
Proof.
  split; simpl.
  - repeat constructor; simpl; intuition discriminate.
  - repeat constructor.
Qed.

Lemma crawled_entries_are_final_witness :
  link_ids_fresh Sample.world_1 /\
  link_ids_fresh
    (snd (recursive_crawl Sample.env BodyNull
            Sample.world_1)).
Proof.
  split; [exact sample_world_1_link_ids_fresh|].
  exact (proj2 (proj2 (crawled_entries_are_final Sample.env
                         BodyNull Sample.world_1
                         sample_world_1_link_ids_fresh))).
Defined.

(** ** The responses of a crawl *)

Section CrawlResponses.

Variable E : Env.

Lemma crawl_loop_response url depths : forall w r,
  snd (crawl_loop E url depths w) = Some r ->
  exists d,
    In d depths /\ r = CrawlNoMoreLinks (Z.of_nat d) /\
    Forall (fun e => le_is_crawled e = true)
      (Links_to_scrap (fst (crawl_loop E url depths w))).
Proof.
  induction depths as [|i rest IH]; intros w r; simpl; [discriminate|].
  pose proof (crawl_step_spec E url i w) as Hs.
  destruct (select_candidate url i w) as [link_doc|] eqn:Hsel.
  - destruct Hs as (Hnone & _).
    destruct (crawl_step E url i w) as [w1 o]. cbn [snd] in Hnone. subst o.
    intros Hr. apply IH in Hr as (d & Hd & -> & Hall). eauto.
  - rewrite Hs. cbn [snd fst]. intros H; injection H as <-.
    exists i. split; [now left|]. split; [reflexivity|].
    now apply select_candidate_none in Hsel.
Qed.

(** The responses of the loop and of what follows it. *)
Lemma crawl_from_response url process_depth w :
  match fst (crawl_from E url process_depth w) with
  | CrawlNoMoreLinks k =>
      (0 <= k < process_depth)%Z /\
      Forall (fun e => le_is_crawled e = true)
        (Links_to_scrap (snd (crawl_from E url process_depth w)))
  | CrawlCompleted n stats =>
      n = process_depth /\ (1 <= process_depth)%Z /\
      stats = crawl_stats (snd (crawl_from E url process_depth w))
  | CrawlFailed =>
      (process_depth <= 0)%Z /\ snd (crawl_from E url process_depth w) = w
  | _ => False
  end.
Proof.
  unfold crawl_from.
  pose proof (crawl_loop_response url (seq 0 (Z.to_nat process_depth)) w) as Hr.
  destruct (crawl_loop E url (seq 0 (Z.to_nat process_depth)) w)
    as [w1 [r|]] eqn:Hloop; cbn [fst snd] in *.
  - destruct (Hr r eq_refl) as (d & Hd & -> & Hall).
    apply in_seq in Hd. split; [lia | exact Hall].
  - destruct (Z.to_nat process_depth) eqn:Hn; cbn [fst snd].
    + simpl in Hloop. injection Hloop as <-. split; [lia | reflexivity].
    + repeat split. lia.
Qed.

(** How the body is read, case by case. *)
Lemma py_getitem_some key data v :
  py_getitem key data = Some v ->
  py_truthy data = true /\ py_contains key data = Some true.
Proof.
  destruct data as [| | | | | |items]; try discriminate.
  cbn [py_getitem py_truthy py_contains]. intros H. rewrite H.
  destruct items; [discriminate | auto].
Qed.

Lemma read_seed_missing data :
  read_seed E data = SeedMissing
  <-> py_truthy data = false \/ py_contains "url" data = Some false.
Proof.
  unfold read_seed.
  destruct (py_truthy data) eqn:Ht;
    [|split; [now left | reflexivity]].
  destruct (py_contains "url" data) as [[|]|] eqn:Hc.
  - destruct (py_getitem "url" data) as [[]|];
      try destruct (is_valid_url E _);
      (split; [discriminate | intros [H|H]; discriminate]).
  - split; [now right | reflexivity].
  - split; [discriminate | intros [H|H]; discriminate].
Qed.

Lemma read_seed_raises data :
  read_seed E data = SeedRaises
  <-> py_truthy data = true /\
      (py_contains "url" data = None \/
       (py_contains "url" data = Some true /\ py_getitem "url" data = None)).
Proof.
  unfold read_seed.
  destruct (py_truthy data) eqn:Ht;
    [|split; [discriminate | intros [H _]; discriminate]].
  destruct (py_contains "url" data) as [[|]|] eqn:Hc.
  - destruct (py_getitem "url" data) as [[]|];
      try destruct (is_valid_url E _);
      try (split; [discriminate
                  | intros [_ [H|[_ H]]]; discriminate]).
    split; [auto | reflexivity].
  - split; [discriminate | intros [_ [H|[H _]]]; discriminate].
  - split; [auto | reflexivity].
Qed.

Lemma read_seed_rejected data v :
  read_seed E data = SeedRejected v
  <-> py_getitem "url" data = Some v /\ is_valid_url_value E v = false.
Proof.
  split.
  - unfold read_seed.
    destruct (if py_truthy data then py_contains "url" data else Some false)
      as [[|]|]; try discriminate.
    destruct (py_getitem "url" data) as [[]|]; try discriminate;
      try (intros H; injection H as <-; split; reflexivity).
    cbn [is_valid_url_value].
    destruct (is_valid_url E s) eqn:Hv; [discriminate|].
    intros H; injection H as <-. auto.
  - intros [Hget Hv]. unfold read_seed.
    destruct (py_getitem_some _ _ _ Hget) as [-> ->]. rewrite Hget.
    destruct v; try reflexivity.
    cbn [is_valid_url_value] in Hv. now rewrite Hv.
Qed.

Lemma read_seed_accepted data url process_depth :
  read_seed E data = SeedAccepted url process_depth
  <-> py_getitem "url" data = Some (JString url) /\
      is_valid_url E url = true /\ process_depth = depth_budget E data.
Proof.
  split.
  - unfold read_seed.
    destruct (if py_truthy data then py_contains "url" data else Some false)
      as [[|]|]; try discriminate.
    destruct (py_getitem "url" data) as [[]|]; try discriminate.
    destruct (is_valid_url E s) eqn:Hv; [|discriminate].
    intros H; injection H as <- <-. auto.
  - intros (Hget & Hv & ->).
    now rewrite (read_seed_supplied E data url Hget), Hv.
Qed.

Lemma crawl_from_not_400 url process_depth w :
  crawl_status (fst (crawl_from E url process_depth w))
  <> ("error"%string, 400).
Proof.
  intros H. pose proof (crawl_from_response url process_depth w) as Hr.
  destruct (fst (crawl_from E url process_depth w));
    try discriminate; tauto.
Qed.

(** X11: for a request whose body is parsed, [recursive_crawl] answers 400
    exactly when the frontier is empty and either the body is falsy, or
    [url] is not in it, or its value under the key [url] fails
    validation; and then it leaves the store as it is and sends no
    request.  (A truthy body of a type that has no [in], or one that has
    [url] in it and is not a [dict], is answered 500.) *)
Theorem validation_error_iff data w :
  (crawl_status (fst (recursive_crawl E data w)) = ("error"%string, 400)
   <-> Links_to_scrap w = [] /\
       (py_truthy data = false \/
        py_contains "url" data = Some false \/
        exists url,
          py_getitem "url" data = Some url /\
          is_valid_url_value E url = false)) /\
  (crawl_status (fst (recursive_crawl E data w)) = ("error"%string, 400) ->
   snd (recursive_crawl E data w) = w).
Proof.
  destruct (Links_to_scrap w) as [|e l] eqn:HL.
  - rewrite (recursive_crawl_empty E data w HL).
    pose proof (read_seed_missing data) as Hm.
    pose proof (read_seed_raises data) as Hx.
    pose proof (read_seed_rejected data) as Hr.
    pose proof (read_seed_accepted data) as Ha.
    destruct (read_seed E data) as [| |v|url pd]; cbn [fst snd crawl_status].
    + split; [|reflexivity]. split; [|reflexivity].
      intros _. split; [reflexivity|].
      destruct (proj1 Hm eq_refl) as [H|H]; auto.
    + split; [|discriminate]. split; [discriminate|].
      intros [_ [H|[H|(u & Hu & Hv)]]].
      * apply (or_introl (B := py_contains "url" data = Some false)) in H.
        apply Hm in H. discriminate.
      * apply (or_intror (A := py_truthy data = false)) in H.
        apply Hm in H. discriminate.
      * assert (H : SeedRaises = SeedRejected u) by (apply Hr; auto).
        discriminate.
    + split; [|reflexivity]. split; [|reflexivity].
      intros _. split; [reflexivity|]. right. right. exists v.
      now apply Hr.
    + split; [|intros H; now apply crawl_from_not_400 in H].
      split; [intros H; now apply crawl_from_not_400 in H|].
      intros [_ [H|[H|(u & Hu & Hv)]]].
      * apply (or_introl (B := py_contains "url" data = Some false)) in H.
        apply Hm in H. discriminate.
      * apply (or_intror (A := py_truthy data = false)) in H.
        apply Hm in H. discriminate.
      * assert (H : SeedAccepted url pd = SeedRejected u)
          by (apply Hr; auto).
        discriminate.
  - rewrite recursive_crawl_nonempty by (rewrite HL; discriminate).
    split.
    + split; [intros H; now apply crawl_from_not_400 in H
             | intros [H _]; discriminate].
    + intros H. now apply crawl_from_not_400 in H.
Qed.

(** X12: in the model, where the body is parsed and the store does not
    fail, [recursive_crawl] answers 500 exactly when the frontier is empty
    and either reading the body raises (the body is truthy and has no
    [in] for a [str], or has [url] in it and is not a [dict]), or the
    body has a string under [url] that passes validation and a depth
    that converts to an integer that is not positive: the loop runs no
    iteration and the statistics read a variable that only the loop body
    binds.  In the second case the seed stays in the frontier, uncrawled;
    in the first the store is left as it is.  No request is sent. *)
Theorem server_error_iff data w :
  (fst (recursive_crawl E data w) = CrawlFailed
   <-> Links_to_scrap w = [] /\
       ((py_truthy data = true /\
         (py_contains "url" data = None \/
          (py_contains "url" data = Some true /\
           py_getitem "url" data = None))) \/
        exists url v n,
          py_getitem "url" data = Some (JString url) /\
          is_valid_url E url = true /\
          py_getitem "depth" data = Some v /\
          py_int E v = Some n /\ (n <= 0)%Z)) /\
  (forall url,
      fst (recursive_crawl E data w) = CrawlFailed ->
      py_getitem "url" data = Some (JString url) ->
      snd (recursive_crawl E data w) = insert_link w url None 0) /\
  (fst (recursive_crawl E data w) = CrawlFailed ->
   py_getitem "url" data = None ->
   snd (recursive_crawl E data w) = w).
Proof.
  assert (Hpd : (depth_budget E data <= 0)%Z <->
                exists v n, py_getitem "depth" data = Some v /\
                            py_int E v = Some n /\ (n <= 0)%Z).
  { unfold depth_budget. destruct (py_getitem "depth" data) as [v|].
    - destruct (py_int E v) as [n|] eqn:Hi.
      + split; [intros H; eauto|].
        intros (v' & n' & Hv' & Hn' & Hle). injection Hv' as <-.
        rewrite Hi in Hn'. injection Hn' as <-. exact Hle.
      + split; [lia|].
        intros (v' & n' & Hv' & Hn' & _). injection Hv' as <-.
        congruence.
    - split; [lia|]. intros (v' & n' & Hv' & _). discriminate. }
  destruct (Links_to_scrap w) as [|e l] eqn:HL.
  - rewrite (recursive_crawl_empty E data w HL).
    pose proof (read_seed_missing data) as Hm.
    pose proof (read_seed_raises data) as Hx.
    pose proof (read_seed_rejected data) as Hr.
    pose proof (read_seed_accepted data) as Ha.
    destruct (read_seed E data) as [| |v|url pd]; cbn [fst snd].
    + split; [|split; intros; discriminate].
      split; [discriminate|].
      intros [_ [H|(u & v & n & Hu & Hv & _)]].
      * apply Hx in H. discriminate.
      * assert (H : SeedMissing = SeedAccepted u (depth_budget E data))
          by (apply Ha; auto).
        discriminate.
    + split; [|split].
      * split; [|reflexivity]. intros _. split; [reflexivity|]. left.
        now apply Hx.
      * intros u _ Hu.
        destruct (proj1 Hx eq_refl) as [_ [H|[_ H]]].
        -- apply py_getitem_some in Hu as [_ Hu]. congruence.
        -- congruence.
      * reflexivity.
    + split; [|split; intros; discriminate].
      split; [discriminate|].
      intros [_ [H|(u & v' & n & Hu & Hv & _)]].
      * apply Hx in H. discriminate.
      * assert (H : SeedRejected v = SeedAccepted u (depth_budget E data))
          by (apply Ha; auto).
        discriminate.
    + destruct (proj1 (Ha url pd) eq_refl) as (Hget & Hvalid & ->).
      pose proof (crawl_from_response (Some url) (depth_budget E data)
                    (insert_link w url None 0)) as Hf.
      destruct (fst (crawl_from E (Some url) (depth_budget E data)
                       (insert_link w url None 0))) eqn:Hfst;
        try contradiction.
      * split; [|split; intros; discriminate].
        split; [discriminate|].
        intros [_ [H|(u & v & n & _ & _ & Hd & Hi & Hn)]].
        -- apply Hx in H. discriminate.
        -- assert (depth_budget E data <= 0)%Z by (apply Hpd; eauto). lia.
      * split; [|split; intros; discriminate].
        split; [discriminate|].
        intros [_ [H|(u & v & n & _ & _ & Hd & Hi & Hn)]].
        -- apply Hx in H. discriminate.
        -- assert (depth_budget E data <= 0)%Z by (apply Hpd; eauto). lia.
      * destruct Hf as [Hle Hw]. split; [|split].
        -- split; [|reflexivity]. intros _. split; [reflexivity|]. right.
           apply Hpd in Hle as (v & n & Hd & Hi & Hn).
           exists url, v, n. auto.
        -- intros u _ Hu. rewrite Hget in Hu. injection Hu as <-. exact Hw.
        -- intros _ Hu. congruence.
  - rewrite recursive_crawl_nonempty by (rewrite HL; discriminate).
    pose proof (crawl_from_response None 1 w) as Hr.
    destruct (fst (crawl_from E None 1 w)); try contradiction.
    + split; [|split; intros; discriminate].
      split; [discriminate | intros [H _]; discriminate].
    + split; [|split; intros; discriminate].
      split; [discriminate | intros [H _]; discriminate].
    + destruct Hr; lia.
Qed.

(** X13: when [recursive_crawl] answers that there are no more links, no
    entry of the frontier is left uncrawled; on a frontier that is not
    empty and whose entries are all crawled it answers so at depth 0,
    sends no request and leaves the store as it is. *)
Theorem no_more_links_means_exhausted data w :
  (forall k,
      fst (recursive_crawl E data w) = CrawlNoMoreLinks k ->
      Forall (fun e => le_is_crawled e = true)
        (Links_to_scrap (snd (recursive_crawl E data w)))) /\
  (Links_to_scrap w <> [] ->
   Forall (fun e => le_is_crawled e = true) (Links_to_scrap w) ->
   recursive_crawl E data w = (CrawlNoMoreLinks 0, w)).
Proof.
  split.
  - intros k. rewrite recursive_crawl_read. destruct (Nat.eqb _ 0).
    + destruct (read_seed E data) as [| |v|url pd]; [discriminate..|].
      match goal with |- context [crawl_from E ?u ?pd ?w1] =>
        pose proof (crawl_from_response u pd w1) as Hr;
        destruct (fst (crawl_from E u pd w1)) end; try discriminate.
      intros _. apply Hr.
    + pose proof (crawl_from_response None 1 w) as Hr.
      destruct (fst (crawl_from E None 1 w)); try discriminate.
      intros _. apply Hr.
  - intros Hne Hall. rewrite recursive_crawl_nonempty by exact Hne.
    unfold crawl_from. change (seq 0 (Z.to_nat 1)) with [0].
    cbn [crawl_loop]. unfold crawl_step.
    now rewrite (all_crawled_no_candidate None 0 w Hall).
Qed.

End CrawlResponses.

Lemma no_more_links_means_exhausted_witness :
  Links_to_scrap MoreSamples.world_done <> [] /\
  Forall (fun e => le_is_crawled e = true)
    (Links_to_scrap MoreSamples.world_done) /\
  recursive_crawl Sample.env BodyNull
    MoreSamples.world_done
  = (CrawlNoMoreLinks 0, MoreSamples.world_done).
Proof.
  assert (H1 : Links_to_scrap MoreSamples.world_done <> [])
    by discriminate.
  assert (H2 : Forall (fun e => le_is_crawled e = true)
                 (Links_to_scrap MoreSamples.world_done))
    by (repeat constructor).
  split; [exact H1|]. split; [exact H2|].
  exact (proj2 (no_more_links_means_exhausted Sample.env
                  BodyNull MoreSamples.world_done)
           H1 H2).
Defined.

(** ** The requests and the discoveries of a crawl *)

Section CrawlBudget.

Variable E : Env.

Lemma frontier_kept_links w w' :
  frontier_kept w w' ->
  incl (map le_link (Links_to_scrap w)) (map le_link (Links_to_scrap w')).
Proof.
  intros (old & nl & HL & F). rewrite HL, map_app.
  assert (Hmap : map le_link old = map le_link (Links_to_scrap w)).
  { clear HL. induction F as [|x y l l' Hxy _ IH]; [reflexivity|].
    simpl. destruct Hxy as (_ & -> & _). now rewrite IH. }
  rewrite Hmap. apply incl_appl, incl_refl.
Qed.

Lemma crawl_loop_requests url depths : forall w,
  exists sent,
    requested (fst (crawl_loop E url depths w)) = requested w ++ sent /\
    List.length sent <= List.length depths /\
    Forall (fun u => In u (map le_link
                             (Links_to_scrap
                                (fst (crawl_loop E url depths w))))) sent.
Proof.
  induction depths as [|i rest IH]; intros w; simpl.
  - exists []. rewrite app_nil_r. repeat split; auto.
  - pose proof (crawl_step_spec E url i w) as Hs.
    destruct (select_candidate url i w) as [link_doc|] eqn:Hsel.
    + destruct Hs as (Hnone & Hreq & _).
      pose proof (crawl_step_preserves E url i w) as (K1 & _).
      destruct (crawl_step E url i w) as [w1 o]. cbn [fst snd] in *.
      subst o. destruct (IH w1) as (sent & Hsent & Hlen & Hin).
      pose proof (crawl_loop_preserves E url rest w1) as (K2 & _).
      exists (le_link link_doc :: sent). rewrite Hsent, Hreq, <- app_assoc.
      split; [reflexivity|]. split; [simpl; lia|].
      constructor; [|exact Hin].
      apply (frontier_kept_links _ _ K2), (frontier_kept_links _ _ K1).
      apply in_map. now apply select_candidate_in in Hsel.
    + rewrite Hs. cbn [fst]. exists []. rewrite app_nil_r.
      repeat split; auto. simpl. lia.
Qed.

(** X14: an invocation of [recursive_crawl] sends requests only to URLs of
    frontier entries, at most one when the frontier is not empty at the
    start (the depth of the body is not read then), and at most as many as
    the depth budget when it seeds an empty frontier. *)
Theorem recursive_crawl_request_budget data w :
  exists sent,
    requested (snd (recursive_crawl E data w)) = requested w ++ sent /\
    Forall (fun u => In u (map le_link
                             (Links_to_scrap
                                (snd (recursive_crawl E data w))))) sent /\
    (Links_to_scrap w <> [] -> List.length sent <= 1) /\
    (Links_to_scrap w = [] ->
     List.length sent
     <= Z.to_nat match py_getitem "depth" data with
                 | Some v => match py_int E v with
                             | Some n => n
                             | None => 1%Z
                             end
                 | None => 1%Z
                 end).
Proof.
  assert (Hnone : exists sent,
             requested w = requested w ++ sent /\
             Forall (fun u => In u (map le_link (Links_to_scrap w))) sent /\
             List.length sent = 0).
  { exists []. rewrite app_nil_r. auto. }
  destruct (Links_to_scrap w) as [|e l] eqn:HL.
  - rewrite (recursive_crawl_empty E data w HL).
    pose proof (read_seed_accepted E data) as Ha.
    destruct (read_seed E data) as [| |v|url pd];
      try (cbn [snd]; rewrite HL; destruct Hnone as (sent & H1 & H2 & H3);
           exists sent; repeat split; auto; lia).
    destruct (proj1 (Ha url pd) eq_refl) as (_ & _ & ->).
    rewrite crawl_from_world.
    match goal with |- context [crawl_loop E ?u ?ds ?w1] =>
      destruct (crawl_loop_requests u ds w1) as (sent & H1 & H2 & H3) end.
    rewrite length_seq in H2. exists sent. repeat split; auto.
    intros H; congruence.
  - rewrite recursive_crawl_nonempty by (rewrite HL; discriminate).
    rewrite crawl_from_world.
    destruct (crawl_loop_requests None (seq 0 (Z.to_nat 1)) w)
      as (sent & H1 & H2 & H3).
    exists sent. repeat split; auto. intros H; discriminate.
Qed.

(** *** What a successful iteration leaves in the store *)

Lemma find_link_in link w :
  In link (map le_link (Links_to_scrap w)) -> find_link link w <> None.
Proof. intros Hin Hnone. now apply find_link_none in Hnone. Qed.

Lemma find_task_in link w :
  In link (map ct_link (Processed_Links w)) -> find_task link w <> None.
Proof. intros Hin Hnone. now apply find_task_none in Hnone. Qed.

Lemma find_link_some_in link w e :
  find_link link w = Some e -> In link (map le_link (Links_to_scrap w)).
Proof.
  unfold find_link. intros H. apply find_some in H as [Hin He].
  apply String.eqb_eq in He. rewrite <- He. now apply in_map.
Qed.

Lemma find_task_some_in link w t :
  find_task link w = Some t -> In link (map ct_link (Processed_Links w)).
Proof.
  unfold find_task. intros H. apply find_some in H as [Hin He].
  apply String.eqb_eq in He. rewrite <- He. now apply in_map.
Qed.

Lemma grows_links w w' link :
  grows w w' -> In link (map le_link (Links_to_scrap w)) ->
  In link (map le_link (Links_to_scrap w')).
Proof.
  intros (nl & nt & HL & _) Hin. rewrite HL, map_app.
  apply in_or_app. now left.
Qed.

Lemma grows_tasks w w' link :
  grows w w' -> In link (map ct_link (Processed_Links w)) ->
  In link (map ct_link (Processed_Links w')).
Proof.
  intros (nl & nt & _ & HT & _) Hin. rewrite HT, map_app.
  apply in_or_app. now left.
Qed.

Lemma add_discovered_registers is_wiki u d w link :
  In link (map le_link (Links_to_scrap (add_discovered is_wiki u d w link)))
  /\ (is_wiki || contains_text_in_url link = true ->
      In link (map ct_link
                 (Processed_Links (add_discovered is_wiki u d w link)))).
Proof.
  unfold add_discovered.
  set (w1 := match find_link link w with
             | None => insert_link w link (Some u) (d + 1)
             | Some _ => w
             end).
  assert (H1 : In link (map le_link (Links_to_scrap w1))).
  { subst w1. destruct (find_link link w) as [e|] eqn:Hf.
    - now apply find_link_some_in in Hf.
    - simpl. rewrite map_app. apply in_or_app. right. simpl. auto. }
  destruct (is_wiki || contains_text_in_url link).
  - destruct (find_task link w1) as [t|] eqn:Hf.
    + split; [exact H1|]. intros _. now apply find_task_some_in in Hf.
    + split; [exact H1|]. intros _. simpl. rewrite map_app.
      apply in_or_app. right. simpl. auto.
  - split; [exact H1 | discriminate].
Qed.

Lemma fold_add_discovered_registers is_wiki u d ls : forall w link,
  In link ls ->
  In link (map le_link
             (Links_to_scrap (fold_left (add_discovered is_wiki u d) ls w)))
  /\ (is_wiki || contains_text_in_url link = true ->
      In link (map ct_link
                 (Processed_Links
                    (fold_left (add_discovered is_wiki u d) ls w)))).
Proof.
  induction ls as [|x ls IH]; intros w link Hin; [destruct Hin|].
  simpl. destruct Hin as [->|Hin]; [|now apply IH].
  pose proof (add_discovered_registers is_wiki u d w link) as [H1 H2].
  pose proof (grows_fold_add_discovered is_wiki u d ls
                (add_discovered is_wiki u d w link)) as Hg.
  split.
  - now apply (grows_links _ _ _ Hg).
  - intros Hp. apply (grows_tasks _ _ _ Hg). now apply H2.
Qed.

(** X15: after the iteration that crawls a page, a lookup by URL finds a
    frontier entry for every link extracted from the page, a content task
    for every extracted link in wiki mode or with a text hint, and a
    content task for the crawled URL itself. *)
Theorem crawl_step_registers_discoveries url i w link_doc pg :
  select_candidate url i w = Some link_doc ->
  http_get E (List.length (requested w)) (le_link link_doc) = Fetched pg ->
  let u := le_link link_doc in
  let ls := unique_links_of E (is_wiki_url u) u pg in
  let w' := fst (crawl_step E url i w) in
  (forall link, In link ls -> find_link link w' <> None) /\
  (forall link, In link ls ->
                is_wiki_url u || contains_text_in_url link = true ->
                find_task link w' <> None) /\
  find_task u w' <> None.
Proof.
  intros Hsel Hget u ls w'. subst w'. unfold crawl_step.
  rewrite Hsel, Hget. cbn [fst]. unfold crawl_page.
  fold u. fold ls.
  set (d := match le_depth link_doc with Some d => d | None => 0%Z end).
  set (w1 := insert_snapshot (send_request w u) u ls d).
  pose proof (fold_add_discovered_registers (is_wiki_url u) u d ls w1) as Hr.
  set (w2 := fold_left (add_discovered (is_wiki_url u) u d) ls w1) in *.
  set (w3 := update_link w2 (le_id link_doc) None).
  assert (HL3 : map le_link (Links_to_scrap w3)
                = map le_link (Links_to_scrap w2))
    by (apply update_one_map; reflexivity).
  destruct (find_task u w3) as [t|] eqn:Hf.
  - repeat split.
    + intros link Hin. apply find_link_in. rewrite HL3. now apply Hr.
    + intros link Hin Hp. apply find_task_in. now apply (Hr link Hin).
    + congruence.
  - repeat split.
    + intros link Hin. apply find_link_in.
      cbn [insert_task Links_to_scrap]. rewrite HL3. now apply Hr.
    + intros link Hin Hp. apply find_task_in.
      cbn [insert_task Processed_Links]. rewrite map_app.
      apply in_or_app. left. now apply (Hr link Hin).
    + apply find_task_in. cbn [insert_task Processed_Links].
      rewrite map_app. apply in_or_app. right. simpl. auto.
Qed.

End CrawlBudget.

Lemma crawl_step_registers_discoveries_witness :
  find_task "https://a.test/blog/a"
    (fst (crawl_step Sample.env None 0 Sample.world_1)) <> None.
Proof.
  exact (proj2 (proj2 (crawl_step_registers_discoveries Sample.env None 0
                         Sample.world_1
                         (mkLinkEntry 1 "https://a.test/blog/a" false
                            (Some "https://a.test"%string) (Some 1%Z) None)
                         Sample.page_blog eq_refl eq_refl))).
Defined.

Section CrawlGate.

Variable E : Env.

Lemma add_discovered_tasks is_wiki u d w link :
  exists new_tasks,
    Processed_Links (add_discovered is_wiki u d w link)
    = Processed_Links w ++ new_tasks /\
    Forall (fun t => (is_wiki = true \/
                      contains_text_in_url (ct_link t) = true) /\
                     ct_has_text_in_url t = true) new_tasks.
Proof.
  unfold add_discovered.
  set (w1 := match find_link link w with
             | None => insert_link w link (Some u) (d + 1)
             | Some _ => w
             end).
  assert (H1 : Processed_Links w1 = Processed_Links w)
    by (subst w1; destruct (find_link link w); reflexivity).
  destruct (is_wiki || contains_text_in_url link) eqn:Hp.
  - destruct (find_task link w1).
    + exists []. rewrite app_nil_r. auto.
    + eexists [_]. cbn [insert_task Processed_Links]. rewrite H1.
      split; [reflexivity|]. constructor; [|constructor].
      cbn [ct_link ct_has_text_in_url]. split.
      * apply orb_true_iff in Hp. exact Hp.
      * destruct is_wiki; [reflexivity | exact Hp].
  - exists []. rewrite app_nil_r. auto.
Qed.

Lemma fold_add_discovered_tasks is_wiki u d ls : forall w,
  exists new_tasks,
    Processed_Links (fold_left (add_discovered is_wiki u d) ls w)
    = Processed_Links w ++ new_tasks /\
    Forall (fun t => (is_wiki = true \/
                      contains_text_in_url (ct_link t) = true) /\
                     ct_has_text_in_url t = true) new_tasks.
Proof.
  induction ls as [|link ls IH]; intros w; simpl.
  - exists []. rewrite app_nil_r. auto.
  - destruct (add_discovered_tasks is_wiki u d w link) as (n1 & H1 & F1).
    destruct (IH (add_discovered is_wiki u d w link)) as (n2 & H2 & F2).
    exists (n1 ++ n2). rewrite H2, H1, app_assoc. split; [reflexivity|].
    apply Forall_app. auto.
Qed.

(** X16: in an iteration, a content task is created for a discovered link
    only in wiki mode or when the link has a text hint, and its flag
    [has_text_in_url] is true; the one task that can be created without
    these is the task of the crawled URL itself, whose flag is
    [contains_text_in_url] of that URL and whose source is [seed_url]
    when the stored depth of the entry is 0 (or missing). *)
Theorem crawl_step_queues_content_links url i w link_doc :
  select_candidate url i w = Some link_doc ->
  let u := le_link link_doc in
  exists new_tasks own_task,
    Processed_Links (fst (crawl_step E url i w))
    = Processed_Links w ++ new_tasks ++ own_task /\
    Forall (fun t => (is_wiki_url u = true \/
                      contains_text_in_url (ct_link t) = true) /\
                     ct_has_text_in_url t = true) new_tasks /\
    Forall (fun t => ct_link t = u /\
                     ct_has_text_in_url t = contains_text_in_url u /\
                     ct_source_url t = own_task_source link_doc /\
                     ct_depth t = Some (stored_depth link_doc)) own_task /\
    List.length own_task <= 1.
Proof.
  intros Hsel u. unfold crawl_step. rewrite Hsel. fold u.
  destruct (http_get E (List.length (requested w)) u) as [pg|msg|msg];
    cbn [fst].
  - unfold crawl_page. fold u. fold (stored_depth link_doc).
    set (ls := unique_links_of E (is_wiki_url u) u pg).
    set (d := stored_depth link_doc).
    set (w1 := insert_snapshot (send_request w u) u ls d).
    destruct (fold_add_discovered_tasks (is_wiki_url u) u d ls w1)
      as (nt & HT & FT).
    set (w2 := fold_left (add_discovered (is_wiki_url u) u d) ls w1) in *.
    set (w3 := update_link w2 (le_id link_doc) None).
    destruct (find_task u w3).
    + exists nt, []. rewrite app_nil_r. repeat split; auto.
    + eexists nt, [_]. cbn [insert_task w3 update_link Processed_Links].
      rewrite HT. cbn [w1 insert_snapshot send_request Processed_Links].
      rewrite <- app_assoc. split; [reflexivity|]. split; [exact FT|].
      split; [|simpl; lia].
      constructor; [|constructor].
      cbn [ct_link ct_has_text_in_url ct_source_url ct_depth].
      split; [reflexivity|]. split; [|split; reflexivity].
      destruct (is_wiki_url u) eqn:Hw; [|reflexivity].
      symmetry. unfold contains_text_in_url. apply existsb_exists.
      exists "wiki"%string. split; [simpl; tauto|].
      unfold is_wiki_url in Hw. apply orb_true_iff in Hw as [Hw|Hw];
        [|exact Hw].
      apply contains_lower in Hw.
      apply (contains_trans "wiki" (PyStr.lower "wikipedia.org"));
        [reflexivity | exact Hw].
  - exists [], []. rewrite !app_nil_r. repeat split; auto.
  - exists [], []. rewrite !app_nil_r. repeat split; auto.
Qed.

End CrawlGate.

Lemma crawl_step_queues_content_links_witness :
  exists new_tasks own_task,
    Processed_Links (fst (crawl_step Sample.env None 0 Sample.world_1))
    = Processed_Links Sample.world_1 ++ new_tasks ++ own_task /\
    List.length own_task <= 1.
Proof.
  destruct (crawl_step_queues_content_links Sample.env None 0 Sample.world_1
              (mkLinkEntry 1 "https://a.test/blog/a" false
                 (Some "https://a.test"%string) (Some 1%Z) None) eq_refl)
    as (nt & own & H1 & _ & _ & H2).
  exists nt, own. split; assumption.
Defined.

(** ** Bulk content processing, continued *)

Section ProcessMore.

Variable E : Env.

(** With distinct identifiers, the loop leaves no task of the queue
    pending. *)
Lemma process_all_links_all_processed w :
  unique_task_ids w ->
  Forall (fun t => ct_is_processed t = true)
    (Processed_Links (snd (process_all_links E w))).
Proof.
  intros Hids. rewrite process_all_links_world.
  set (pending := List.filter unprocessed (Processed_Links w)).
  assert (Hnd : NoDup (map ct_id pending))
    by (apply NoDup_map_filter; exact Hids).
  assert (Hin : forall t, In t pending -> In t (Processed_Links w))
    by (intros t Ht; now apply filter_In in Ht).
  pose proof (process_links_spec E pending
                (mkResults (count_documents unprocessed (Processed_Links w))
                   0 0 0 [])
                w Hids Hnd Hin) as H.
  cbv zeta in H. destruct H as (_ & Hmap & Hkeep & docs & _ & _ & Hall).
  match goal with |- Forall _ (Processed_Links ?x) => set (w' := x) in * end.
  assert (Hids' : NoDup (map ct_id (Processed_Links w')))
    by (rewrite Hmap; exact Hids).
  apply Forall_forall. intros t' Ht'.
  assert (Hid : In (ct_id t') (map ct_id (Processed_Links w)))
    by (rewrite <- Hmap; now apply in_map).
  apply in_map_iff in Hid as [t [Hid Ht]].
  destruct (ct_is_processed t) eqn:Hp.
  - assert (Hk : In t (Processed_Links w')).
    { apply Hkeep; [exact Ht|]. intros Hc.
      apply in_map_iff in Hc as [x [Hx Hxin]].
      assert (x = t) by
        (apply (NoDup_map_inj_on ct_id (Processed_Links w)); auto).
      subst x. apply filter_In in Hxin as [_ Hun].
      unfold unprocessed in Hun. rewrite Hp in Hun. discriminate. }
    assert (t' = t) by
      (apply (NoDup_map_inj_on ct_id (Processed_Links w')); auto).
    now subst t'.
  - assert (Hpend : In t pending)
      by (apply filter_In; split;
          [exact Ht | unfold unprocessed; now rewrite Hp]).
    apply In_nth_error in Hpend as [i Hi].
    destruct (Hall i t Hi) as [Hset _].
    match type of Hset with In ?x _ =>
      assert (t' = x) by
        (apply (NoDup_map_inj_on ct_id (Processed_Links w')); auto) end.
    now subst t'.
Qed.

Lemma all_processed_none_pending (l : list ContentTask) :
  Forall (fun t => ct_is_processed t = true) l ->
  List.filter unprocessed l = [].
Proof.
  induction 1 as [|t l Ht _ IH]; [reflexivity|].
  simpl. unfold unprocessed at 1. rewrite Ht. exact IH.
Qed.

(** X17: with distinct identifiers in the queue, [process_all_links]
    leaves no task pending, so a second invocation right after it finds
    nothing to do: it sends no request, changes nothing and answers that
    no unprocessed link was found.  Tasks that failed are not tried
    again. *)
Theorem process_all_links_drains_queue w :
  unique_task_ids w ->
  Forall (fun t => ct_is_processed t = true)
    (Processed_Links (snd (process_all_links E w))) /\
  process_all_links E (snd (process_all_links E w))
  = (mkProcessResponse "complete" NoUnprocessedLinksFound None,
     snd (process_all_links E w)).
Proof.
  intros Hids. pose proof (process_all_links_all_processed w Hids) as Hall.
  split; [exact Hall|].
  set (w' := snd (process_all_links E w)) in *.
  unfold process_all_links.
  assert (Hnone : List.filter unprocessed (Processed_Links w') = [])
    by (now apply all_processed_none_pending).
  apply filter_nil_count in Hnone. rewrite Hnone. reflexivity.
Qed.

(** The tallies of the loop. *)
Lemma process_links_tallies ts : forall res w,
  let res' := fst (fold_left (process_link E) ts (res, w)) in
  let w' := snd (fold_left (process_link E) ts (res, w)) in
  total_unprocessed res' = total_unprocessed res /\
  processed res' = processed res + List.length ts /\
  success res' + failed res' = success res + failed res + List.length ts /\
  List.length (details res') = List.length (details res) + List.length ts /\
  success res <= success res' /\
  List.length (scrapped_text w') + success res
  = List.length (scrapped_text w) + success res'.
Proof.
  induction ts as [|t ts IH]; intros res w; cbn [fold_left].
  - cbn [fst snd List.length]. repeat split; lia.
  - destruct (process_link E (res, w) t) as [res1 w1] eqn:Hstep.
    specialize (IH res1 w1). cbv zeta in IH.
    destruct IH as (H1 & H2 & H3 & H4 & H5 & H6).
    assert (Hone :
              total_unprocessed res1 = total_unprocessed res /\
              processed res1 = S (processed res) /\
              success res1 + failed res1 = S (success res + failed res) /\
              List.length (details res1) = S (List.length (details res)) /\
              success res <= success res1 /\
              List.length (scrapped_text w1) + success res
              = List.length (scrapped_text w) + success res1).
    { unfold process_link, scrape_single_link in Hstep.
      destruct (http_get E (List.length (requested w)) (ct_link t));
        injection Hstep as <- <-;
        cbn [total_unprocessed processed success failed details
               scrapped_text update_task insert_content send_request];
        rewrite ?length_app; simpl; repeat split; lia. }
    destruct Hone as (G1 & G2 & G3 & G4 & G5 & G6).
    cbn [List.length]. repeat split; lia.
Qed.

(** X18: the results of [process_all_links] when tasks are pending:
    [total_unprocessed] and [processed] are the number of pending tasks,
    every task is counted once as a success or as a failure and has one
    entry in [details], and the number of scraped documents grows by
    [success]; without pending tasks there are no results. *)
Theorem process_all_links_tallies w :
  let pending := List.filter unprocessed (Processed_Links w) in
  let w' := snd (process_all_links E w) in
  match pr_results (fst (process_all_links E w)) with
  | Some r =>
      pending <> [] /\
      total_unprocessed r = List.length pending /\
      processed r = List.length pending /\
      success r + failed r = List.length pending /\
      List.length (details r) = List.length pending /\
      List.length (scrapped_text w')
      = List.length (scrapped_text w) + success r /\
      pr_message (fst (process_all_links E w))
      = ProcessedLinks (processed r) (success r) (failed r)
  | None => pending = [] /\ w' = w
  end.
Proof.
  intros pending w'. subst w'. unfold process_all_links.
  fold pending. change (count_documents unprocessed (Processed_Links w))
    with (List.length pending).
  destruct (List.length pending =? 0)%nat eqn:Hc.
  - cbn [fst snd pr_results]. apply Nat.eqb_eq in Hc.
    split; [|reflexivity]. now destruct pending.
  - pose proof (process_links_tallies pending
                  (mkResults (List.length pending) 0 0 0 []) w) as H.
    cbv zeta in H.
    destruct (fold_left (process_link E) pending
                (mkResults (List.length pending) 0 0 0 [], w))
      as [r w1]. cbn [fst snd pr_results pr_message] in *.
    cbn [total_unprocessed processed success failed details List.length] in H.
    destruct H as (H1 & H2 & H3 & H4 & H5 & H6).
    apply Nat.eqb_neq in Hc.
    repeat split; try lia. intros ->. apply Hc. reflexivity.
Qed.

(** *** What bulk processing leaves alone *)

Lemma same_content_task_refl t : same_content_task t t.
Proof. repeat split. Qed.

Lemma Forall2_same_task_refl l : Forall2 same_content_task l l.
Proof. induction l; constructor; auto using same_content_task_refl. Qed.

Lemma Forall2_same_task_trans a b c :
  Forall2 same_content_task a b -> Forall2 same_content_task b c ->
  Forall2 same_content_task a c.
Proof.
  intros Hab. revert c. induction Hab as [|x y a b Hxy _ IH]; intros c Hbc.
  - inversion Hbc. constructor.
  - inversion Hbc as [|y' z b' c' Hyz Hbc']; subst. constructor; [|auto].
    destruct Hxy as (?&?&?&?&?), Hyz as (?&?&?&?&?).
    repeat split; congruence.
Qed.

Lemma process_links_frame ts : forall res w,
  let w' := snd (fold_left (process_link E) ts (res, w)) in
  Links_to_scrap w' = Links_to_scrap w /\
  Content_Links w' = Content_Links w /\
  Forall2 same_content_task (Processed_Links w) (Processed_Links w').
Proof.
  induction ts as [|t ts IH]; intros res w; cbn [fold_left].
  - cbn [snd]. repeat split. apply Forall2_same_task_refl.
  - destruct (process_link E (res, w) t) as [res1 w1] eqn:Hstep.
    specialize (IH res1 w1). cbv zeta in IH. destruct IH as (H1 & H2 & H3).
    assert (Hone : Links_to_scrap w1 = Links_to_scrap w /\
                   Content_Links w1 = Content_Links w /\
                   Forall2 same_content_task (Processed_Links w)
                     (Processed_Links w1)).
    { assert (Hw1 : w1 = snd (scrape_single_link E t w))
        by (rewrite <- (process_link_world E res w t), Hstep; reflexivity).
      subst w1. unfold scrape_single_link.
      destruct (http_get E (List.length (requested w)) (ct_link t));
        cbn [snd update_task insert_content send_request Links_to_scrap
               Content_Links Processed_Links];
        (split; [reflexivity|]; split; [reflexivity|];
         apply update_one_Forall2;
         [apply same_content_task_refl | intros d; repeat split]). }
    destruct Hone as (G1 & G2 & G3).
    split; [congruence|]. split; [congruence|].
    eapply Forall2_same_task_trans; eauto.
Qed.

(** X19: [process_all_links] does not touch the frontier or the
    snapshots, and it adds, removes or reorders no content task: each
    task keeps its identifier, URL, source, text-hint flag and depth, so
    only the processed flag and the error can change. *)
Theorem process_all_links_frame w :
  Links_to_scrap (snd (process_all_links E w)) = Links_to_scrap w /\
  Content_Links (snd (process_all_links E w)) = Content_Links w /\
  Forall2 same_content_task (Processed_Links w)
    (Processed_Links (snd (process_all_links E w))).
Proof. rewrite process_all_links_world. apply process_links_frame. Qed.

End ProcessMore.

Lemma process_all_links_drains_queue_witness :
  unique_task_ids Sample.world_1 /\
  process_all_links Sample.env
    (snd (process_all_links Sample.env Sample.world_1))
  = (mkProcessResponse "complete" NoUnprocessedLinksFound None,
     snd (process_all_links Sample.env Sample.world_1)).
Proof.
  assert (H : unique_task_ids Sample.world_1).
  { unfold unique_task_ids. simpl.
    repeat constructor; simpl; intuition discriminate. }
  split; [exact H|].
  exact (proj2 (process_all_links_drains_queue Sample.env Sample.world_1 H)).
Defined.

(** ** Stats, continued *)

Section StatsMore.

Variable E : Env.

Lemma count_partition {A : Type} (p : A -> bool) (l : list A) :
  count_documents (fun x => negb (p x)) l + count_documents p l
  = List.length l.
Proof.
  unfold count_documents. induction l as [|x l IH]; simpl; [reflexivity|].
  destruct (p x); simpl; lia.
Qed.

Lemma count_all {A : Type} (l : list A) :
  count_documents (fun _ => true) l = List.length l.
Proof.
  unfold count_documents. induction l as [|x l IH]; simpl; [reflexivity|].
  now rewrite IH.
Qed.

Lemma list_sum_words_app a b :
  list_sum (map document_words (a ++ b))
  = list_sum (map document_words a) + list_sum (map document_words b).
Proof. now rewrite map_app, list_sum_app. Qed.

Lemma bulk_docs_appended w :
  exists docs,
    scrapped_text (snd (process_all_links E w)) = scrapped_text w ++ docs.
Proof.
  rewrite process_all_links_world.
  generalize (mkResults (count_documents unprocessed (Processed_Links w))
                0 0 0 []).
  generalize (List.filter unprocessed (Processed_Links w)).
  intros ts. revert w. induction ts as [|t ts IH]; intros w res;
    cbn [fold_left].
  - exists []. now rewrite app_nil_r.
  - destruct (process_link E (res, w) t) as [res1 w1] eqn:Hstep.
    destruct (IH w1 res1) as [docs Hd]. rewrite Hd.
    assert (Hw1 : w1 = snd (scrape_single_link E t w))
      by (rewrite <- (process_link_world E res w t), Hstep; reflexivity).
    subst w1. unfold scrape_single_link.
    destruct (http_get E (List.length (requested w)) (ct_link t));
      cbn [snd update_task insert_content send_request scrapped_text].
    + eexists. rewrite <- app_assoc. reflexivity.
    + now exists docs.
    + now exists docs.
Qed.

(** X20: the statistics of a crawl response describe the store it
    returns, as [realtime_stats] reports it: the uncrawled and the crawled
    entries add up to the links listed, the pending tasks are
    [Pending_Links], and the pending and the processed tasks add up to
    [Total_Number_of_Links]. *)
Theorem crawl_stats_agree_with_realtime_stats data w n stats :
  fst (recursive_crawl E data w) = CrawlCompleted n stats ->
  let s := fst (realtime_stats (snd (recursive_crawl E data w))) in
  links_to_crawl stats + links_crawled stats = List.length (Links s) /\
  links_to_scrape stats = Pending_Links s /\
  links_to_scrape stats + links_scraped stats = Total_Number_of_Links s.
Proof.
  intros Hresp s.
  assert (Hstats : stats = crawl_stats (snd (recursive_crawl E data w))).
  { revert Hresp. rewrite recursive_crawl_read. destruct (Nat.eqb _ 0).
    - destruct (read_seed E data) as [| |v|url pd]; [discriminate..|].
      match goal with |- context [crawl_from E ?u ?pd ?w1] =>
        pose proof (crawl_from_response E u pd w1) as Hr;
        destruct (fst (crawl_from E u pd w1)) end; try discriminate.
      intros H; injection H as <- <-. apply Hr.
    - pose proof (crawl_from_response E None 1 w) as Hr.
      destruct (fst (crawl_from E None 1 w)); try discriminate.
      intros H; injection H as <- <-. apply Hr. }
  subst s stats. unfold realtime_stats, crawl_stats.
  cbn [fst Links Pending_Links Total_Number_of_Links links_to_crawl
         links_crawled links_to_scrape links_scraped].
  rewrite length_map, count_all.
  split; [apply (count_partition le_is_crawled)|].
  split; [reflexivity | apply (count_partition ct_is_processed)].
Qed.

(** X21: what [realtime_stats] reports after [process_all_links] on a
    queue with distinct identifiers: no pending link, the same links and
    the same number of tasks, [success] more scraped documents, and a
    total of words that has not decreased. *)
Theorem stats_after_bulk_processing w :
  unique_task_ids w ->
  let s := fst (realtime_stats w) in
  let s' := fst (realtime_stats (snd (process_all_links E w))) in
  Pending_Links s' = 0 /\
  Links s' = Links s /\
  Total_Number_of_Links s' = Total_Number_of_Links s /\
  Scrapped_Links s'
  = Scrapped_Links s
    + match pr_results (fst (process_all_links E w)) with
      | Some r => success r
      | None => 0
      end /\
  Total_Words_Scrapped s <= Total_Words_Scrapped s'.
Proof.
  intros Hids s s'. subst s s'. unfold realtime_stats.
  cbn [fst Pending_Links Links Total_Number_of_Links Scrapped_Links
         Total_Words_Scrapped].
  pose proof (process_all_links_all_processed E w Hids) as Hall.
  pose proof (process_links_frame E
                (List.filter unprocessed (Processed_Links w))
                (mkResults (count_documents unprocessed (Processed_Links w))
                   0 0 0 []) w) as Hframe.
  cbv zeta in Hframe. rewrite <- process_all_links_world in Hframe.
  destruct Hframe as (HL & _ & HT).
  pose proof (process_links_tallies E
                (List.filter unprocessed (Processed_Links w))
                (mkResults (count_documents unprocessed (Processed_Links w))
                   0 0 0 []) w) as Htal.
  cbv zeta in Htal. rewrite <- process_all_links_world in Htal.
  destruct Htal as (_ & _ & _ & _ & _ & Hdocs).
  cbn [success] in Hdocs.
  pose proof (bulk_docs_appended w) as [docs Hd].
  set (w' := snd (process_all_links E w)) in *.
  split; [|split; [|split; [|split]]].
  - unfold count_documents.
    now rewrite (all_processed_none_pending _ Hall).
  - now rewrite HL.
  - rewrite !count_all. symmetry. now apply Forall2_length in HT.
  - rewrite !count_all.
    assert (Hr : match pr_results (fst (process_all_links E w)) with
                 | Some r => success r
                 | None => 0
                 end
                 = success (fst (fold_left (process_link E)
                     (List.filter unprocessed (Processed_Links w))
                     (mkResults
                        (count_documents unprocessed (Processed_Links w))
                        0 0 0 [], w)))).
    { unfold process_all_links. destruct (Nat.eqb _ 0) eqn:Hc.
      - apply Nat.eqb_eq, filter_nil_count in Hc. rewrite Hc. reflexivity.
      - destruct (fold_left _ _ _). reflexivity. }
    rewrite Hr. lia.
  - rewrite !fold_words, Hd, list_sum_words_app. lia.
Qed.

End StatsMore.

Lemma crawl_stats_agree_with_realtime_stats_witness :
  fst (recursive_crawl Sample.env
         (BodyObject [("url"%string, JString "https://a.test")]) empty_world)
  = CrawlCompleted 1 (mkCrawlStats 1 1 2 0) /\
  links_to_scrape (mkCrawlStats 1 1 2 0)
  = Pending_Links
      (fst (realtime_stats
              (snd (recursive_crawl Sample.env
                      (BodyObject [("url"%string, JString "https://a.test")])
                      empty_world)))).
Proof.
  split; [reflexivity|].
  exact (proj1 (proj2 (crawl_stats_agree_with_realtime_stats Sample.env
                         (BodyObject [("url"%string, JString "https://a.test")])
                         empty_world 1 (mkCrawlStats 1 1 2 0) eq_refl))).
Defined.

Lemma stats_after_bulk_processing_witness :
  unique_task_ids Sample.world_1 /\
  Pending_Links
    (fst (realtime_stats (snd (process_all_links Sample.env Sample.world_1))))
  = 0.
Proof.
  assert (H : unique_task_ids Sample.world_1).
  { unfold unique_task_ids. simpl.
    repeat constructor; simpl; intuition discriminate. }
  split; [exact H|].
  exact (proj1 (stats_after_bulk_processing Sample.env Sample.world_1 H)).
Defined.

Lemma validation_error_iff_witness :
  crawl_status
    (fst (recursive_crawl Sample.env
            (BodyObject [("url"%string, JString "https:/a.test")]) empty_world))
  = ("error"%string, 400) /\
  snd (recursive_crawl Sample.env
         (BodyObject [("url"%string, JString "https:/a.test")]) empty_world)
  = empty_world.
Proof.
  assert (H : crawl_status
                (fst (recursive_crawl Sample.env
                        (BodyObject [("url"%string, JString "https:/a.test")])
                        empty_world))
              = ("error"%string, 400)).
  { apply (proj1 (validation_error_iff Sample.env
                    (BodyObject [("url"%string, JString "https:/a.test")])
                    empty_world)).
    split; [reflexivity|]. right. right.
    exists (JString "https:/a.test"). split; reflexivity. }
  split; [exact H|].
  exact (proj2 (validation_error_iff Sample.env
                  (BodyObject [("url"%string, JString "https:/a.test")])
                  empty_world) H).
Defined.

Lemma server_error_iff_witness :
  fst (recursive_crawl Sample.env
         (BodyObject [("url"%string, JString "https://a.test");
                      ("depth"%string, JInt 0)])
         empty_world)
  = CrawlFailed /\
  snd (recursive_crawl Sample.env
         (BodyObject [("url"%string, JString "https://a.test");
                      ("depth"%string, JInt 0)])
         empty_world)
  = insert_link empty_world "https://a.test" None 0 /\
  recursive_crawl Sample.env (BodyArray [JString "url"]) empty_world
  = (CrawlFailed, empty_world).
Proof.
  assert (H : fst (recursive_crawl Sample.env
                     (BodyObject [("url"%string, JString "https://a.test");
                                  ("depth"%string, JInt 0)])
                     empty_world)
              = CrawlFailed).
  { apply (proj1 (server_error_iff Sample.env
                    (BodyObject [("url"%string, JString "https://a.test");
                                 ("depth"%string, JInt 0)])
                    empty_world)).
    split; [reflexivity|]. right.
    exists "https://a.test"%string, (JInt 0), 0%Z.
    repeat split. reflexivity. }
  split; [exact H|]. split; [|reflexivity].
  exact (proj1 (proj2 (server_error_iff Sample.env
                         (BodyObject [("url"%string,
                                       JString "https://a.test");
                                      ("depth"%string, JInt 0)])
                         empty_world)) "https://a.test"%string H eq_refl).
Defined.
